(** * Economic-indicator ingestion pipeline: a shallow embedding

    The development follows the Python sources file by file.  Each Rocq
    module below carries the name of the source file it embeds and each
    definition the name of the Python function it is translated from.

    Conventions of the embedding.

    - A Python [str] is a Rocq [string] whose characters are read as code
      points 0..255 (Latin-1).  Character classes ([str.isspace],
      [str.isalnum], [str.lower], the regular-expression classes) are the
      Unicode ones restricted to that range.  String constants of the
      program that contain a code point above 255 (U+2019, U+202F) cannot
      occur in such a text; the places where they are left out are marked.
    - A Python [float] is an exact rational ([Q]); an [int] is a [Z].
      Binary rounding, infinities and NaN are not part of the model.
    - A Python [dict] with string keys is a [gmap string pyval]; the
      insertion-ordered dictionary [merged_map] of the cross-run merge is
      an association list, because the order of its values is observable.
    - Exceptions are values of [result]; the functions that can raise return
      [result A] and are sequenced with stdpp's [x ← e; k]. *)

From Stdlib Require Import ZArith QArith Qabs Qround Lqa Ascii String List Bool Lia.
From stdpp Require Import base strings gmap pretty.

Local Open Scope Z_scope.
Local Open Scope string_scope.
Local Open Scope list_scope.

(** ** Part I. The embedding *)

(** *** Python strings *)
Module PyStr.

Definition code (c : ascii) : nat := nat_of_ascii c.

Definition in_range (lo hi : nat) (c : ascii) : bool :=
  Nat.leb lo (code c) && Nat.leb (code c) hi.

(** [str.isspace] on one character, which is also the class [\s]. *)
Definition is_space (c : ascii) : bool :=
  in_range 9 13 c || in_range 28 32 c || Nat.eqb (code c) 133
  || Nat.eqb (code c) 160.

(** The class [\d]: decimal digits. *)
Definition is_digit (c : ascii) : bool := in_range 48 57 c.

Definition is_ascii_upper (c : ascii) : bool := in_range 65 90 c.
Definition is_ascii_lower (c : ascii) : bool := in_range 97 122 c.

(** Upper-case letters of Latin-1: A-Z, U+00C0..U+00DE without U+00D7. *)
Definition is_upper (c : ascii) : bool :=
  is_ascii_upper c || in_range 192 214 c || in_range 216 222 c.

(** Lower-case letters of Latin-1 that have a Latin-1 upper case. *)
Definition is_lower (c : ascii) : bool :=
  is_ascii_lower c || in_range 224 246 c || in_range 248 254 c.

(** [str.isalpha] on one character. *)
Definition is_alpha (c : ascii) : bool :=
  is_ascii_upper c || is_ascii_lower c
  || Nat.eqb (code c) 170 || Nat.eqb (code c) 181 || Nat.eqb (code c) 186
  || in_range 192 214 c || in_range 216 246 c || in_range 248 255 c.

(** [str.isalnum] on one character: letters, digits, and the superscript
    digits and vulgar fractions of Latin-1. *)
Definition is_alnum (c : ascii) : bool :=
  is_alpha c || is_digit c
  || Nat.eqb (code c) 178 || Nat.eqb (code c) 179 || Nat.eqb (code c) 185
  || in_range 188 190 c.

(** The class [\w] and the characters either side of [\b]. *)
Definition is_word (c : ascii) : bool :=
  is_alnum c || Nat.eqb (code c) 95.

Definition lower_char (c : ascii) : ascii :=
  if is_upper c then ascii_of_nat (code c + 32) else c.

(** Upper case of one character.  The three Latin-1 letters whose upper
    case lies outside Latin-1 (U+00DF, U+00FF, U+00B5) are left as they
    are. *)
Definition upper_char (c : ascii) : ascii :=
  if is_lower c then ascii_of_nat (code c - 32) else c.

Fixpoint map_chars (f : ascii -> ascii) (s : string) : string :=
  match s with
  | EmptyString => EmptyString
  | String c s' => String (f c) (map_chars f s')
  end.

(** [s.lower()] *)
Definition lower (s : string) : string := map_chars lower_char s.

Fixpoint lstrip (s : string) : string :=
  match s with
  | EmptyString => EmptyString
  | String c s' => if is_space c then lstrip s' else s
  end.

Fixpoint rstrip (s : string) : string :=
  match s with
  | EmptyString => EmptyString
  | String c s' =>
      match rstrip s' with
      | EmptyString => if is_space c then EmptyString else String c EmptyString
      | r => String c r
      end
  end.

(** [s.strip()] *)
Definition strip (s : string) : string := rstrip (lstrip s).

Fixpoint all_chars (p : ascii -> bool) (s : string) : bool :=
  match s with
  | EmptyString => true
  | String c s' => p c && all_chars p s'
  end.

Fixpoint len (s : string) : nat :=
  match s with
  | EmptyString => O
  | String _ s' => S (len s')
  end.

(** [s.startswith(p)] *)
Fixpoint startswith (s p : string) : bool :=
  match p, s with
  | EmptyString, _ => true
  | String _ _, EmptyString => false
  | String a p', String b s' => Ascii.eqb a b && startswith s' p'
  end.

(** [needle in hay] *)
Fixpoint contains (needle hay : string) : bool :=
  startswith hay needle
  || match hay with
     | EmptyString => false
     | String _ hay' => contains needle hay'
     end.

Fixpoint rev_acc (s acc : string) : string :=
  match s with
  | EmptyString => acc
  | String c s' => rev_acc s' (String c acc)
  end.

Definition rev (s : string) : string := rev_acc s EmptyString.

(** [s.endswith(p)] *)
Definition endswith (s p : string) : bool := startswith (rev s) (rev p).

Fixpoint drop (n : nat) (s : string) : string :=
  match n, s with
  | O, _ => s
  | S n', String _ s' => drop n' s'
  | S _, EmptyString => EmptyString
  end.

(** [s.replace(old, new)] for a non-empty [old]: leftmost occurrences,
    not overlapping. *)
Fixpoint replace_fuel (fuel : nat) (old new s : string) : string :=
  match fuel with
  | O => s
  | S fuel' =>
      match s with
      | EmptyString => EmptyString
      | String c s' =>
          if startswith s old
          then new +:+ replace_fuel fuel' old new (drop (len old) s)
          else String c (replace_fuel fuel' old new s')
      end
  end.

Definition replace (old new s : string) : string :=
  replace_fuel (S (len s)) old new s.

(** [str.title()], case by case on whether the previous character is
    cased (in Latin-1 the cased characters are the letters). *)
Fixpoint title_from (previous_is_cased : bool) (s : string) : string :=
  match s with
  | EmptyString => EmptyString
  | String c s' =>
      String (if previous_is_cased then lower_char c else upper_char c)
             (title_from (is_alpha c) s')
  end.

Definition title (s : string) : string := title_from false s.

(** [str.capitalize()] *)
Definition capitalize (s : string) : string :=
  match s with
  | EmptyString => EmptyString
  | String c s' => String (upper_char c) (lower s')
  end.

(** [s.split()]: the maximal runs of non-whitespace characters.  [cur]
    holds the run being read, reversed. *)
Fixpoint split_from (cur : string) (s : string) : list string :=
  match s with
  | EmptyString =>
      match cur with EmptyString => [] | _ => [rev cur] end
  | String c s' =>
      if is_space c
      then match cur with
           | EmptyString => split_from EmptyString s'
           | _ => rev cur :: split_from EmptyString s'
           end
      else split_from (String c cur) s'
  end.

Definition split (s : string) : list string := split_from EmptyString s.

(** [sep.join(parts)] *)
Fixpoint join (sep : string) (parts : list string) : string :=
  match parts with
  | [] => EmptyString
  | [p] => p
  | p :: ps => p +:+ sep +:+ join sep ps
  end.

Fixpoint filter_chars (p : ascii -> bool) (s : string) : string :=
  match s with
  | EmptyString => EmptyString
  | String c s' =>
      if p c then String c (filter_chars p s') else filter_chars p s'
  end.

Fixpoint concat_map (f : ascii -> string) (s : string) : string :=
  match s with
  | EmptyString => EmptyString
  | String c s' => f c +:+ concat_map f s'
  end.

Definition chr (n : nat) : string := String (ascii_of_nat n) EmptyString.

(** What [unicodedata.normalize("NFKD", c).encode("ascii", "ignore")]
    leaves of one Latin-1 character: an ASCII character is kept, an
    accented letter gives its base letter, a character with a
    compatibility decomposition gives the ASCII part of it, anything else
    is dropped. *)
Definition nfkd_ascii (c : ascii) : string :=
  let n := code c in
  if Nat.ltb n 128 then String c EmptyString
  else if existsb (Nat.eqb n) [160; 168; 175; 180; 184]%nat then " "
  else if Nat.eqb n 170 then "a"
  else if Nat.eqb n 178 then "2"
  else if Nat.eqb n 179 then "3"
  else if Nat.eqb n 185 then "1"
  else if Nat.eqb n 186 then "o"
  else if Nat.eqb n 188 then "14"
  else if Nat.eqb n 189 then "12"
  else if Nat.eqb n 190 then "34"
  else if in_range 192 197 c then "A"
  else if Nat.eqb n 199 then "C"
  else if in_range 200 203 c then "E"
  else if in_range 204 207 c then "I"
  else if Nat.eqb n 209 then "N"
  else if in_range 210 214 c then "O"
  else if in_range 217 220 c then "U"
  else if Nat.eqb n 221 then "Y"
  else if in_range 224 229 c then "a"
  else if Nat.eqb n 231 then "c"
  else if in_range 232 235 c then "e"
  else if in_range 236 239 c then "i"
  else if Nat.eqb n 241 then "n"
  else if in_range 242 246 c then "o"
  else if in_range 249 252 c then "u"
  else if Nat.eqb n 253 || Nat.eqb n 255 then "y"
  else EmptyString.

(** Reads a literal written in UTF-8 in this file as the Latin-1 string
    it denotes (two-byte sequences led by 0xC2 or 0xC3 become one
    character). *)
Fixpoint latin1_from (lead : nat) (s : string) : string :=
  match s with
  | EmptyString => EmptyString
  | String c s' =>
      if Nat.eqb lead 194 then String c (latin1_from 0 s')
      else if Nat.eqb lead 195
           then String (ascii_of_nat (code c + 64)) (latin1_from 0 s')
      else if Nat.eqb (code c) 194 || Nat.eqb (code c) 195
           then latin1_from (code c) s'
      else String c (latin1_from 0 s')
  end.

Definition latin1 (s : string) : string := latin1_from 0 s.

(** The longest prefix without a character of the class, and what
    follows it. *)
Fixpoint break_at (p : ascii -> bool) (s : string) : string * string :=
  match s with
  | EmptyString => (EmptyString, EmptyString)
  | String c s' =>
      if p c then (EmptyString, s)
      else let '(a, b) := break_at p s' in (String c a, b)
  end.

(** [c in s] for one character. *)
Fixpoint has_char (c : ascii) (s : string) : bool :=
  match s with
  | EmptyString => false
  | String d s' => Ascii.eqb c d || has_char c s'
  end.

(** [s.rstrip(c)] for one character. *)
Fixpoint rstrip_char (c : ascii) (s : string) : string :=
  match s with
  | EmptyString => EmptyString
  | String d s' =>
      match rstrip_char c s' with
      | EmptyString => if Ascii.eqb c d then EmptyString else String d EmptyString
      | r => String d r
      end
  end.

(** [a < b] on strings: lexicographic on the code points. *)
Fixpoint ltb (a b : string) : bool :=
  match a, b with
  | _, EmptyString => false
  | EmptyString, String _ _ => true
  | String x a', String y b' =>
      Nat.ltb (code x) (code y) || (Nat.eqb (code x) (code y) && ltb a' b')
  end.

End PyStr.

(** *** Python values and exceptions *)
Module Py.

Inductive exn : Type :=
| KeyError
| TypeError
| AttributeError
| ValueError.

Inductive result (A : Type) : Type :=
| Ok (a : A)
| Raise (e : exn).
Arguments Ok {A} a.
Arguments Raise {A} e.

Definition bind {A B : Type} (r : result A) (k : A -> result B) : result B :=
  match r with
  | Ok a => k a
  | Raise e => Raise e
  end.

(** The scalar values a JSON record of the pipeline holds. *)
Inductive pyval : Type :=
| PNone
| PBool (b : bool)
| PInt (z : Z)
| PFloat (q : Q)
| PStr (s : string).

(** Truth value of an object, as tested by [if], [not], [and], [or]. *)
Definition truthy (v : pyval) : bool :=
  match v with
  | PNone => false
  | PBool b => b
  | PInt z => negb (Z.eqb z 0)
  | PFloat q => negb (Qeq_bool q 0)
  | PStr s => negb (String.eqb s "")
  end.

(** [a < b] on floats. *)
Definition qlt (a b : Q) : bool := negb (Qle_bool b a).

(** [a or b] *)
Definition por (a b : pyval) : pyval := if truthy a then a else b.

(** The number a value stands for in arithmetic and comparisons
    ([bool] is a subclass of [int]). *)
Definition num_of (v : pyval) : option Q :=
  match v with
  | PBool b => Some (if b then 1%Q else 0%Q)
  | PInt z => Some (inject_Z z)
  | PFloat q => Some q
  | _ => None
  end.

(** [a == b] on scalars. *)
Definition py_eq (a b : pyval) : bool :=
  match num_of a, num_of b with
  | Some x, Some y => Qeq_bool x y
  | None, None =>
      match a, b with
      | PNone, PNone => true
      | PStr s, PStr t => String.eqb s t
      | _, _ => false
      end
  | _, _ => false
  end.

(** A record of the pipeline: a [dict] from field names to scalars. *)
Abbreviation record := (gmap string pyval).

(** [d.get(k)] *)
Definition get (d : gmap string pyval) (k : string) : pyval :=
  default PNone (d !! k).

(** [d[k]] *)
Definition getitem (d : gmap string pyval) (k : string) : result pyval :=
  match d !! k with
  | Some v => Ok v
  | None => Raise KeyError
  end.

(** The receiver of a [str] method: anything else has no such
    attribute. *)
Definition as_str (v : pyval) : result string :=
  match v with
  | PStr s => Ok s
  | _ => Raise AttributeError
  end.

(** [v.strip().lower()] *)
Definition strip_lower (v : pyval) : result string :=
  match as_str v with
  | Ok s => Ok (PyStr.lower (PyStr.strip s))
  | Raise e => Raise e
  end.

Definition is_none (v : pyval) : bool :=
  match v with PNone => true | _ => false end.

End Py.

#[global] Instance result_ret : MRet Py.result := @Py.Ok.
#[global] Instance result_bind : MBind Py.result :=
  fun A B k r => Py.bind r k.

(** *** difflib (standard library): [SequenceMatcher(None, a, b).ratio()]

    The matcher without junk: the "popular element" heuristic of
    [autojunk] only starts when the second sequence has 200 elements or
    more.  The functions that compare texts take the ratio as a parameter;
    this definition is the one used on concrete, short texts. *)
Module Difflib.

Fixpoint common_prefix (a b : list ascii) : nat :=
  match a, b with
  | x :: a', y :: b' => if Ascii.eqb x y then S (common_prefix a' b') else O
  | _, _ => O
  end.

(** Best block starting at the head of [a]: scans the starts [j] of [b]
    in increasing order and keeps a strictly longer block only. *)
Fixpoint scan_b (a b : list ascii) (i j : nat) (best : nat * nat * nat)
  : nat * nat * nat :=
  match b with
  | [] => best
  | _ :: b' =>
      let k := common_prefix a b in
      let best := if Nat.ltb (snd best) k then (i, j, k) else best in
      scan_b a b' i (S j) best
  end.

Fixpoint scan_a (a b : list ascii) (i : nat) (best : nat * nat * nat)
  : nat * nat * nat :=
  match a with
  | [] => best
  | _ :: a' => scan_a a' b (S i) (scan_b a b i O best)
  end.

(** [find_longest_match]: of all longest common blocks the one that starts
    earliest in [a], and of those the one that starts earliest in [b]. *)
Definition find_longest_match (a b : list ascii) : nat * nat * nat :=
  scan_a a b O (O, O, O).

(** Sum of the sizes of the blocks of [get_matching_blocks]: the longest
    block, then the same to its left and to its right. *)
Fixpoint matches (fuel : nat) (a b : list ascii) : nat :=
  match fuel with
  | O => O
  | S fuel' =>
      let '(i, j, k) := find_longest_match a b in
      match k with
      | O => O
      | _ =>
          (k + matches fuel' (firstn i a) (firstn j b)
           + matches fuel' (skipn (i + k) a) (skipn (j + k) b))%nat
      end
  end.

Definition ratio (a b : string) : Q :=
  let la := list_ascii_of_string a in
  let lb := list_ascii_of_string b in
  let total := (List.length la + List.length lb)%nat in
  match total with
  | O => 1%Q
  | _ =>
      (inject_Z (2 * Z.of_nat (matches (S (List.length la)) la lb))
       / inject_Z (Z.of_nat total))%Q
  end.

End Difflib.

(** *** re (standard library): the regular expressions of the program

    A pattern is written as a term of [re]; [matches] lists the states a
    backtracking matcher can end in, in the order in which Python's engine
    tries them (alternatives left to right, greedy repetition), so that
    the first one is the match [re.search] reports. *)
Module Re.

Inductive re : Type :=
| Eps                          (* the empty pattern *)
| Chr (p : ascii -> bool)      (* one character of a class *)
| Seq (a b : re)               (* ab *)
| Alt (a b : re)               (* a|b *)
| Star (a : re)                (* a*, greedy *)
| Grp (i : nat) (a : re)       (* capturing group number i *)
| WordB.                       (* \b *)

(** Where the matcher stands: the character before the position, the
    text after it, and the groups captured so far (latest first). *)
Record state : Type := State {
  prev : option ascii;
  rest : list ascii;
  caps : list (nat * string)
}.

Definition is_word_opt (c : option ascii) : bool :=
  match c with Some c => PyStr.is_word c | None => false end.

(** [a*] with [step] the matcher of [a]: as many rounds as possible first;
    a round that consumes nothing ends the loop. *)
Fixpoint star_loop (step : state -> list state) (fuel : nat) (s : state)
  : list state :=
  match fuel with
  | O => [s]
  | S fuel' =>
      flat_map
        (fun s' =>
           if Nat.ltb (List.length (rest s')) (List.length (rest s))
           then star_loop step fuel' s' else [])
        (step s)
      ++ [s]
  end.

Fixpoint matches (r : re) (s : state) : list state :=
  match r with
  | Eps => [s]
  | Chr p =>
      match rest s with
      | c :: rest' => if p c then [State (Some c) rest' (caps s)] else []
      | [] => []
      end
  | Seq a b => flat_map (matches b) (matches a s)
  | Alt a b => matches a s ++ matches b s
  | Star a => star_loop (matches a) (List.length (rest s)) s
  | Grp i a =>
      map (fun s' =>
             let n := (List.length (rest s) - List.length (rest s'))%nat in
             State (prev s') (rest s')
                   ((i, string_of_list_ascii (firstn n (rest s))) :: caps s'))
          (matches a s)
  | WordB =>
      if xorb (is_word_opt (prev s)) (is_word_opt (head (rest s)))
      then [s] else []
  end.

(** Derived forms. *)
Definition Plus (a : re) : re := Seq a (Star a).
Definition Opt (a : re) : re := Alt a Eps.

Fixpoint Rep (n : nat) (a : re) : re :=
  match n with
  | O => Eps
  | S n' => Seq a (Rep n' a)
  end.

(** [a{0,n}], greedy. *)
Fixpoint UpTo (n : nat) (a : re) : re :=
  match n with
  | O => Eps
  | S n' => Opt (Seq a (UpTo n' a))
  end.

(** [a{lo,hi}] and [a{lo,}] *)
Definition RepRange (lo hi : nat) (a : re) : re :=
  Seq (Rep lo a) (UpTo (hi - lo) a).
Definition RepMin (lo : nat) (a : re) : re := Seq (Rep lo a) (Star a).

Definition Is (c : ascii) : re := Chr (Ascii.eqb c).

(** A literal string. *)
Fixpoint Lit (s : string) : re :=
  match s with
  | EmptyString => Eps
  | String c s' => Seq (Is c) (Lit s')
  end.

(** A literal string under [re.I]. *)
Fixpoint LitI (s : string) : re :=
  match s with
  | EmptyString => Eps
  | String c s' =>
      Seq (Chr (fun x => Ascii.eqb (PyStr.lower_char x) (PyStr.lower_char c)))
          (LitI s')
  end.

(** [a1|a2|...] *)
Fixpoint Alts (l : list re) : re :=
  match l with
  | [] => Chr (fun _ => false)
  | [a] => a
  | a :: l' => Alt a (Alts l')
  end.

Definition digit : re := Chr PyStr.is_digit.
Definition space : re := Chr PyStr.is_space.

(** A match object: the matched text and the groups. *)
Record match_obj : Type := Match {
  group0 : string;
  groups : list (nat * string);
  after : list ascii
}.

(** [m.group(i)], [None] for a group that did not take part. *)
Fixpoint group_in (l : list (nat * string)) (i : nat) : option string :=
  match l with
  | [] => None
  | (j, t) :: l' => if Nat.eqb i j then Some t else group_in l' i
  end.

Definition group (m : match_obj) (i : nat) : option string :=
  group_in (groups m) i.

(** The match at one position. *)
Definition match_at (r : re) (before : option ascii) (text : list ascii)
  : option match_obj :=
  match matches r (State before text []) with
  | s' :: _ =>
      let n := (List.length text - List.length (rest s'))%nat in
      Some (Match (string_of_list_ascii (firstn n text)) (caps s') (rest s'))
  | [] => None
  end.

(** The leftmost match at or after a position. *)
Fixpoint search_from (r : re) (before : option ascii) (text : list ascii)
  : option match_obj :=
  match match_at r before text with
  | Some m => Some m
  | None =>
      match text with
      | [] => None
      | c :: text' => search_from r (Some c) text'
      end
  end.

(** [re.search(r, text)] *)
Definition search (r : re) (text : string) : option match_obj :=
  search_from r None (list_ascii_of_string text).

(** [re.findall(r, text)] for a pattern without groups that matches no
    empty string: the successive matches, not overlapping. *)
Fixpoint findall_from (r : re) (fuel : nat) (before : option ascii)
    (text : list ascii) : list string :=
  match fuel with
  | O => []
  | S fuel' =>
      match match_at r before text with
      | Some m =>
          group0 m
          :: findall_from r fuel'
               (Some (List.last (list_ascii_of_string (group0 m)) " "%char))
               (after m)
      | None =>
          match text with
          | [] => []
          | c :: text' => findall_from r fuel' (Some c) text'
          end
      end
  end.

Definition findall (r : re) (text : string) : list string :=
  findall_from r (S (PyStr.len text)) None (list_ascii_of_string text).

(** Auxiliary: the words of a pattern, without regard to what surrounds
    them ([\b] is the empty word), and the words its group [i] can
    hold. *)
Fixpoint lang (r : re) (w : list ascii) : Prop :=
  match r with
  | Eps => w = []
  | Chr p => exists c, w = [c] /\ p c = true
  | Seq a b => exists u v, w = u ++ v /\ lang a u /\ lang b v
  | Alt a b => lang a w \/ lang b w
  | Star a => exists ws, w = concat ws /\ Forall (lang a) ws
  | Grp _ a => lang a w
  | WordB => w = []
  end.

Fixpoint glang (r : re) (i : nat) (t : list ascii) : Prop :=
  match r with
  | Grp j a => (i = j /\ lang a t) \/ glang a i t
  | Seq a b | Alt a b => glang a i t \/ glang b i t
  | Star a => glang a i t
  | _ => False
  end.

(** Auxiliary: a step of the matcher consumed a word of the pattern and
    added groups that hold words of its groups. *)
Definition sound_step (r : re) (s s' : state) : Prop :=
  exists w new,
    rest s = w ++ rest s' /\ lang r w
    /\ caps s' = new ++ caps s
    /\ forall i t, (i, t) ∈ new -> glang r i (list_ascii_of_string t).

(** Auxiliary: the text of a match is a word of the pattern, and so are
    its groups. *)
Definition sound_match (r : re) (m : match_obj) : Prop :=
  lang r (list_ascii_of_string (group0 m))
  /\ forall i t, group m i = Some t -> glang r i (list_ascii_of_string t).

End Re.

(** *** scraping/core/utils.py *)
Module Utils.
Import Py.

Definition RECOGNIZED_UNITS : list string := ["%"; "USD"; "TND"; "EUR"].

Definition in_list (s : string) (l : list string) : bool :=
  existsb (String.eqb s) l.

(** [unit in ["%", "TND", "USD", "EUR"]] with [unit] possibly [None]. *)
Definition unit_recognized (unit : option string) : bool :=
  match unit with
  | Some u => in_list u RECOGNIZED_UNITS
  | None => false
  end.

(** Truth value of [unit]: [None] and the empty string are false. *)
Definition unit_truthy (unit : option string) : bool :=
  match unit with
  | Some u => negb (String.eqb u "")
  | None => false
  end.

(** Truth value of [year]: [None] and [0] are false. *)
Definition year_truthy (year : option Z) : bool :=
  match year with
  | Some y => negb (Z.eqb y 0)
  | None => false
  end.

Definition year_plausible (year : option Z) : bool :=
  match year with
  | Some y => negb (Z.eqb y 0) && Z.leb 1970 y && Z.leb y 2050
  | None => false
  end.

(** [value is not None and year and value == year] *)
Definition value_is_year (value : option Q) (year : option Z) : bool :=
  match value, year with
  | Some v, Some y => negb (Z.eqb y 0) && Qeq_bool v (inject_Z y)
  | _, _ => false
  end.

(** [score_confidence(matched, year, value, unit)], lines 81-97. *)
Definition score_confidence
    (matched : bool) (year : option Z) (value : option Q)
    (unit : option string) : Z :=
  let score := 0 in
  let score := if matched then score + 30 else score in
  let score := if year_plausible year then score + 25 else score in
  let score :=
    if value_is_year value year
    then score + (match unit with None => -50 | Some _ => -10 end)
    else score in
  let score :=
    match value with
    | Some v =>
        if negb (Qeq_bool v 0) then
          let score := score + 30 in
          if qlt 0 v && qlt v 1 && negb (unit_recognized unit)
          then score - 10
          else if qlt v 10 && negb (unit_truthy unit)
          then score - 15
          else score
        else score
    | None => score
    end in
  let score :=
    if unit_truthy unit
    then score + (if unit_recognized unit then 20 else 10)
    else score in
  Z.max (Z.min score 100) 0.

(** [is_valid_entry(ind)], lines 49-60. *)
Definition is_valid_entry (ind : record) : result bool :=
  v ← getitem ind "Value";
  if is_none v || py_eq v (PFloat 0) then Ok false
  else
    y ← getitem ind "Year";
    in_span ←
      (if is_none y then Ok false
       else match num_of y with
            | Some q => Ok (Qle_bool 1970 q && Qle_bool q 2050)
            | None => Raise TypeError
            end);
    if negb (in_span : bool) then Ok false
    else
      i ← getitem ind "Indicator";
      if negb (truthy i) then Ok false
      else
        raw ← getitem ind "RawText";
        raw ← as_str raw;
        if existsb (fun x => PyStr.contains x (PyStr.lower raw))
                   ["access denied"; "cookies required"]
        then Ok false
        else Ok (negb (py_eq v y)).

(** Auxiliary: a record whose fields [is_valid_entry] can read: the four
    keys are there, the year is a number or [None], the text a string. *)
Definition readable (ind : record) : Prop :=
  (exists v, ind !! "Value" = Some v)
  /\ (exists y, ind !! "Year" = Some y
                /\ (y = PNone \/ exists q, num_of y = Some q))
  /\ (exists i, ind !! "Indicator" = Some i)
  /\ (exists raw, ind !! "RawText" = Some (PStr raw)).

(** Auxiliary: a record that [remove_duplicates] can compare with
    another: indicator and text are strings, the value is a number, the
    year is there. *)
Definition comparable (r : record) : Prop :=
  (exists i, r !! "Indicator" = Some (PStr i))
  /\ (exists y, r !! "Year" = Some y)
  /\ (exists v q, r !! "Value" = Some v /\ num_of v = Some q)
  /\ (exists raw, r !! "RawText" = Some (PStr raw)).

Section TextRatio.
(** [SequenceMatcher(None, a, b).ratio()] *)
Variable text_ratio : string -> string -> Q.

(** The condition of lines 68-73: [existing] and [entry] are
    near-identical. *)
Definition is_duplicate (existing entry : record) : result bool :=
  i1 ← getitem existing "Indicator";
  i1 ← as_str i1;
  i2 ← getitem entry "Indicator";
  i2 ← as_str i2;
  if negb (String.eqb (PyStr.lower i1) (PyStr.lower i2)) then Ok false
  else
    y1 ← getitem existing "Year";
    y2 ← getitem entry "Year";
    if negb (py_eq y1 y2) then Ok false
    else
      v1 ← getitem existing "Value";
      v2 ← getitem entry "Value";
      match num_of v1, num_of v2 with
      | Some a, Some b =>
          if negb (qlt (Qabs (a - b)) (1 # 2)) then Ok false
          else
            t1 ← getitem existing "RawText";
            t2 ← getitem entry "RawText";
            match t1, t2 with
            | PStr a, PStr b => Ok (qlt (85 # 100) (text_ratio a b))
            | _, _ => Raise TypeError
            end
      | _, _ => Raise TypeError
      end.

(** The inner loop over [seen], which stops at the first duplicate. *)
Fixpoint find_duplicate (seen : list record) (entry : record) : result bool :=
  match seen with
  | [] => Ok false
  | existing :: seen' =>
      d ← is_duplicate existing entry;
      if d : bool then Ok true else find_duplicate seen' entry
  end.

(** The outer loop; [seen] and [unique] hold the same records. *)
Fixpoint dedup_loop (seen : list record) (entries : list record)
  : result (list record) :=
  match entries with
  | [] => Ok seen
  | entry :: rest =>
      is_dup ← find_duplicate seen entry;
      dedup_loop (if is_dup : bool then seen else seen ++ [entry]) rest
  end.

(** [remove_duplicates(entries)], lines 62-79. *)
Definition remove_duplicates (entries : list record) : result (list record) :=
  dedup_loop [] entries.

(** Auxiliary: every record of the list is compared with the ones before
    it only, and none of those is a duplicate of it. *)
Definition fresh_in_order (l : list record) : Prop :=
  forall l1 y l2, l = l1 ++ y :: l2 ->
    find_duplicate l1 y = Ok false.

End TextRatio.

End Utils.

(** *** scraping/core/extractor.py *)
Module Extractor.
Import Py.

(** First statement of [_alias_keys]: the canonical name under its
    second spelling. *)
Definition alias_canonical (rec : record) : record :=
  match rec !! "Canonical Name", rec !! "CanonicalIndicator" with
  | Some v, None => <["CanonicalIndicator" := v]> rec
  | _, _ => rec
  end.

(** [for k in keys: if k in rec and isinstance(rec[k], str): ... break] *)
Fixpoint first_str (rec : record) (keys : list string) : option string :=
  match keys with
  | [] => None
  | k :: keys' =>
      match rec !! k with
      | Some (PStr v) => Some v
      | _ => first_str rec keys'
      end
  end.

(** Second statement: the indicator from one of its legacy fields. *)
Definition alias_indicator (rec : record) : record :=
  match rec !! "Indicator" with
  | Some _ => rec
  | None =>
      match first_str rec ["Indicator Name"; "indicator"; "name"] with
      | Some v => <["Indicator" := PStr v]> rec
      | None => rec
      end
  end.

(** Third statement: the source URL from the field [URL]. *)
Definition alias_source_url (rec : record) : record :=
  match rec !! "SourceURL", rec !! "URL" with
  | None, Some (PStr v) => <["SourceURL" := PStr v]> rec
  | _, _ => rec
  end.

(** [_alias_keys(rec)], lines 48-59, on a copy of the record. *)
Definition _alias_keys (rec : record) : record :=
  alias_source_url (alias_indicator (alias_canonical rec)).

(** [_alias_list(items)] on a list of records. *)
Definition _alias_list (items : list record) : list record :=
  map _alias_keys items.

(** The tuple built by [make_key]. *)
Definition merge_key : Type := string * pyval * pyval * string * string.

(** [k1 == k2] on such tuples, which is what the dictionary compares. *)
Definition key_eqb (k1 k2 : merge_key) : bool :=
  let '(i1, d1, v1, u1, s1) := k1 in
  let '(i2, d2, v2, u2, s2) := k2 in
  String.eqb i1 i2 && py_eq d1 d2 && py_eq v1 v2
  && String.eqb u1 u2 && String.eqb s1 s2.

(** [make_key(r)], lines 330-337. *)
Definition make_key (r : record) : result merge_key :=
  indicator ← strip_lower
    (por (por (get r "CanonicalIndicator") (get r "Indicator")) (PStr ""));
  let date := por (get r "DateISO") (get r "Year") in
  let value := get r "Value" in
  unit ← strip_lower (por (get r "Unit") (PStr ""));
  source ← strip_lower
    (por (por (get r "SourceURL") (get r "Source")) (PStr ""));
  Ok (indicator, date, value, unit, source).

(** [merged_map[k] = v] on the insertion-ordered dictionary: a key that
    is present keeps its place (and its key object), a new key goes to the
    end. *)
Fixpoint dict_set (m : list (merge_key * record)) (k : merge_key) (v : record)
  : list (merge_key * record) :=
  match m with
  | [] => [(k, v)]
  | (k', v') :: m' =>
      if key_eqb k' k then (k', v) :: m' else (k', v') :: dict_set m' k v
  end.

(** [for item in items: merged_map[make_key(item)] = item] *)
Fixpoint insert_all (m : list (merge_key * record)) (items : list record)
  : result (list (merge_key * record)) :=
  match items with
  | [] => Ok m
  | item :: items' =>
      k ← make_key item;
      insert_all (dict_set m k item) items'
  end.

(** [merge_across_runs(existing, new_items)], lines 329-344. *)
Definition merge_across_runs (existing new_items : list record)
  : result (list record) :=
  merged_map ← insert_all [] existing;
  merged_map ← insert_all merged_map new_items;
  Ok (map snd merged_map).

(** Auxiliary notions on the dictionary, used to state what the merge
    returns. *)

(** [k in merged_map] *)
Definition present (k : merge_key) (m : list (merge_key * record)) : bool :=
  existsb (fun p => key_eqb (fst p) k) m.

(** [merged_map.get(k)] *)
Fixpoint lookup_key (m : list (merge_key * record)) (k : merge_key)
  : option record :=
  match m with
  | [] => None
  | (k', v) :: m' => if key_eqb k' k then Some v else lookup_key m' k
  end.

(** The keys of the items, computed in order; the first failure is the
    exception [insert_all] stops with. *)
Fixpoint keyed (items : list record) : result (list (merge_key * record)) :=
  match items with
  | [] => Ok []
  | item :: items' =>
      k ← make_key item;
      rest ← keyed items';
      Ok ((k, item) :: rest)
  end.

Definition set_all (m kl : list (merge_key * record))
  : list (merge_key * record) :=
  fold_left (fun m p => dict_set m (fst p) (snd p)) kl m.

(** The last record of [kl] stored under a key equal to [k]. *)
Fixpoint last_match (k : merge_key) (kl : list (merge_key * record))
  : option record :=
  match kl with
  | [] => None
  | (k', v) :: kl' =>
      match last_match k kl' with
      | Some y => Some y
      | None => if key_eqb k' k then Some v else None
      end
  end.

(** No two entries of the dictionary have equal keys. *)
Fixpoint distinct_keys (m : list (merge_key * record)) : Prop :=
  match m with
  | [] => True
  | (k, _) :: m' => present k m' = false /\ distinct_keys m'
  end.

(** The latest record of [items] whose key equals [k]. *)
Fixpoint last_with_key (k : merge_key) (items : list record) : option record :=
  match items with
  | [] => None
  | x :: rest =>
      match last_with_key k rest with
      | Some y => Some y
      | None =>
          match make_key x with
          | Ok kx => if key_eqb kx k then Some x else None
          | Raise _ => None
          end
      end
  end.

(** The stable key in the words of the specification: the value is
    compared after rounding with [rnd]; the other four components as the
    code compares them. *)
Definition spec_key_eqb (rnd : Q -> Q) (k1 k2 : merge_key) : bool :=
  let '(i1, d1, v1, u1, s1) := k1 in
  let '(i2, d2, v2, u2, s2) := k2 in
  String.eqb i1 i2 && py_eq d1 d2
  && match num_of v1, num_of v2 with
     | Some a, Some b => Qeq_bool (rnd a) (rnd b)
     | _, _ => py_eq v1 v2
     end
  && String.eqb u1 u2 && String.eqb s1 s2.

(** An entry's key is the key of the record it holds, up to [==]. *)
Definition keys_ok (m : list (merge_key * record)) : Prop :=
  forall k v, (k, v) ∈ m ->
    exists k', make_key v = Ok k' /\ key_eqb k k' = true.

(** [[r for r in normalized if is_valid_entry(r)]] *)
Fixpoint filter_valid (normalized : list record) : result (list record) :=
  match normalized with
  | [] => Ok []
  | r :: rest =>
      ok ← Utils.is_valid_entry r;
      rest' ← filter_valid rest;
      Ok (if ok : bool then r :: rest' else rest')
  end.

Section TextRatio.
Variable text_ratio : string -> string -> Q.

(** Lines 387-395 of [extract_structured_indicators]: the persisted table
    [saved] (the content of OUTPUT_JSON) and the records of this run give
    the table that is written back. *)
Definition merge_and_dedup (saved deduped_this_run : list record)
  : result (list record) :=
  let existing := _alias_list saved in
  merged ← merge_across_runs existing deduped_this_run;
  merged ← Utils.remove_duplicates text_ratio merged;
  Ok (_alias_list merged).

(** Lines 382-395: validation and de-duplication of the normalized
    records of this run, then the merge with the persisted table. *)
Definition persist_run (normalized saved : list record)
  : result (list record) :=
  filtered ← filter_valid normalized;
  deduped_this_run ← Utils.remove_duplicates text_ratio filtered;
  merge_and_dedup saved deduped_this_run.

End TextRatio.

End Extractor.

(** *** rapidfuzz (external): [fuzz.ratio] *)
Module Rapidfuzz.

(** Length of a longest common subsequence. *)
Fixpoint lcs_row (a : ascii) (t : list ascii) (prev : list nat)
    (diag left : nat) : list nat :=
  match t, prev with
  | b :: t', up :: prev' =>
      let cell :=
        if Ascii.eqb a b then S diag else Nat.max up left in
      cell :: lcs_row a t' prev' up cell
  | _, _ => []
  end.

Fixpoint lcs_rows (s : list ascii) (t : list ascii) (prev : list nat)
  : list nat :=
  match s with
  | [] => prev
  | a :: s' => lcs_rows s' t (lcs_row a t prev O O)
  end.

Definition lcs (s t : string) : nat :=
  let ls := list_ascii_of_string s in
  let lt := list_ascii_of_string t in
  List.last (lcs_rows ls lt (List.repeat O (List.length lt))) O.

(** [fuzz.ratio(s, t)]: the normalized Indel similarity, between 0 and
    100; two empty strings are equal and score 100. *)
Definition ratio (s t : string) : Q :=
  let total := (PyStr.len s + PyStr.len t)%nat in
  match total with
  | O => 100%Q
  | _ => (inject_Z (200 * Z.of_nat (lcs s t)) / inject_Z (Z.of_nat total))%Q
  end.

End Rapidfuzz.

(** *** scraping/canonical_indicators.py: the builder of the alias map *)
Module CanonicalIndicators.

(** One entry of [economic_indicator.json]; [None] is a missing key. *)
Record item : Type := Item {
  canonical_name : option string;
  aliases : option (list string)
}.

(** One value of [utils/canonical_indicators.json]. *)
Record entry : Type := Entry {
  canonical : option string;
  category : option string
}.

Definition normalize (text : string) : string :=
  PyStr.strip (PyStr.lower (PyStr.concat_map PyStr.nfkd_ascii text)).

Definition title_case_indicator (name : string) : string :=
  PyStr.join " " (map PyStr.capitalize (PyStr.split (PyStr.strip name))).

Definition CATEGORY_RULES : list (string * string) :=
  [ ("gdp", "National Accounts");
    ("gross domestic product", "National Accounts");
    ("gni", "National Accounts");
    ("national income", "National Accounts");
    ("economic output", "National Accounts");
    ("disposable income", "Households");
    ("household", "Households");
    (PyStr.latin1 "ménage", "Households");
    ("population", "Demographics");
    ("birth rate", "Demographics");
    ("death rate", "Demographics");
    ("life expectancy", "Demographics");
    ("age dependency", "Demographics");
    ("inflation", "Prices");
    ("cpi", "Prices");
    ("consumer price index", "Prices");
    ("price", "Prices");
    ("deflator", "Prices");
    ("unemployment", "Employment");
    ("labor force", "Employment");
    ("employment rate", "Employment");
    ("jobless", "Employment");
    ("savings", "Savings");
    (PyStr.latin1 "épargne", "Savings");
    ("capital", "Investment");
    ("formation", "Investment");
    ("gross fixed capital", "Investment");
    ("investment", "Investment");
    ("imports", "Trade");
    ("exports", "Trade");
    ("current account", "Trade");
    ("balance of trade", "Trade");
    ("net exports", "Trade");
    ("trade balance", "Trade");
    ("debt", "Finance");
    ("budget", "Finance");
    ("deficit", "Finance");
    ("public", "Finance");
    ("fiscal", "Finance");
    ("account balance", "Finance");
    ("government expenditure", "Finance");
    ("consumption", "Expenditure");
    ("household consumption", "Expenditure");
    ("ratio", "Other");
    ("rate", "Other");
    ("index", "Other") ].

Fixpoint first_rule (name : string) (rules : list (string * string))
  : string :=
  match rules with
  | [] => "Other"
  | (keyword, cat) :: rules' =>
      if PyStr.contains keyword name then cat else first_rule name rules'
  end.

Definition assign_category (canonical_name : string) : string :=
  first_rule (normalize canonical_name) CATEGORY_RULES.

(** The inner loop: [for alias in aliases + [canonical_raw]], first
    writer of a key wins. *)
Definition add_aliases (e : entry) (names : list string)
    (canonical_map : gmap string entry) : gmap string entry :=
  fold_left
    (fun m alias =>
       let key := normalize alias in
       match m !! key with
       | Some _ => m
       | None => <[key := e]> m
       end)
    names canonical_map.

(** The body of the script, from the loaded list to the map it saves. *)
Definition build (indicators : list item) : gmap string entry :=
  fold_left
    (fun m it =>
       let canonical_raw := PyStr.strip (default "" (canonical_name it)) in
       if String.eqb canonical_raw "" then m
       else
         let canonical := title_case_indicator canonical_raw in
         let e := Entry (Some canonical) (Some (assign_category canonical)) in
         add_aliases e (default [] (aliases it) ++ [canonical_raw]) m)
    indicators ∅.

End CanonicalIndicators.

(** *** scraping/core/taxonomy_utils.py *)
Module TaxonomyUtils.
Import CanonicalIndicators.

(** The files the module reads and writes.  [None] is a file that is
    missing or does not parse. *)
Record files : Type := Files {
  taxonomy_file : option (list item);          (* TAXONOMY_PATH *)
  alias_map_file : option (gmap string entry); (* ALIAS_MAP_PATH *)
  canon_script : bool                          (* CANON_SCRIPT exists *)
}.

Definition _load_list_or_empty (fs : files) : list item :=
  default [] (taxonomy_file fs).

Definition _save_singular (items : list item) (fs : files) : files :=
  Files (Some items) (alias_map_file fs) (canon_script fs).

Definition _load_alias_map (fs : files) : gmap string entry :=
  default ∅ (alias_map_file fs).

(** Runs the builder on the taxonomy file when the script is there; the
    builder fails, and leaves the map as it is, when the taxonomy file
    cannot be read. *)
Definition rebuild_canonical_map_if_possible (fs : files) : bool * files :=
  if canon_script fs then
    match taxonomy_file fs with
    | Some items =>
        (true, Files (taxonomy_file fs) (Some (build items)) true)
    | None => (false, fs)
    end
  else (false, fs).

Definition _norm (s : string) : string :=
  PyStr.filter_chars (fun c => PyStr.is_alnum c || PyStr.is_space c)
                     (PyStr.strip (PyStr.lower s)).

Definition cname_of (it : item) : string :=
  PyStr.strip (default "" (canonical_name it)).

(** The scan for the best fuzzy match, lines 90-98. *)
Definition best_match (ratio : string -> string -> Q) (key : string)
    (singular : list item) : option string * Q :=
  fold_left
    (fun (best : option string * Q) it =>
       let cname := cname_of it in
       if String.eqb cname "" then best
       else
         let score := ratio (_norm cname) key in
         if Py.qlt (snd best) score then (Some cname, score) else best)
    singular (None, (-1)%Q).

Fixpoint dedup_strings (l : list string) : list string :=
  match l with
  | [] => []
  | x :: l' =>
      if existsb (String.eqb x) l' then dedup_strings l'
      else x :: dedup_strings l'
  end.

(** The loop of lines 102-110 over the items: [None] when no item bears
    the best name, otherwise the updated list and whether it changed.
    [list(aliases | {raw})] is given in one of the orders it can have. *)
Fixpoint attach_alias (best_name raw : string) (singular : list item)
  : option (list item * bool) :=
  match singular with
  | [] => None
  | it :: rest =>
      if String.eqb (PyStr.lower (cname_of it)) (PyStr.lower best_name) then
        let al := default [] (aliases it) in
        if existsb (String.eqb raw) al then Some (singular, false)
        else
          Some (Item (canonical_name it) (Some (dedup_strings al ++ [raw]))
                  :: rest, true)
      else
        match attach_alias best_name raw rest with
        | Some (rest', changed) => Some (it :: rest', changed)
        | None => None
        end
  end.

(** [ensure_indicator_and_alias(alias)], lines 68-120.  [fuzz] is the
    imported [rapidfuzz.fuzz.ratio], or [None] when the import failed. *)
Definition ensure_indicator_and_alias
    (fuzz : option (string -> string -> Q)) (alias : string) (fs : files)
  : (string * bool) * files :=
  let raw := PyStr.strip alias in
  if String.eqb raw "" then (("", false), fs)
  else
    let alias_map := _load_alias_map fs in
    let key := _norm raw in
    match alias_map !! key with
    | Some e => ((default raw (canonical e), false), fs)
    | None =>
        let singular := _load_list_or_empty fs in
        let best :=
          match fuzz, singular with
          | Some ratio, _ :: _ => best_match ratio key singular
          | _, _ => (None, (-1)%Q)
          end in
        let create :=
          let new_canonical := PyStr.title raw in
          let fs1 :=
            _save_singular
              (singular ++ [Item (Some new_canonical) (Some [raw])]) fs in
          ((new_canonical, true),
           snd (rebuild_canonical_map_if_possible fs1)) in
        match best with
        | (Some best_name, best_score) =>
            if negb (String.eqb best_name "") && Qle_bool 88 best_score then
              match attach_alias best_name raw singular with
              | Some (singular', true) =>
                  ((best_name, true),
                   snd (rebuild_canonical_map_if_possible
                          (_save_singular singular' fs)))
              | Some (_, false) => ((best_name, false), fs)
              | None => create
              end
            else create
        | (None, _) => create
        end
    end.

End TaxonomyUtils.

(** *** vectorization/upsert_embeddings.py *)
Module UpsertEmbeddings.
Import Py.

Section External.
(** [hashlib.sha1(payload.encode("utf-8")).hexdigest()] *)
Variable sha1_hexdigest : string -> string.
(** [float.__str__] *)
Variable float_str : Q -> string.

(** [v.__str__()] *)
Definition py_str (v : pyval) : string :=
  match v with
  | PNone => "None"
  | PBool true => "True"
  | PBool false => "False"
  | PInt z => pretty z
  | PFloat q => float_str q
  | PStr s => s
  end.

Definition _pick_source_and_url (row : record) : string * option string :=
  let url := por (por (get row "SourceURL") (get row "URL")) (get row "url") in
  let source_display :=
    por (por (get row "Source") (get row "SourceName"))
        (por url (PStr "unknown")) in
  (py_str source_display, if truthy url then Some (py_str url) else None).

Definition _stable_key (row : record) : result string :=
  indicator ← strip_lower
    (por (por (get row "CanonicalIndicator") (get row "Indicator")) (PStr ""));
  let date :=
    PyStr.lower (PyStr.strip
      (py_str (por (por (get row "DateISO") (get row "Year")) (PStr "")))) in
  let value :=
    if is_none (get row "Value") then "" else py_str (get row "Value") in
  unit ← strip_lower (por (get row "Unit") (PStr ""));
  src_url ← strip_lower
    (por (por (por (get row "SourceURL") (get row "URL")) (get row "Source"))
         (PStr ""));
  let payload :=
    indicator +:+ "|" +:+ date +:+ "|" +:+ value +:+ "|" +:+ unit
    +:+ "|" +:+ src_url in
  Ok (sha1_hexdigest payload).

Definition opt_pyval (o : option string) : pyval :=
  match o with Some s => PStr s | None => PNone end.

Definition _row_to_text_meta (row : record) : result (string * record) :=
  let indicator :=
    por (por (get row "CanonicalIndicator") (get row "Indicator")) (PStr "") in
  let date_iso := get row "DateISO" in
  let year := get row "Year" in
  let when := por date_iso year in
  let value := get row "Value" in
  let unit := get row "Unit" in
  let '(source_display, url) := _pick_source_and_url row in
  let confidence := por (get row "Confidence") (get row "confidence") in
  let raw := por (por (get row "RawText") (get row "raw_text")) (PStr "") in
  let parts := ["Indicator: " +:+ py_str indicator] in
  let parts :=
    if is_none when then parts else parts ++ ["Date: " +:+ py_str when] in
  parts ←
    (if is_none value then Ok parts
     else if truthy unit then
       match unit with
       | PStr u => Ok (parts ++ ["Value: " +:+ py_str value +:+ " " +:+ u])
       | _ => Raise TypeError
       end
     else Ok (parts ++ ["Value: " +:+ py_str value]));
  let parts :=
    if String.eqb source_display "" then parts
    else parts ++ ["Source: " +:+ source_display] in
  let parts :=
    match url with
    | Some u => if String.eqb u "" then parts else parts ++ ["URL: " +:+ u]
    | None => parts
    end in
  let parts :=
    if truthy raw then parts ++ ["Raw: " +:+ py_str raw] else parts in
  let text := PyStr.join " | " parts in
  let metadata : record :=
    <["indicator" := indicator]>
    (<["year" := year]>
    (<["value" := value]>
    (<["unit" := unit]>
    (<["source" := PStr source_display]>
    (<["url" := opt_pyval url]>
    (<["confidence" := confidence]>
    (<["raw_text" := raw]>
    (<["DateISO" := date_iso]> ∅)))))))) in
  Ok (text, metadata).

(** What persists between runs: the seen-key state file and the
    documents of the semantic index. *)
Record store : Type := Store {
  seen : gset string;
  index : list (string * record)
}.

(** The loop of lines 169-183.  [new_pairs] and [newly_seen] grow
    together, so they are kept as one list of (key, pair). *)
Fixpoint collect_new (seen : gset string) (rows : list record)
  : result (list (string * (string * record))) :=
  match rows with
  | [] => Ok []
  | r :: rows' =>
      key ← _stable_key r;
      if decide (key ∈ seen) then collect_new seen rows'
      else if negb (truthy (por (get r "CanonicalIndicator")
                                (get r "Indicator")))
      then collect_new seen rows'
      else if is_none (get r "Value") && is_none (get r "Year")
              && is_none (get r "DateISO")
      then collect_new seen rows'
      else
        pair ← _row_to_text_meta r;
        rest ← collect_new seen rows';
        Ok ((key, pair) :: rest)
  end.

(** [upsert_latest(max_new)] on the rows of the observation table. *)
Definition upsert_latest (rows : list record) (max_new : option Z)
    (st : store) : result (Z * store) :=
  match rows with
  | [] => Ok (0, st)
  | _ =>
      new ← collect_new (seen st) rows;
      match new with
      | [] => Ok (0, st)
      | _ =>
          let new :=
            match max_new with
            | Some n => if Z.ltb 0 n then take (Z.to_nat n) new else new
            | None => new
            end in
          Ok (Z.of_nat (length new),
              Store (seen st ∪ list_to_set (map fst new))
                    (index st ++ map snd new))
      end
  end.

End External.

End UpsertEmbeddings.

(** *** scraping/utils/indicator_matcher.py *)
Module IndicatorMatcher.
Import Re.

Definition sep_char (c : ascii) : bool :=
  PyStr.is_space c || Ascii.eqb c "." || Ascii.eqb c ",".

Definition dot_or_comma (c : ascii) : bool :=
  Ascii.eqb c "." || Ascii.eqb c ",".

(** [%|percent|tnd|usd|eur|dinar[s]?|euros?|dollars?|million[s]?|
     billion[s]?|thousand[s]?|milliers|milliard[s]?] *)
Definition UNIT_WORDS : re :=
  Alts [ Lit "%"; Lit "percent"; Lit "tnd"; Lit "usd"; Lit "eur";
         Seq (Lit "dinar") (Opt (Is "s"));
         Seq (Lit "euro") (Opt (Is "s"));
         Seq (Lit "dollar") (Opt (Is "s"));
         Seq (Lit "million") (Opt (Is "s"));
         Seq (Lit "billion") (Opt (Is "s"));
         Seq (Lit "thousand") (Opt (Is "s"));
         Lit "milliers";
         Seq (Lit "milliard") (Opt (Is "s")) ].

(** [\d{1,3}(?:[\s.,]\d{3})+|\d+(?:[.,]\d+)?] *)
Definition NUMBER : re :=
  Alt (Seq (RepRange 1 3 digit) (Plus (Seq (Chr sep_char) (Rep 3 digit))))
      (Seq (Plus digit) (Opt (Seq (Chr dot_or_comma) (Plus digit)))).

(** The pattern of line 253: [(NUMBER)(\s?(UNIT_WORDS))?] *)
Definition VALUE_PATTERN : re :=
  Seq (Grp 1 NUMBER) (Opt (Grp 2 (Seq (Opt space) (Grp 3 UNIT_WORDS)))).

(** The pattern of line 268:
    [\b(as of|since|in|year|from|to|during|forecast|projected|between|by)\b] *)
Definition TEMPORAL_PATTERN : re :=
  Seq WordB
    (Seq (Grp 1 (Alts [ Lit "as of"; Lit "since"; Lit "in"; Lit "year";
                        Lit "from"; Lit "to"; Lit "during"; Lit "forecast";
                        Lit "projected"; Lit "between"; Lit "by" ]))
         WordB).

Fixpoint read_digits (l : list ascii) : list ascii * list ascii :=
  match l with
  | c :: l' =>
      if PyStr.is_digit c
      then let '(ds, r) := read_digits l' in (c :: ds, r)
      else ([], l)
  | [] => ([], [])
  end.

Definition digits_to_Z (ds : list ascii) : Z :=
  fold_left (fun acc c => 10 * acc + (Z.of_nat (PyStr.code c) - 48)) ds 0.

(** [float(raw)] for a string of digits, points and white space, which is
    all group 1 can hold after the replacements: [d+], [d+.d*] or [.d+];
    anything else is a [ValueError] ([None]). *)
Definition parse_float (raw : string) : option Q :=
  let '(ip, r1) := read_digits (list_ascii_of_string raw) in
  let '(fp, r2) :=
    match r1 with
    | c :: r1' => if Ascii.eqb c "." then read_digits r1' else ([], r1)
    | [] => ([], [])
    end in
  match r2, ip, fp with
  | _ :: _, _, _ => None
  | [], [], [] => None
  | [], _, _ =>
      let scale := 10 ^ Z.of_nat (List.length fp) in
      Some (Qred (Qmake (digits_to_Z ip * scale + digits_to_Z fp)
                        (Z.to_pos scale)))
  end.

(** The text as line 252 prepares it.  U+202F is outside Latin-1, so the
    first replacement has nothing to replace; replacing the one character
    U+00A0 by a space is a map over the characters. *)
Definition nbsp_to_space (c : ascii) : ascii :=
  if Nat.eqb (PyStr.code c) 160 then " "%char else c.

Definition prepare (text : string) : string :=
  PyStr.map_chars nbsp_to_space (PyStr.lower text).

(** Lines 258-265: the value and the raw unit of a match; [None] when
    the token is not a number. *)
Definition token_of_match (m : match_obj) : option (Q * option string) :=
  let raw := default "" (group m 1) in
  let unit := PyStr.lower (PyStr.strip (default "" (group m 3))) in
  let unit := if String.eqb unit "" then None else Some unit in
  let raw := PyStr.replace "," "." (PyStr.replace " " "" raw) in
  match parse_float raw with
  | Some val => Some (val, unit)
  | None => None
  end.

(** Lines 254-265: the first numeric token of the prepared text. *)
Definition first_numeric_token (t : string) : option (Q * option string) :=
  search VALUE_PATTERN t ≫= token_of_match.

Definition has_temporal_preposition (t : string) : bool :=
  match search TEMPORAL_PATTERN t with Some _ => true | None => false end.

(** Lines 271-288: the unit made coarse, the value scaled. *)
Definition normalize_unit (val : Q) (unit : string) : Q * string :=
  if String.eqb unit "percent" || String.eqb unit "%" then (val, "%")
  else if PyStr.contains "dinar" unit || String.eqb unit "tnd" then (val, "TND")
  else if String.eqb unit "usd" || PyStr.contains "dollar" unit
       then (val, "USD")
  else if String.eqb unit "eur" || PyStr.contains "euro" unit then (val, "EUR")
  else if PyStr.contains "billion" unit || PyStr.contains "milliard" unit
          || PyStr.contains "milliards" unit
       then (Qred (val * 1000000000), "USD")
  else if PyStr.contains "million" unit || PyStr.contains "millions" unit
       then (Qred (val * 1000000), "USD")
  else if PyStr.contains "thousand" unit || PyStr.contains "milliers" unit
       then (Qred (val * 1000), "USD")
  else (val, unit).

(** [extract_value(text)], lines 246-290. *)
Definition extract_value (text : string) : option Q * option string :=
  let t := prepare text in
  match first_numeric_token t with
  | None => (None, None)
  | Some (val, unit) =>
      if Qle_bool 1900 val && Qle_bool val 2099
         && match unit with None => true | Some _ => false end
         && negb (has_temporal_preposition t)
      then (None, None)
      else
        match unit with
        | Some u => let '(v, u') := normalize_unit val u in (Some v, Some u')
        | None => (Some val, None)
        end
  end.

(** The pattern of [extract_year]:
    [\b(19[7-9]\d|20[0-3]\d|203[0-5])\b] *)
Definition YEAR_PATTERN : re :=
  Seq WordB
    (Seq (Grp 1 (Alts
       [ Seq (Lit "19") (Seq (Chr (PyStr.in_range 55 57)) digit);
         Seq (Lit "20") (Seq (Chr (PyStr.in_range 48 51)) digit);
         Seq (Lit "203") (Chr (PyStr.in_range 48 53)) ]))
       WordB).

(** [extract_year(text)], lines 240-243: [int(m.group())]. *)
Definition extract_year (text : string) : option Z :=
  match search YEAR_PATTERN text with
  | Some m => Some (digits_to_Z (list_ascii_of_string (group0 m)))
  | None => None
  end.

End IndicatorMatcher.

(** *** scraping/core/extractor.py: the year of a record *)
Module ExtractorYear.
Import Py Re.

(** [\b(19[7-9]\d|20[0-4]\d|2025)\b] *)
Definition DATE_YEAR : re :=
  Seq WordB
    (Seq (Grp 1 (Alts
       [ Seq (Lit "19") (Seq (Chr (PyStr.in_range 55 57)) digit);
         Seq (Lit "20") (Seq (Chr (PyStr.in_range 48 52)) digit);
         Lit "2025" ]))
       WordB).

(** The loop over the date keys, lines 95-103: the first key whose value
    is a string with a year in it decides. *)
Fixpoint year_of_dates (rec : record) (keys : list string) : option Z :=
  match keys with
  | [] => None
  | key :: keys' =>
      match get rec key with
      | PStr val =>
          match search DATE_YEAR val with
          | Some m =>
              match group m 1 with
              | Some g =>
                  Some (IndicatorMatcher.digits_to_Z (list_ascii_of_string g))
              | None => year_of_dates rec keys'
              end
          | None => year_of_dates rec keys'
          end
      | _ => year_of_dates rec keys'
      end
  end.

(** Lines 105-109: [int(y) if y is not None and str(y).isdigit() else
    None].  The text of a float has a point, an exponent or letters in
    it; a string of digits with a superscript digit makes [int] raise,
    which is caught. *)
Definition year_of_field (y : pyval) : option Z :=
  match y with
  | PInt z => if Z.leb 0 z then Some z else None
  | PStr s =>
      if negb (String.eqb s "") && PyStr.all_chars PyStr.is_digit s
      then Some (IndicatorMatcher.digits_to_Z (list_ascii_of_string s))
      else None
  | _ => None
  end.

(** [_coerce_year(rec)], lines 92-109. *)
Definition _coerce_year (rec : record) : option Z :=
  match year_of_dates rec ["DateISO"; "date_iso"; "date"; "Date"] with
  | Some y => Some y
  | None => year_of_field (get rec "Year")
  end.

End ExtractorYear.

(** *** urllib.parse (standard library): [urlparse]

    The program parses every URL with the standard library.  What holds
    for every parser is stated below for an arbitrary one; the examples are
    computed with this model of the split of CPython 3.11, for the three
    components the program reads.  On Latin-1 text the NFKC check of the
    network location never fails.  A network location with both square
    brackets is taken as it is: the validation of the host between them
    is not modelled. *)
Module UrlLib.
Import Py.

Definition scheme_char (c : ascii) : bool :=
  PyStr.is_ascii_upper c || PyStr.is_ascii_lower c || PyStr.is_digit c
  || Ascii.eqb c "+" || Ascii.eqb c "-" || Ascii.eqb c ".".

Definition uses_params : list string :=
  [ ""; "ftp"; "hdl"; "prospero"; "http"; "imap"; "https"; "shttp"; "rtsp";
    "rtspu"; "sip"; "sips"; "mms"; "sftp"; "tel" ].

Definition is_unsafe (c : ascii) : bool :=
  Ascii.eqb c "009" || Ascii.eqb c "010" || Ascii.eqb c "013".

(** The C0 control characters and the space, stripped on the left. *)
Definition is_c0_or_space (c : ascii) : bool := Nat.leb (PyStr.code c) 32.

Fixpoint lstrip_c0 (s : string) : string :=
  match s with
  | EmptyString => EmptyString
  | String c s' => if is_c0_or_space c then lstrip_c0 s' else s
  end.

(** The scheme and the rest of the URL. *)
Definition split_scheme (url : string) : string * string :=
  let '(before, from_colon) := PyStr.break_at (Ascii.eqb ":") url in
  match before, from_colon with
  | String c0 _, String _ after_colon =>
      if (PyStr.is_ascii_upper c0 || PyStr.is_ascii_lower c0)
         && PyStr.all_chars scheme_char before
      then (PyStr.lower before, after_colon)
      else (EmptyString, url)
  | _, _ => (EmptyString, url)
  end.

Definition netloc_delim (c : ascii) : bool :=
  Ascii.eqb c "/" || Ascii.eqb c "?" || Ascii.eqb c "#".

(** [_splitparams]: the parameters of the last path segment are cut. *)
Definition split_params (url : string) : string :=
  if PyStr.has_char "/" url then
    (* the text from the last "/" on, and what is before it *)
    let '(rseg, rhead) :=
      PyStr.break_at (Ascii.eqb "/") (PyStr.rev url) in
    match rhead with
    | String slash rhead' =>
        let seg := String slash (PyStr.rev rseg) in
        let head := PyStr.rev rhead' in
        head +:+ fst (PyStr.break_at (Ascii.eqb ";") seg)
    | EmptyString => url
    end
  else fst (PyStr.break_at (Ascii.eqb ";") url).

Record parsed : Type := Parsed {
  scheme : string;
  netloc : string;
  path : string
}.

(** [urlparse(url)]; the only failure is the "Invalid IPv6 URL" of a
    network location with one square bracket and not the other. *)
Definition urlparse (url : string) : result parsed :=
  let url := lstrip_c0 url in
  let url := PyStr.filter_chars (fun c => negb (is_unsafe c)) url in
  let '(scheme, url) := split_scheme url in
  let split :=
    if PyStr.startswith url "//" then
      let '(netloc, url) := PyStr.break_at netloc_delim (PyStr.drop 2 url) in
      if xorb (PyStr.has_char "[" netloc) (PyStr.has_char "]" netloc)
      then Raise ValueError
      else Ok (netloc, url)
    else Ok (EmptyString, url) in
  match split with
  | Raise e => Raise e
  | Ok (netloc, url) =>
      let url := fst (PyStr.break_at (Ascii.eqb "#") url) in
      let url := fst (PyStr.break_at (Ascii.eqb "?") url) in
      let url :=
        if existsb (String.eqb scheme) uses_params
           && PyStr.has_char ";" url
        then split_params url else url in
      Ok (Parsed scheme netloc url)
  end.

End UrlLib.

(** *** agentic/tools/url_pick.py *)
Module UrlPick.
Import Py Re.

Definition TRUSTED_DOMAINS : list string :=
  [ "ins.tn"; "bct.gov.tn"; "imf.org"; "data.imf.org"; "worldbank.org";
    "documents.worldbank.org"; "databank.worldbank.org"; "oecd.org";
    "afdb.org" ].

Definition AGGREGATOR_DOMAINS : list string :=
  [ "tradingeconomics.com"; "ceicdata.com"; "macrotrends.net";
    "statista.com"; "countryeconomy.com"; "cbrates.com"; "knoema.com";
    "focus-economics.com" ].

Definition BAD_PATH_FRAGMENTS : list string :=
  [ "/actualites"; "/bct/siteprod/actualites.jsp";
    "/regular.aspx?key=61545865"; "/news"; "/press-release";
    "/press-releases" ].

(** The hint "chiffre d'affaires" with U+2019 for the apostrophe is left
    out: no Latin-1 text contains it. *)
Definition GOOD_PATH_HINTS : list string :=
  [ "stat"; "statistique"; "statistics"; "publication"; "bulletin";
    "communique"; PyStr.latin1 "communiqué"; "press"; "rapport"; "monthly";
    "mensuel"; "pdf"; "xlsx"; "xls"; "csv"; "indice"; "index"; "cpi"; "ppi";
    "inflation"; "rate"; "interest"; "policy"; "m2"; "reserve"; "production";
    "unemployment"; "commerce-de-detail"; PyStr.latin1 "commerce-de-détail";
    "commerce de detail"; PyStr.latin1 "commerce de détail";
    "chiffre d'affaires"; "dataset"; "table"; "figure" ].

Definition NEGATIVE_KWS : list string :=
  [ PyStr.latin1 "commerce extérieur"; "commerce exterieur";
    "retail banking"; PyStr.latin1 "banque de détail"; "banking sector" ].

(** Without the trigger that has U+2019 for the apostrophe. *)
Definition _RETAIL_TRIGGERS : list string :=
  [ "ica"; "retail"; "commerce de detail"; PyStr.latin1 "commerce de détail";
    "chiffre d'affaires" ].

Definition strip_www (host : string) : string :=
  if PyStr.startswith host "www." then PyStr.drop 4 host else host.

Definition collapse_slashes_step (c : ascii) (acc : string) : string :=
  match acc with
  | String d _ =>
      if Ascii.eqb c "/" && Ascii.eqb d "/" then acc else String c acc
  | EmptyString => String c acc
  end.

(** [re.sub(r"/+", "/", path)] *)
Fixpoint collapse_slashes (s : string) : string :=
  match s with
  | EmptyString => EmptyString
  | String c s' => collapse_slashes_step c (collapse_slashes s')
  end.

Section Parse.

(** [urllib.parse.urlparse]: the components of a URL, or the exception
    it raises. *)
Variable urlparse : string -> result UrlLib.parsed.

(** [_normalize_url(u)], lines 82-89; the parse is not guarded. *)
Definition _normalize_url (u : string) : result string :=
  p ← urlparse u;
  let netloc := strip_www (PyStr.lower (UrlLib.netloc p)) in
  let path := PyStr.rstrip_char "/" (collapse_slashes (UrlLib.path p)) in
  Ok ("https://" +:+ netloc +:+ path).

(** [_domain_of(u)], lines 93-101; any exception gives [""]. *)
Definition _domain_of (u : string) : string :=
  match urlparse
          (if PyStr.startswith u "http" then u else "https://" +:+ u) with
  | Ok p => strip_www (PyStr.lower (UrlLib.netloc p))
  | Raise _ => ""
  end.

Definition _is_trusted (u : string) : bool :=
  existsb (PyStr.endswith (_domain_of u)) TRUSTED_DOMAINS.

Definition _is_official (u : string) : bool :=
  let d := _domain_of u in
  PyStr.endswith d "ins.tn" || PyStr.endswith d "bct.gov.tn".

Definition _is_aggregator (u : string) : bool :=
  existsb (PyStr.endswith (_domain_of u)) AGGREGATOR_DOMAINS.

Definition _is_probably_dead (u : string) : bool :=
  let lu := PyStr.lower u in
  existsb (fun b => PyStr.contains b lu) BAD_PATH_FRAGMENTS.

Definition _has_any (s : string) (terms : list string) : bool :=
  let s := PyStr.lower s in
  existsb (fun t => PyStr.contains t s) terms.

Definition _looks_like_ica (question : string) : bool :=
  let q := PyStr.lower question in
  existsb (fun t => PyStr.contains t q) _RETAIL_TRIGGERS.

Definition dash_or_space (c : ascii) : bool :=
  Ascii.eqb c "-" || PyStr.is_space c.

(** [\b(202[3-5]|q[1-4]|2024|2025|monthly|mensuel|yoy|
       year[-\s]on[-\s]year)\b], with [re.I] *)
Definition _RECENCY_URL : re :=
  Seq WordB
    (Seq (Grp 1 (Alts
       [ Seq (Lit "202") (Chr (PyStr.in_range 51 53));
         Seq (LitI "q") (Chr (PyStr.in_range 49 52));
         Lit "2024"; Lit "2025"; LitI "monthly"; LitI "mensuel"; LitI "yoy";
         Seq (LitI "year")
           (Seq (Chr dash_or_space)
              (Seq (LitI "on") (Seq (Chr dash_or_space) (LitI "year")))) ]))
       WordB).

Definition dot_or_comma (c : ascii) : bool :=
  Ascii.eqb c "." || Ascii.eqb c ",".

(** [\b\d{3,}(?:[.,]\d{3})+\b] *)
Definition TABLE_NUMBER : re :=
  Seq WordB
    (Seq (RepMin 3 digit)
       (Seq (Plus (Seq (Chr dot_or_comma) (Rep 3 digit))) WordB)).

(** [/(20\d{2}|19\d{2})\b] *)
Definition YEAR_IN_PATH : re :=
  Seq (Is "/")
    (Seq (Grp 1 (Alt (Seq (Lit "20") (Rep 2 digit))
                     (Seq (Lit "19") (Rep 2 digit))))
         WordB).

(** The class [[a-zA-ZÀ-ÿ]]. *)
Definition token_char (c : ascii) : bool :=
  PyStr.is_ascii_lower c || PyStr.is_ascii_upper c || PyStr.in_range 192 255 c.

(** [[a-zA-ZÀ-ÿ]{4,}] *)
Definition TOKEN : re := RepMin 4 (Chr token_char).

Definition found (r : re) (s : string) : bool :=
  match search r s with Some _ => true | None => false end.

(** [int(ym.group(1))] on four digits. *)
Definition year_in_path (u : string) : option Z :=
  match search YEAR_IN_PATH u with
  | Some m =>
      Some (IndicatorMatcher.digits_to_Z
              (list_ascii_of_string (default "" (group m 1))))
  | None => None
  end.

(** [set(re.findall(...))]: the distinct tokens. *)
Definition query_tokens (ql : string) : list string :=
  TaxonomyUtils.dedup_strings (findall TOKEN ql).

Definition STRUCTURED_EXTENSIONS : list string :=
  [ ".pdf"; ".xlsx"; ".xls"; ".csv"; ".json" ].

(** Without the phrase that has U+2019 for the apostrophe. *)
Definition ICA_PHRASES : list string :=
  [ "commerce-de-detail"; PyStr.latin1 "commerce-de-détail";
    "commerce de detail"; PyStr.latin1 "commerce de détail";
    "chiffre d'affaires"; "ica" ].

(** [_score(url, snippet, question, allow_discovery)], lines 334-394. *)
Definition _score (url snippet question : string) (allow_discovery : bool)
  : Q :=
  let u := PyStr.lower url in
  let sn := PyStr.lower snippet in
  let ql := PyStr.lower question in
  let s := 0%Q in
  let s := if negb allow_discovery && _is_official u then (s + 4)%Q else s in
  let s := if _is_trusted u then (s + 1)%Q else s in
  let s :=
    if existsb (fun h => PyStr.contains h u) GOOD_PATH_HINTS
    then (s + 2)%Q else s in
  let s :=
    if found _RECENCY_URL u || found _RECENCY_URL sn
    then (s + (12 # 10))%Q else s in
  let s := if PyStr.contains "%" sn then (s + (35 # 100))%Q else s in
  let s := if found TABLE_NUMBER sn then (s + (6 # 10))%Q else s in
  let s :=
    match year_in_path u with
    | Some yr =>
        if Z.leb 2023 yr then (s + (12 # 10))%Q
        else if Z.leb yr 2018 then (s - 1)%Q
        else s
    | None => s
    end in
  let s :=
    fold_left
      (fun s w =>
         if PyStr.contains w sn || PyStr.contains w u
         then (s + (3 # 100))%Q else s)
      (query_tokens ql) s in
  let s :=
    if existsb (PyStr.endswith u) STRUCTURED_EXTENSIONS
    then (s + (9 # 10))%Q else s in
  let s :=
    if _is_aggregator u
    then (s - (if negb allow_discovery then 3 else 1))%Q else s in
  let s := if _is_probably_dead u then (s - 5)%Q else s in
  let s :=
    if _looks_like_ica question && String.eqb (_domain_of u) "ins.tn"
       && _has_any u ICA_PHRASES
    then (s + (15 # 10))%Q else s in
  s.

(** The summands of [_score], named one by one: the boost of an official
    host, the boost of a trusted host, what the texts earn, the penalty of
    an aggregator, the bonus of a retail question. *)
Definition official_boost (allow_discovery : bool) (u : string) : Q :=
  if negb allow_discovery && _is_official u then 4 else 0.

Definition trust_boost (u : string) : Q :=
  if _is_trusted u then 1 else 0.

Definition year_adjustment (u : string) : Q :=
  match year_in_path u with
  | Some yr =>
      if Z.leb 2023 yr then 12 # 10
      else if Z.leb yr 2018 then - (1) else 0
  | None => 0
  end.

Definition overlap_bonus (ql sn u : string) : Q :=
  fold_left
    (fun s w =>
       if PyStr.contains w sn || PyStr.contains w u
       then (s + (3 # 100))%Q else s)
    (query_tokens ql) 0%Q.

Definition text_score (url snippet question : string) : Q :=
  let u := PyStr.lower url in
  let sn := PyStr.lower snippet in
  let ql := PyStr.lower question in
  ((if existsb (fun h => PyStr.contains h u) GOOD_PATH_HINTS then 2 else 0)
   + (if found _RECENCY_URL u || found _RECENCY_URL sn then 12 # 10 else 0)
   + (if PyStr.contains "%" sn then 35 # 100 else 0)
   + (if found TABLE_NUMBER sn then 6 # 10 else 0)
   + year_adjustment u
   + overlap_bonus ql sn u
   + (if existsb (PyStr.endswith u) STRUCTURED_EXTENSIONS then 9 # 10 else 0)
   - (if _is_probably_dead u then 5 else 0))%Q.

Definition aggregator_penalty (allow_discovery : bool) (u : string) : Q :=
  if _is_aggregator u then (if negb allow_discovery then 3 else 1) else 0.

Definition ica_bonus (question u : string) : Q :=
  if _looks_like_ica question && String.eqb (_domain_of u) "ins.tn"
     && _has_any u ICA_PHRASES
  then 15 # 10 else 0.

(** [l[:n]] for a Python integer [n]: a negative bound counts from the
    end. *)
Definition slice_to {A : Type} (n : Z) (l : list A) : list A :=
  if (0 <=? n)%Z then take (Z.to_nat n) l
  else take (length l - Z.to_nat (- n)) l.

(** The loop that keeps the first occurrence of each string, in order. *)
Fixpoint uniq_from (seen : gset string) (l : list string) : list string :=
  match l with
  | [] => []
  | x :: l' =>
      if decide (x ∈ seen) then uniq_from seen l'
      else x :: uniq_from ({[ x ]} ∪ seen) l'
  end.

(** A [for] loop whose body can raise. *)
Fixpoint for_each {A B : Type} (body : A -> B -> result A) (l : list B)
    (a : A) : result A :=
  match l with
  | [] => Ok a
  | x :: l' => a' ← body a x; for_each body l' a'
  end.

Definition e_or_e_acute (c : ascii) : bool :=
  let n := PyStr.code (PyStr.lower_char c) in
  Nat.eqb n 101 || Nat.eqb n 233.

(** [\b(ica|retail|commerce\s+de\s+d[ée]tail|chiffre\s+d['’]?affaires)\b]
    with [re.I]; of the two apostrophes the Latin-1 one is there. *)
Definition RETAIL_WORDS : re :=
  Seq WordB
    (Seq (Grp 1 (Alts
       [ LitI "ica"; LitI "retail";
         Seq (LitI "commerce")
           (Seq (Plus space)
              (Seq (LitI "de")
                 (Seq (Plus space)
                    (Seq (LitI "d") (Seq (Chr e_or_e_acute) (LitI "tail"))))));
         Seq (LitI "chiffre")
           (Seq (Plus space)
              (Seq (LitI "d") (Seq (Opt (Is "'")) (LitI "affaires")))) ]))
       WordB).

Definition OFFICIAL_SITES : list string :=
  [ "ins.tn"; "bct.gov.tn"; "data.imf.org" ].

(** [_heuristic_queries(question, allow_broad)], lines 209-249. *)
Definition _heuristic_queries (question : string) (allow_broad : bool)
  : list string :=
  let q := PyStr.lower question in
  let has t := PyStr.contains t q in
  let bits : list string := [] in
  let bits :=
    if found RETAIL_WORDS q
    then bits ++ [ "retail sales index";
                   PyStr.latin1 "indice du commerce de détail";
                   "indice du chiffre d'affaires" ]
    else bits in
  let bits :=
    if (has "policy" && has "rate") || has "taux directeur"
       || has "monetary policy"
    then bits ++ [ "policy interest rate"; "taux directeur";
                   "monetary policy rate" ]
    else bits in
  let bits :=
    if has "core inflation" || has "sous-jacente"
    then bits ++ [ "core inflation"; "inflation sous-jacente"; "core cpi" ]
    else bits in
  let bits :=
    if has "inflation" && match bits with [] => true | _ => false end
    then bits ++ [ "inflation"; "cpi"; "indice des prix" ]
    else bits in
  let bits :=
    if has "ppi" || has "producer price"
    then bits ++ [ "producer price index"; "ppi";
                   PyStr.latin1 "indice des prix à la production" ]
    else bits in
  let bits :=
    if has "m2" || has "money supply"
    then bits ++ [ "M2 money supply"; PyStr.latin1 "agrégats monétaires M2" ]
    else bits in
  let bits :=
    if has "reserves" || has "devises"
    then bits ++ [ "foreign exchange reserves";
                   PyStr.latin1 "réserves en devises" ]
    else bits in
  let bits :=
    if has "industrial" || has "ipi"
    then bits ++ [ "industrial production index";
                   "indice de production industrielle" ]
    else bits in
  let bits :=
    if has "unemployment" || has (PyStr.latin1 "chômage")
    then bits ++ [ "unemployment rate"; PyStr.latin1 "taux de chômage" ]
    else bits in
  let bits := match bits with [] => [question] | _ => bits end in
  concat
    (map
       (fun kb =>
          let base := kb +:+ " Tunisia" in
          (if negb allow_broad
           then map (fun d => base +:+ " site:" +:+ d) OFFICIAL_SITES
           else [base])
          ++ [ base +:+ " YoY"; base +:+ " 2024"; base +:+ " 2025" ])
       bits).

(** The INS-only queries of a retail question.  Their typographic
    apostrophe is outside Latin-1; these texts stay as the bytes of the
    source file, they are only handed to the search service. *)
Definition quoted (s : string) : string :=
  let dq := String (ascii_of_nat 34) EmptyString in
  dq +:+ s +:+ dq.

Definition INS_ONLY_QUERIES : list string :=
  let detail := quoted "commerce de détail" in
  let indice := quoted "indice du chiffre d’affaires" in
  [ "site:ins.tn " +:+ detail +:+ " " +:+ indice;
    "site:ins.tn " +:+ detail +:+ " filetype:pdf";
    "site:ins.tn " +:+ indice +:+ " filetype:pdf";
    "site:ins.tn ICA filetype:pdf";
    "site:ins.tn ICA filetype:xlsx";
    "site:ins.tn " +:+ indice +:+ " 2025";
    "site:ins.tn " +:+ indice +:+ " 2024" ].

(** [_expanded_queries(question, allow_discovery)], lines 167-206.
    [scraping.core.taxonomy_utils] has no [build_search_queries]: the
    import raises and the heuristic queries are the base. *)
Definition _expanded_queries (question : string) (allow_discovery : bool)
  : list string :=
  let q := PyStr.strip question in
  let retail_lock := _looks_like_ica q in
  let base := _heuristic_queries q (allow_discovery && negb retail_lock) in
  let base := if retail_lock then INS_ONLY_QUERIES ++ base else base in
  let extra :=
    concat (map (fun s => [ s +:+ " filetype:pdf"; s +:+ " filetype:xlsx" ])
                base) in
  let uniq := uniq_from ∅ (base ++ extra) in
  slice_to 14 uniq.

(** The outside world of the picker: the search service, the fallback
    search page and the liveness probe.  A request that fails, for any
    reason, has no answer. *)
Section Environment.

(** The [organic] items of the service's answer to a query asked with
    [num] results: for each the link and the snippet (or, without one, the
    title), an absent field being [""]. *)
Variable serper_organic : string -> Z -> option (list (string * string)).

(** The result links, unquoted, of the fallback page for a query. *)
Variable ddg_links : string -> option (list string).

(** [_fast_head_ok(u)], lines 130-152: every exception of the probe is
    caught there and gives [False]. *)
Variable _fast_head_ok : string -> bool.

(** [_serper_search(q, num)], lines 253-270 (with a key configured). *)
Definition _serper_search (q : string) (num : Z) : list (string * string) :=
  match serper_organic q num with
  | Some items =>
      filter (fun row => bool_decide (PyStr.startswith (fst row) "http" = true))
             (map (fun it => (PyStr.strip (fst it), PyStr.strip (snd it)))
                  items)
  | None => []
  end.

(** [_ddg_fallback(q, num)], lines 273-285. *)
Definition _ddg_fallback (q : string) (num : Z) : list (string * string) :=
  match ddg_links q with
  | Some links =>
      map (fun href => (href, ""))
          (filter (fun href => bool_decide (PyStr.startswith href "http" = true))
                  (slice_to num links))
  | None => []
  end.

(** The body of the loop over the rows of one query, lines 302-322. *)
Definition consider_row (allow_discovery retail_lock : bool)
    (st : gset string * list (string * string)) (row : string * string)
  : result (gset string * list (string * string)) :=
  let '(seen, out) := st in
  let '(u, s) := row in
  nu ← _normalize_url u;
  let lu := PyStr.lower nu in
  if _is_probably_dead lu then Ok st
  else if negb allow_discovery && _is_aggregator lu then Ok st
  else if retail_lock && negb (String.eqb (_domain_of nu) "ins.tn") then Ok st
  else if retail_lock && (_has_any nu NEGATIVE_KWS || _has_any s NEGATIVE_KWS)
  then Ok st
  else if decide (nu ∈ seen) then Ok st
  else Ok ({[ nu ]} ∪ seen, out ++ [(nu, s)]).

(** Auxiliary: the state of the search loop is sound: the normalized URLs kept so
    far are distinct, [seen] holds exactly them, and each passed the
    filters of the loop. *)
Definition kept_ok (allow_discovery retail_lock : bool)
    (st : gset string * list (string * string)) : Prop :=
  NoDup (map fst (snd st))
  /\ (forall u, u ∈ fst st <-> u ∈ map fst (snd st))
  /\ forall u sn, (u, sn) ∈ snd st ->
       _is_probably_dead (PyStr.lower u) = false
       /\ (allow_discovery = false ->
           _is_aggregator (PyStr.lower u) = false)
       /\ (retail_lock = true ->
           _domain_of u = "ins.tn"
           /\ _has_any u NEGATIVE_KWS = false
           /\ _has_any sn NEGATIVE_KWS = false).

(** [_search_candidates(question, allow_discovery, k)], lines 288-325. *)
Definition _search_candidates (question : string) (allow_discovery : bool)
    (k : Z) : result (list (string * string)) :=
  let queries := _expanded_queries question allow_discovery in
  let retail_lock := _looks_like_ica question in
  st ← for_each
         (fun st q =>
            let rows :=
              match _serper_search q k with
              | [] => _ddg_fallback q k
              | rows => rows
              end in
            for_each (consider_row allow_discovery retail_lock) rows st)
         queries (∅, []);
  Ok (snd st).

(** The order of the pairs (score, url): by score, then by the text. *)
Definition pair_ltb (a b : Q * string) : bool :=
  qlt (fst a) (fst b)
  || (Qeq_bool (fst a) (fst b) && PyStr.ltb (snd a) (snd b)).

Fixpoint insert_desc (x : Q * string) (l : list (Q * string))
  : list (Q * string) :=
  match l with
  | [] => [x]
  | y :: l' => if pair_ltb y x then x :: l else y :: insert_desc x l'
  end.

(** [sorted(pairs, reverse=True)]: descending, equal pairs in their
    order of arrival. *)
Definition sorted_desc (l : list (Q * string)) : list (Q * string) :=
  fold_left (fun acc x => insert_desc x acc) l [].

(** [_append_link_bank(urls)], lines 398-417, on the list of links
    already in the bank. *)
Definition _append_link_bank (urls existing : list string) : list string :=
  fold_left
    (fun merged u =>
       if existsb (String.eqb u) merged then merged else merged ++ [u])
    urls existing.

(** [_official_allowed(u, allow_discovery, ica_only)], lines 421-426. *)
Definition _official_allowed (u : string) (allow_discovery ica_only : bool)
  : bool :=
  if allow_discovery && negb ica_only then true
  else if ica_only then PyStr.endswith (_domain_of u) "ins.tn"
  else _is_official u.

Definition ICA_SEEDS : list string :=
  [ "https://www.ins.tn/statistiques";
    "https://www.ins.tn/publications?keys=commerce%20de%20d%C3%A9tail" ].

Definition OFFICIAL_SEEDS : list string :=
  [ "https://www.ins.tn/statistiques";
    "https://www.bct.gov.tn/bct/siteprod/indicateurs.jsp" ].

Definition seeds (ica_only : bool) : list string :=
  if ica_only then ICA_SEEDS else OFFICIAL_SEEDS.

Section Passes.
Variables (top_k : Z) (allow_discovery ica_only : bool).

Definition full (picks : list string) : bool :=
  (top_k <=? Z.of_nat (length picks))%Z.

(** The strict pass, lines 466-474. *)
Fixpoint strict_pass (min_score : Q) (scored : list (Q * string))
    (picks : list string) : list string :=
  match scored with
  | [] => picks
  | (s, u) :: rest =>
      if qlt s min_score then strict_pass min_score rest picks
      else if negb (_official_allowed u allow_discovery ica_only)
      then strict_pass min_score rest picks
      else
        let picks := picks ++ [u] in
        if full picks then picks else strict_pass min_score rest picks
  end.

(** The loop of the relaxed pass, lines 479-487. *)
Fixpoint relaxed_pass (relaxed : Q) (scored : list (Q * string))
    (picks : list string) : list string :=
  match scored with
  | [] => picks
  | (s, u) :: rest =>
      if full picks then picks
      else if qlt s relaxed then relaxed_pass relaxed rest picks
      else if negb (_official_allowed u allow_discovery ica_only)
      then relaxed_pass relaxed rest picks
      else if existsb (String.eqb u) picks
      then relaxed_pass relaxed rest picks
      else relaxed_pass relaxed rest (picks ++ [u])
  end.

(** The loop that keeps at most [top_k] distinct picks, lines 490-497. *)
Fixpoint unique_picks (picks : list string) (seen : gset string)
    (uniq : list string) : list string :=
  match picks with
  | [] => uniq
  | u :: rest =>
      let '(seen, uniq) :=
        if decide (u ∈ seen) then (seen, uniq)
        else ({[ u ]} ∪ seen, uniq ++ [u]) in
      if full uniq then uniq else unique_picks rest seen uniq
  end.

End Passes.

(** [pick_verified_urls(question, top_k, allow_discovery, write_links,
    min_score)], lines 430-523.  The second component is the link bank
    after the call. *)
Definition pick_verified_urls (question : string) (top_k : Z)
    (allow_discovery write_links : bool) (min_score : Q)
    (bank : list string) : result (list string * list string) :=
  let ica_only := _looks_like_ica question in
  cands ← _search_candidates question allow_discovery (Z.max 10 (top_k * 4));
  match cands with
  | [] => Ok (slice_to top_k (seeds ica_only), bank)
  | _ =>
      let scored :=
        sorted_desc
          (map (fun c => (_score (fst c) (snd c) question allow_discovery,
                          fst c))
               cands) in
      let picks :=
        strict_pass top_k allow_discovery ica_only min_score scored [] in
      let picks :=
        if negb (full top_k picks)
           && match scored with [] => false | _ => true end
        then
          let lowered := (min_score - (16 # 10))%Q in
          let relaxed := if qlt lowered 3 then 3%Q else lowered in
          relaxed_pass top_k allow_discovery ica_only relaxed scored picks
        else picks in
      let uniq := unique_picks top_k picks ∅ [] in
      let validated :=
        filter (fun u => bool_decide (_fast_head_ok u = true)) uniq in
      let validated :=
        match validated, uniq with
        | [], _ :: _ => slice_to 1 uniq
        | _, _ => validated
        end in
      let validated :=
        match validated with
        | [] => slice_to top_k (seeds ica_only)
        | _ => validated
        end in
      let bank :=
        if write_links && match validated with [] => false | _ => true end
        then _append_link_bank validated bank else bank in
      Ok (slice_to top_k validated, bank)
  end.

End Environment.

End Parse.

End UrlPick.

(** *** Sample records used in the examples below *)
Module Samples.
Import Py.

(** An observation as the sentence extractor builds it. *)
Definition observation (indicator : string) (year : Z) (value : Q)
    (raw_text : string) : record :=
  {[ "Indicator" := PStr indicator; "Year" := PInt year;
     "Value" := PFloat value; "Unit" := PStr "%";
     "Source" := PStr "ins.tn"; "RawText" := PStr raw_text ]}.

Definition obs_100 : record :=
  observation "Inflation" 2023 1 "Inflation stood at about 1 % in 2023".
Definition obs_125 : record :=
  observation "Inflation" 2023 (5 # 4) "Inflation stood at about 1 % in 2023".
Definition obs_150 : record :=
  observation "Inflation" 2023 (3 # 2) "Inflation stood at about 1 % in 2023".

(** An answer of the search service whose only link has an opening
    square bracket for a host. *)
Definition bracket_answer (q : string) (num : Z)
  : option (list (string * string)) :=
  Some [("http://[", "")].

(** Stand-ins for the digest and for the printing of floats, for the
    examples of the incremental indexer. *)
Definition sample_digest (payload : string) : string := payload.
Definition sample_float_str (q : Q) : string :=
  pretty (Qnum q) +:+ "/" +:+ pretty (Z.pos (Qden q)).

(** A search service that gives the same three results for every query,
    a fallback that fails and a probe that accepts every URL. *)
Definition sample_answer (q : string) (num : Z)
  : option (list (string * string)) :=
  Some [ ("https://www.ins.tn/statistiques/2024 ", "Inflation at 3% in 2024");
         ("https://example.com/stat", "");
         ("https://www.bct.gov.tn/a.pdf", "") ].
Definition sample_fallback (q : string) : option (list string) := None.
Definition sample_probe (u : string) : bool := true.

End Samples.

(** ** Part II. The properties *)

Section ScoreConfidence.
Import Utils.

Lemma recognized_is_truthy (u : string) :
  In u RECOGNIZED_UNITS ->
  unit_recognized (Some u) = true /\ unit_truthy (Some u) = true.
Proof.
  unfold RECOGNIZED_UNITS. simpl.
  intros [<- | [<- | [<- | [<- | []]]]]; split; reflexivity.
Qed.

(** C7. For every matched flag, year and value, [score_confidence] with a
    recognized unit (one of %, USD, TND, EUR) returns a strictly greater
    score than the same call with unit [None]. *)
Theorem C7_recognized_unit_scores_strictly_higher
    (matched : bool) (year : option Z) (value : option Q) (u : string) :
  In u RECOGNIZED_UNITS ->
  score_confidence matched year value None
  < score_confidence matched year value (Some u).
Proof.
  intros Hu. destruct (recognized_is_truthy u Hu) as [Hr Ht].
  unfold score_confidence. rewrite Hr, Ht. simpl unit_recognized.
  simpl unit_truthy. cbn [negb andb].
  assert (Hy : value_is_year value year = true ->
               exists v, value = Some v /\ Qeq_bool v 0 = false).
  { unfold value_is_year. destruct value as [v|]; [|discriminate].
    destruct year as [y|]; [|discriminate].
    intros H. apply andb_true_iff in H as [Hy0 Hvy].
    exists v. split; [reflexivity|].
    apply negb_true_iff, Z.eqb_neq in Hy0.
    apply Qeq_bool_iff in Hvy.
    destruct (Qeq_bool v 0) eqn:E; [|reflexivity].
    apply Qeq_bool_iff in E. rewrite E in Hvy.
    exfalso. apply Hy0. unfold Qeq in Hvy. simpl in Hvy. lia. }
  destruct (value_is_year value year) eqn:Evy.
  - destruct (Hy eq_refl) as (v & -> & Hv0). rewrite Hv0. cbn [negb].
    destruct matched, (year_plausible year);
      repeat match goal with
             | |- context [if ?b then _ else _] => destruct b
             end; cbn; lia.
  - destruct value as [v|];
      destruct matched, (year_plausible year);
      repeat match goal with
             | |- context [if ?b then _ else _] => destruct b
             end; cbn; lia.
Qed.

Lemma C7_witness :
  In "%" RECOGNIZED_UNITS
  /\ score_confidence true (Some 2024) (Some (13 # 2)%Q) None
     < score_confidence true (Some 2024) (Some (13 # 2)%Q) (Some "%").
Proof.
  split.
  - simpl. auto.
  - apply (C7_recognized_unit_scores_strictly_higher
             true (Some 2024) (Some (13 # 2)%Q) "%").
    simpl. auto.
Defined.

End ScoreConfidence.

Section TaxonomyResolution.
Import CanonicalIndicators TaxonomyUtils.

Lemma lstrip_all_space (s : string) :
  PyStr.all_chars PyStr.is_space s = true -> PyStr.lstrip s = "".
Proof.
  induction s as [|c s IH]; simpl; [reflexivity|].
  intros H. apply andb_true_iff in H as [Hc Hs].
  rewrite Hc. exact (IH Hs).
Qed.

Lemma strip_all_space (s : string) :
  PyStr.all_chars PyStr.is_space s = true -> PyStr.strip s = "".
Proof.
  intros H. unfold PyStr.strip. rewrite (lstrip_all_space s H). reflexivity.
Qed.

(** C10. For the empty string and every whitespace-only phrase,
    [ensure_indicator_and_alias] returns [("", False)] and leaves the
    taxonomy file and the alias map as they were. *)
Theorem C10_blank_phrase_is_rejected_without_mutation
    (fuzz : option (string -> string -> Q)) (alias : string) (fs : files) :
  PyStr.all_chars PyStr.is_space alias = true ->
  ensure_indicator_and_alias fuzz alias fs = (("", false), fs).
Proof.
  intros H. unfold ensure_indicator_and_alias.
  rewrite (strip_all_space alias H). reflexivity.
Qed.

Lemma C10_witness :
  PyStr.all_chars PyStr.is_space "   " = true
  /\ ensure_indicator_and_alias (Some Rapidfuzz.ratio) "   "
       (Files (Some [Item (Some "Inflation") (Some ["cpi"])]) None true)
     = (("", false),
        Files (Some [Item (Some "Inflation") (Some ["cpi"])]) None true).
Proof.
  split; [reflexivity|].
  apply (C10_blank_phrase_is_rejected_without_mutation
           (Some Rapidfuzz.ratio) "   "
           (Files (Some [Item (Some "Inflation") (Some ["cpi"])]) None true)).
  reflexivity.
Defined.

(** A phrase found in the alias map is answered from the map and nothing
    is written. *)
Lemma ensure_answered_by_alias_map
    (fuzz : option (string -> string -> Q)) (alias : string) (fs : files)
    (e : entry) :
  PyStr.strip alias <> "" ->
  _load_alias_map fs !! _norm (PyStr.strip alias) = Some e ->
  ensure_indicator_and_alias fuzz alias fs
  = ((default (PyStr.strip alias) (canonical e), false), fs).
Proof.
  intros Hraw Hmap. unfold ensure_indicator_and_alias.
  destruct (String.eqb_spec (PyStr.strip alias) "") as [E|_]; [contradiction|].
  rewrite Hmap. reflexivity.
Qed.

(** C5, on the code: starting from an empty taxonomy with the builder
    script in place, the first call for "3m rate" creates and returns the
    canonical "3M Rate" ([str.title]); the builder then lists the phrase
    under "3m Rate" ([str.capitalize] word by word), which is what the
    second call returns, with no edit of either file in between.  The
    same happens on the fuzzy path with the canonical
    "Policy interest rate (%)". *)
Theorem C5_second_call_returns_another_canonical :
  let fuzz := Some Rapidfuzz.ratio in
  let fs0 := Files (Some []) None true in
  let call1 := ensure_indicator_and_alias fuzz "3m rate" fs0 in
  let call2 := ensure_indicator_and_alias fuzz "3m rate" (snd call1) in
  let policy := [Item (Some "Policy interest rate (%)")
                      (Some ["taux directeur"])] in
  let gs0 := Files (Some policy) (Some (build policy)) true in
  let fuzzy1 := ensure_indicator_and_alias fuzz "policy interest rates" gs0 in
  let fuzzy2 :=
    ensure_indicator_and_alias fuzz "policy interest rates" (snd fuzzy1) in
  fst call1 = ("3M Rate", true)
  /\ fst call2 = ("3m Rate", false)
  /\ snd call2 = snd call1
  /\ fst fuzzy1 = ("Policy interest rate (%)", true)
  /\ fst fuzzy2 = ("Policy Interest Rate (%)", false)
  /\ snd fuzzy2 = snd fuzzy1.
Proof. vm_compute. repeat split; reflexivity. Qed.

End TaxonomyResolution.


Section IncrementalIndexer.
Import Py UpsertEmbeddings.

Variable sha1_hexdigest : string -> string.
Variable float_str : Q -> string.

(** Every key the loop selects is the stable key of a row of the table and
    is absent from the persisted seen-set. *)
Lemma collect_new_fresh (seen : gset string) (rows : list record)
    (new : list (string * (string * record))) :
  collect_new sha1_hexdigest float_str seen rows = Ok new ->
  forall k, k ∈ map fst new ->
    (k ∉ seen)
    /\ exists r, r ∈ rows /\ _stable_key sha1_hexdigest float_str r = Ok k.
Proof.
  revert new. induction rows as [|r rows IH]; intros new H k Hk.
  - simpl in H. injection H as <-. simpl in Hk. by apply elem_of_nil in Hk.
  - simpl in H.
    destruct (_stable_key sha1_hexdigest float_str r) as [key|e] eqn:Ekey;
      [|discriminate].
    simpl in H.
    assert (Hrest : forall new',
              collect_new sha1_hexdigest float_str seen rows = Ok new' ->
              k ∈ map fst new' ->
              (k ∉ seen)
              /\ exists r0, r0 ∈ r :: rows
                   /\ _stable_key sha1_hexdigest float_str r0 = Ok k).
    { intros new' H' Hk'. destruct (IH new' H' k Hk') as (Hs & r0 & Hr0 & Hk0).
      split; [exact Hs|]. exists r0. split; [by right | exact Hk0]. }
    destruct (decide (key ∈ seen)) as [Hin|Hnin]; [by eapply Hrest|].
    destruct (negb _); [by eapply Hrest|].
    destruct (_ && _); [by eapply Hrest|].
    destruct (_row_to_text_meta float_str r) as [pair|e]; [|discriminate].
    simpl in H.
    destruct (collect_new sha1_hexdigest float_str seen rows) as [rest|e];
      [|discriminate].
    simpl in H. injection H as <-. simpl in Hk.
    apply elem_of_cons in Hk as [-> | Hk].
    + split; [exact Hnin|]. exists r. split; [by left | exact Ekey].
    + by eapply Hrest.
Qed.



(** C4, on the code: two rows of one table with the same stable key (the
    year once as the number 2023 and once as the date string "2023") and
    an empty seen-set.  The seen-set is only extended after the loop, so
    both rows are appended to the index and the call returns 2. *)
Theorem C4_two_rows_with_one_key_are_both_appended :
  let r1 : record :=
    {[ "Indicator" := PStr "Inflation"; "Year" := PInt 2023;
       "Value" := PFloat (17 # 2); "Unit" := PStr "%";
       "Source" := PStr "ins.tn";
       "RawText" := PStr "Inflation stood at 8.5 % in 2023" ]} in
  let r2 : record :=
    {[ "Indicator" := PStr "Inflation"; "Year" := PInt 2023;
       "DateISO" := PStr "2023";
       "Value" := PFloat (17 # 2); "Unit" := PStr "%";
       "Source" := PStr "ins.tn";
       "RawText" :=
         PStr "Annual average of the consumer price index, year on year" ]} in
  exists (k : string) (d1 d2 : string * record) (s : gset string),
    _stable_key sha1_hexdigest float_str r1 = Ok k
    /\ _stable_key sha1_hexdigest float_str r2 = Ok k
    /\ upsert_latest sha1_hexdigest float_str [r1; r2] None (Store ∅ [])
       = Ok (2, Store s [d1; d2])
    /\ snd d1 !! "raw_text" = r1 !! "RawText"
    /\ snd d2 !! "raw_text" = r2 !! "RawText".
Proof.
  intros r1 r2. do 4 eexists.
  split; [vm_compute; reflexivity|].
  split; [vm_compute; reflexivity|].
  split; [vm_compute; reflexivity|].
  split; vm_compute; reflexivity.
Qed.

End IncrementalIndexer.

Section Deduplication.
Import Py Utils.
Variable text_ratio : string -> string -> Q.

(** Helper lemmas on the two loops of [remove_duplicates]. *)
Lemma bind_ok {A B : Type} (r : result A) (k : A -> result B) (b : B) :
  r ≫= k = Ok b -> exists a, r = Ok a /\ k a = Ok b.
Proof. destruct r as [a|e]; simpl; [eauto | discriminate]. Qed.

Lemma dedup_loop_app (seen a b : list record) :
  dedup_loop text_ratio seen (a ++ b)
  = dedup_loop text_ratio seen a ≫= (fun s => dedup_loop text_ratio s b).
Proof.
  revert seen. induction a as [|x a IH]; intros seen; simpl; [reflexivity|].
  destruct (find_duplicate text_ratio seen x) as [d|e]; simpl; [|reflexivity].
  apply IH.
Qed.

Lemma find_duplicate_app_true (seen more : list record) (entry : record) :
  find_duplicate text_ratio seen entry = Ok true ->
  find_duplicate text_ratio (seen ++ more) entry = Ok true.
Proof.
  induction seen as [|x seen IH]; simpl; [discriminate|].
  destruct (is_duplicate text_ratio x entry) as [[|]|e]; simpl; auto.
Qed.

Lemma find_duplicate_hit (seen : list record) (x entry : record) :
  (forall z, z ∈ seen -> exists b, is_duplicate text_ratio z entry = Ok b) ->
  x ∈ seen -> is_duplicate text_ratio x entry = Ok true ->
  find_duplicate text_ratio seen entry = Ok true.
Proof.
  induction seen as [|y seen IH]; intros Hdef Hx Hdup.
  - by apply elem_of_nil in Hx.
  - simpl. destruct (Hdef y) as [b Hb]; [by left|]. rewrite Hb. simpl.
    destruct b; [reflexivity|].
    apply elem_of_cons in Hx as [-> | Hx]; [congruence|].
    apply IH; [|exact Hx|exact Hdup].
    intros z Hz. apply Hdef. by right.
Qed.

Lemma dedup_loop_extends (seen entries out : list record) :
  dedup_loop text_ratio seen entries = Ok out ->
  exists kept, out = seen ++ kept
    /\ (forall r, r ∈ kept -> r ∈ entries)
    /\ dedup_loop text_ratio seen kept = Ok out.
Proof.
  revert seen. induction entries as [|x entries IH]; intros seen H.
  - simpl in H. injection H as <-. exists []. rewrite app_nil_r.
    split; [reflexivity|]. split; [|reflexivity].
    intros r Hr. by apply elem_of_nil in Hr.
  - simpl in H.
    destruct (find_duplicate text_ratio seen x) as [d|e] eqn:Ed; [|discriminate].
    simpl in H. destruct d.
    + destruct (IH _ H) as (kept & -> & Hsub & Hk). exists kept.
      split; [reflexivity|]. split; [|exact Hk].
      intros r Hr. right. by apply Hsub.
    + destruct (IH _ H) as (kept & -> & Hsub & Hk). exists (x :: kept).
      split; [by rewrite <- app_assoc|]. split.
      * intros r Hr. apply elem_of_cons in Hr as [-> | Hr]; [by left|].
        right. by apply Hsub.
      * simpl. rewrite Ed. simpl. exact Hk.
Qed.

Lemma dedup_loop_dropped (seen entries out : list record) :
  dedup_loop text_ratio seen entries = Ok out ->
  forall x, x ∈ entries ->
    x ∈ out \/ find_duplicate text_ratio out x = Ok true.
Proof.
  revert seen. induction entries as [|y entries IH]; intros seen H x Hx.
  - by apply elem_of_nil in Hx.
  - simpl in H.
    destruct (find_duplicate text_ratio seen y) as [d|e] eqn:Ed; [|discriminate].
    simpl in H.
    destruct (dedup_loop_extends _ _ _ H) as (kept & Hout & _ & _).
    apply elem_of_cons in Hx as [-> | Hx]; [|by eapply IH].
    destruct d.
    + right. rewrite Hout. by apply find_duplicate_app_true.
    + left. rewrite Hout. apply elem_of_app. left. apply elem_of_app. right.
      by left.
Qed.

Lemma dedup_loop_all_duplicates (seen entries : list record) :
  (forall d, d ∈ entries -> find_duplicate text_ratio seen d = Ok true) ->
  dedup_loop text_ratio seen entries = Ok seen.
Proof.
  induction entries as [|x entries IH]; intros H; simpl; [reflexivity|].
  rewrite (H x); [|by left]. simpl. apply IH. intros d Hd. apply H. by right.
Qed.

(** C8, as the code has it.  A record that is near-identical to a record
    kept before it is dropped: the result is the one the list without that
    record gives, and the records kept before it stay at the front.  The
    comparison is made with the kept records only, in their order. *)
Theorem C8_duplicate_of_a_kept_record_is_dropped
    (pre post kept : list record) (x e : record) :
  remove_duplicates text_ratio pre = Ok kept ->
  (forall z, z ∈ kept -> exists b, is_duplicate text_ratio z e = Ok b) ->
  x ∈ kept ->
  is_duplicate text_ratio x e = Ok true ->
  remove_duplicates text_ratio (pre ++ e :: post)
  = remove_duplicates text_ratio (pre ++ post)
  /\ forall out, remove_duplicates text_ratio (pre ++ e :: post) = Ok out ->
       exists rest, out = kept ++ rest /\ forall r, r ∈ rest -> r ∈ post.
Proof.
  unfold remove_duplicates. intros Hpre Hdef Hx Hdup.
  pose proof (find_duplicate_hit kept x e Hdef Hx Hdup) as Hfind.
  assert (Heq : dedup_loop text_ratio [] (pre ++ e :: post)
                = dedup_loop text_ratio kept post).
  { rewrite dedup_loop_app, Hpre. simpl. rewrite Hfind. reflexivity. }
  split.
  - rewrite Heq, dedup_loop_app, Hpre. reflexivity.
  - intros out Hout. rewrite Heq in Hout.
    destruct (dedup_loop_extends _ _ _ Hout) as (rest & -> & Hsub & _).
    exists rest. split; [reflexivity | exact Hsub].
Qed.
Lemma remove_duplicates_one (a : record) :
  remove_duplicates text_ratio [a] = Ok [a].
Proof. reflexivity. Qed.

Lemma remove_duplicates_chain (a b c : record) :
  is_duplicate text_ratio a b = Ok true ->
  is_duplicate text_ratio a c = Ok false ->
  remove_duplicates text_ratio [a; b; c] = Ok [a; c].
Proof.
  intros Hab Hac. unfold remove_duplicates. simpl. rewrite Hab. simpl.
  rewrite Hac. reflexivity.
Qed.

Lemma records_differ (k : string) (r1 r2 : record) :
  r1 !! k <> r2 !! k -> r1 <> r2.
Proof. intros H E. apply H. by rewrite E. Qed.

Lemma not_elem_of_pair (x a c : record) : x <> a -> x <> c -> x ∉ [a; c].
Proof.
  intros Ha Hc Hx. apply elem_of_cons in Hx as [Hx | Hx]; [by apply Ha|].
  apply list_elem_of_singleton in Hx. by apply Hc.
Qed.

End Deduplication.

Section DeduplicationExamples.
Import Py Utils Samples.

(** C8 as stated fails: 1.25 and 1.5 are near-identical records of the
    same indicator, year and text, but 1.25 was dropped as a duplicate of
    1.0, so 1.5 is compared with 1.0 only and is kept. *)
Lemma C8_counterexample :
  ~ (forall (pre mid post out : list record) (x y : record),
       is_duplicate Difflib.ratio x y = Ok true ->
       remove_duplicates Difflib.ratio (pre ++ x :: mid ++ y :: post) = Ok out ->
       x ∈ out /\ y ∉ out).
Proof.
  intros H.
  destruct (H [obs_100] [] [] [obs_100; obs_150] obs_125 obs_150) as [Hx _].
  - vm_compute; reflexivity.
  - apply remove_duplicates_chain; vm_compute; reflexivity.
  - revert Hx. apply not_elem_of_pair; apply (records_differ "Value");
      vm_compute; discriminate.
Qed.

Lemma C8_witness :
  remove_duplicates Difflib.ratio [obs_100] = Ok [obs_100]
  /\ is_duplicate Difflib.ratio obs_100 obs_125 = Ok true
  /\ remove_duplicates Difflib.ratio ([obs_100] ++ obs_125 :: [obs_150])
     = remove_duplicates Difflib.ratio ([obs_100] ++ [obs_150]).
Proof.
  split; [apply remove_duplicates_one|]. split; [vm_compute; reflexivity|].
  apply (C8_duplicate_of_a_kept_record_is_dropped Difflib.ratio
           [obs_100] [obs_150] [obs_100] obs_100 obs_125).
  - apply remove_duplicates_one.
  - intros z Hz. apply list_elem_of_singleton in Hz. subst z.
    exists true. vm_compute; reflexivity.
  - apply list_elem_of_singleton. reflexivity.
  - vm_compute; reflexivity.
Defined.

End DeduplicationExamples.

Section MergeKeys.
Import Py Extractor.

Lemma Qeq_bool_sym (a b : Q) : Qeq_bool a b = Qeq_bool b a.
Proof.
  destruct (Qeq_bool a b) eqn:E1, (Qeq_bool b a) eqn:E2; try reflexivity.
  - apply Qeq_bool_iff in E1. symmetry in E1. apply Qeq_bool_iff in E1.
    congruence.
  - apply Qeq_bool_iff in E2. symmetry in E2. apply Qeq_bool_iff in E2.
    congruence.
Qed.

Lemma Qeq_bool_trans (a b c : Q) :
  Qeq_bool a b = true -> Qeq_bool b c = true -> Qeq_bool a c = true.
Proof.
  intros H1 H2. apply Qeq_bool_iff in H1, H2. apply Qeq_bool_iff.
  by rewrite H1.
Qed.

Lemma py_eq_refl (a : pyval) : py_eq a a = true.
Proof.
  destruct a as [|b|z|q|s]; unfold py_eq; simpl;
    try (apply Qeq_bool_iff; reflexivity); try reflexivity.
  apply String.eqb_refl.
Qed.

Lemma py_eq_sym (a b : pyval) : py_eq a b = py_eq b a.
Proof.
  unfold py_eq.
  destruct (num_of a) eqn:Ea, (num_of b) eqn:Eb; try reflexivity.
  - apply Qeq_bool_sym.
  - destruct a, b; try reflexivity; try discriminate. apply String.eqb_sym.
Qed.

Lemma py_eq_trans (a b c : pyval) :
  py_eq a b = true -> py_eq b c = true -> py_eq a c = true.
Proof.
  unfold py_eq.
  destruct (num_of a) eqn:Ea, (num_of b) eqn:Eb, (num_of c) eqn:Ec;
    try discriminate.
  - apply Qeq_bool_trans.
  - destruct a, b, c; try discriminate; try reflexivity.
    intros H1 H2. apply String.eqb_eq in H1, H2. subst. apply String.eqb_refl.
Qed.

Lemma key_eqb_refl (k : merge_key) : key_eqb k k = true.
Proof.
  destruct k as [[[[i d] v] u] s]. simpl.
  by rewrite !String.eqb_refl, !py_eq_refl.
Qed.

Lemma key_eqb_sym (k1 k2 : merge_key) : key_eqb k1 k2 = key_eqb k2 k1.
Proof.
  destruct k1 as [[[[i1 d1] v1] u1] s1], k2 as [[[[i2 d2] v2] u2] s2]. simpl.
  by rewrite (String.eqb_sym i1), (py_eq_sym d1), (py_eq_sym v1),
    (String.eqb_sym u1), (String.eqb_sym s1).
Qed.

Lemma key_eqb_trans (k1 k2 k3 : merge_key) :
  key_eqb k1 k2 = true -> key_eqb k2 k3 = true -> key_eqb k1 k3 = true.
Proof.
  destruct k1 as [[[[i1 d1] v1] u1] s1], k2 as [[[[i2 d2] v2] u2] s2],
    k3 as [[[[i3 d3] v3] u3] s3]. simpl.
  rewrite !andb_true_iff.
  intros [[[[Hi Hd] Hv] Hu] Hs] [[[[Hi' Hd'] Hv'] Hu'] Hs'].
  apply String.eqb_eq in Hi, Hi', Hu, Hu', Hs, Hs'. subst.
  rewrite !String.eqb_refl, (py_eq_trans _ _ _ Hd Hd'),
    (py_eq_trans _ _ _ Hv Hv'). auto.
Qed.

(** Equal keys are interchangeable on either side of a comparison. *)
Lemma key_eqb_congr_l (k1 k2 k : merge_key) :
  key_eqb k1 k2 = true -> key_eqb k1 k = key_eqb k2 k.
Proof.
  intros H. destruct (key_eqb k2 k) eqn:E.
  - by apply (key_eqb_trans k1 k2 k).
  - destruct (key_eqb k1 k) eqn:E'; [|reflexivity].
    rewrite key_eqb_sym in H. by rewrite (key_eqb_trans k2 k1 k H E') in E.
Qed.

Lemma key_eqb_congr_r (k1 k2 k : merge_key) :
  key_eqb k1 k2 = true -> key_eqb k k1 = key_eqb k k2.
Proof.
  intros H. rewrite (key_eqb_sym k k1), (key_eqb_sym k k2).
  by apply key_eqb_congr_l.
Qed.

(** *** The dictionary *)

Lemma lookup_key_congr (m : list (merge_key * record)) (k1 k2 : merge_key) :
  key_eqb k1 k2 = true -> lookup_key m k1 = lookup_key m k2.
Proof.
  intros H. induction m as [|[k v] m IH]; simpl; [reflexivity|].
  by rewrite (key_eqb_congr_r k1 k2 k H), IH.
Qed.

Lemma present_congr (m : list (merge_key * record)) (k1 k2 : merge_key) :
  key_eqb k1 k2 = true -> present k1 m = present k2 m.
Proof.
  intros H. unfold present. induction m as [|[k v] m IH]; simpl; [reflexivity|].
  by rewrite (key_eqb_congr_r k1 k2 k H), IH.
Qed.

Lemma present_lookup (m : list (merge_key * record)) (k : merge_key) :
  present k m = true <-> exists v, lookup_key m k = Some v.
Proof.
  unfold present. induction m as [|[k' v'] m IH]; simpl.
  - split; [discriminate | intros [v Hv]; discriminate].
  - destruct (key_eqb k' k); simpl; [split; eauto | exact IH].
Qed.

Lemma lookup_key_absent (m : list (merge_key * record)) (k : merge_key) :
  present k m = false -> lookup_key m k = None.
Proof.
  intros H. destruct (lookup_key m k) as [v|] eqn:E; [|reflexivity].
  assert (present k m = true) by (apply present_lookup; eauto). congruence.
Qed.

Lemma lookup_key_elem (m : list (merge_key * record)) (k : merge_key)
    (v : record) :
  lookup_key m k = Some v -> exists k', (k', v) ∈ m /\ key_eqb k' k = true.
Proof.
  induction m as [|[k' v'] m IH]; simpl; [discriminate|].
  destruct (key_eqb k' k) eqn:E.
  - intros [= <-]. exists k'. split; [by left | exact E].
  - intros H. destruct (IH H) as (k'' & Hin & Hk). exists k''.
    split; [by right | exact Hk].
Qed.

Lemma present_elem (m : list (merge_key * record)) (k k' : merge_key)
    (v : record) :
  (k', v) ∈ m -> key_eqb k' k = true -> present k m = true.
Proof.
  unfold present. intros Hin Hk. apply existsb_exists. exists (k', v).
  split; [by apply list_elem_of_In | exact Hk].
Qed.

Lemma elem_lookup_key (m : list (merge_key * record)) (k : merge_key)
    (v : record) :
  distinct_keys m -> (k, v) ∈ m -> lookup_key m k = Some v.
Proof.
  induction m as [|[k' v'] m IH]; intros Hd Hin.
  - by apply elem_of_nil in Hin.
  - simpl in Hd. destruct Hd as [Hk' Hd]. simpl.
    apply elem_of_cons in Hin as [[= -> ->] | Hin].
    + by rewrite key_eqb_refl.
    + destruct (key_eqb k' k) eqn:E; [|by apply IH].
      rewrite key_eqb_sym in E.
      rewrite (present_congr m k' k) in Hk'; [|by rewrite key_eqb_sym].
      rewrite (present_elem m k k v Hin (key_eqb_refl k)) in Hk'. discriminate.
Qed.

Lemma dict_set_absent (m : list (merge_key * record)) (k : merge_key)
    (v : record) :
  present k m = false -> dict_set m k v = m ++ [(k, v)].
Proof.
  unfold present. induction m as [|[k' v'] m IH]; simpl; [reflexivity|].
  intros H. apply orb_false_iff in H as [H1 H2]. rewrite H1.
  f_equal. apply IH. exact H2.
Qed.

Lemma lookup_key_dict_set (m : list (merge_key * record)) (k k2 : merge_key)
    (v : record) :
  lookup_key (dict_set m k v) k2
  = if key_eqb k k2 then Some v else lookup_key m k2.
Proof.
  induction m as [|[k' v'] m IH]; simpl; [reflexivity|].
  destruct (key_eqb k' k) eqn:E; simpl.
  - rewrite (key_eqb_congr_l k' k k2 E). by destruct (key_eqb k k2).
  - destruct (key_eqb k' k2) eqn:E2; [|exact IH].
    destruct (key_eqb k k2) eqn:E3; [|reflexivity].
    rewrite (key_eqb_sym k k2) in E3.
    by rewrite (key_eqb_trans k' k2 k E2 E3) in E.
Qed.

Lemma present_dict_set (m : list (merge_key * record)) (k k2 : merge_key)
    (v : record) :
  present k2 (dict_set m k v) = key_eqb k k2 || present k2 m.
Proof.
  destruct (present k2 (dict_set m k v)) eqn:E.
  - apply present_lookup in E as [w Hw]. rewrite lookup_key_dict_set in Hw.
    destruct (key_eqb k k2); [reflexivity|]. simpl. symmetry.
    apply present_lookup. eauto.
  - destruct (key_eqb k k2) eqn:Ek; simpl.
    + assert (present k2 (dict_set m k v) = true); [|congruence].
      apply present_lookup. exists v. by rewrite lookup_key_dict_set, Ek.
    + destruct (present k2 m) eqn:Ep; [|reflexivity].
      apply present_lookup in Ep as [w Hw].
      assert (present k2 (dict_set m k v) = true); [|congruence].
      apply present_lookup. exists w. by rewrite lookup_key_dict_set, Ek.
Qed.

Lemma distinct_keys_dict_set (m : list (merge_key * record)) (k : merge_key)
    (v : record) :
  distinct_keys m -> distinct_keys (dict_set m k v).
Proof.
  induction m as [|[k' v'] m IH]; simpl; [auto|].
  intros [Hk' Hd]. destruct (key_eqb k' k) eqn:E; simpl; [auto|].
  split; [|by apply IH]. rewrite present_dict_set, Hk'.
  rewrite key_eqb_sym in E. by rewrite E.
Qed.

Lemma distinct_keys_app (m1 m2 : list (merge_key * record)) :
  distinct_keys (m1 ++ m2) ->
  distinct_keys m1 /\ distinct_keys m2
  /\ forall k v, (k, v) ∈ m1 -> present k m2 = false.
Proof.
  induction m1 as [|[k v] m1 IH]; simpl.
  - intros H. split; [exact I|]. split; [exact H|].
    intros k v Hin. by apply elem_of_nil in Hin.
  - intros [Hk Hd]. destruct (IH Hd) as (H1 & H2 & H3).
    unfold present in Hk. rewrite existsb_app in Hk.
    apply orb_false_iff in Hk as [Hk1 Hk2].
    split; [by split|]. split; [exact H2|].
    intros k0 v0 Hin. apply elem_of_cons in Hin as [[= -> ->] | Hin];
      [exact Hk2 | by eapply H3].
Qed.

(** *** Inserting a list of keyed items *)

Lemma insert_all_keyed (m : list (merge_key * record)) (items : list record) :
  insert_all m items = keyed items ≫= (fun kl => Ok (set_all m kl)).
Proof.
  revert m. induction items as [|x items IH]; intros m; simpl; [reflexivity|].
  destruct (make_key x) as [k|e]; simpl; [|reflexivity].
  rewrite IH. by destruct (keyed items).
Qed.

Lemma keyed_app (a b : list record) :
  keyed (a ++ b)
  = keyed a ≫= (fun ka => keyed b ≫= (fun kb => Ok (ka ++ kb))).
Proof.
  induction a as [|x a IH]; simpl.
  - by destruct (keyed b).
  - destruct (make_key x) as [k|e]; simpl; [|reflexivity].
    rewrite IH. destruct (keyed a) as [ka|e]; simpl; [|reflexivity].
    by destruct (keyed b).
Qed.

Lemma keyed_elem (items : list record) (kl : list (merge_key * record)) :
  keyed items = Ok kl ->
  map snd kl = items
  /\ forall k v, (k, v) ∈ kl -> make_key v = Ok k.
Proof.
  revert kl. induction items as [|x items IH]; intros kl H; simpl in H.
  - injection H as <-. split; [reflexivity|].
    intros k v Hin. by apply elem_of_nil in Hin.
  - destruct (make_key x) as [k|e] eqn:Ek; [|discriminate]. simpl in H.
    destruct (keyed items) as [rest|e]; [|discriminate]. simpl in H.
    injection H as <-. destruct (IH rest eq_refl) as [Hsnd Hkeys].
    split; [simpl; by rewrite Hsnd|].
    intros k0 v0 Hin. apply elem_of_cons in Hin as [[= -> ->] | Hin];
      [exact Ek | by apply Hkeys].
Qed.

Lemma keyed_total (items : list record) :
  (forall r, r ∈ items -> exists k, make_key r = Ok k) ->
  exists kl, keyed items = Ok kl.
Proof.
  induction items as [|x items IH]; intros H; simpl; [eauto|].
  destruct (H x) as [k Hk]; [by left|]. rewrite Hk. simpl.
  destruct IH as [kl Hkl]; [intros r Hr; apply H; by right|].
  rewrite Hkl. simpl. eauto.
Qed.

Lemma set_all_app (m kl1 kl2 : list (merge_key * record)) :
  set_all m (kl1 ++ kl2) = set_all (set_all m kl1) kl2.
Proof. unfold set_all. apply fold_left_app. Qed.

Lemma distinct_keys_set_all (m kl : list (merge_key * record)) :
  distinct_keys m -> distinct_keys (set_all m kl).
Proof.
  revert m. induction kl as [|[k v] kl IH]; intros m Hd; simpl; [exact Hd|].
  apply IH. by apply distinct_keys_dict_set.
Qed.

Lemma last_match_congr (kl : list (merge_key * record)) (k1 k2 : merge_key) :
  key_eqb k1 k2 = true -> last_match k1 kl = last_match k2 kl.
Proof.
  intros H. induction kl as [|[k v] kl IH]; simpl; [reflexivity|].
  by rewrite IH, (key_eqb_congr_r k1 k2 k H).
Qed.

Lemma lookup_key_set_all (m kl : list (merge_key * record)) (k : merge_key) :
  lookup_key (set_all m kl) k
  = match last_match k kl with
    | Some v => Some v
    | None => lookup_key m k
    end.
Proof.
  revert m. induction kl as [|[k' v'] kl IH]; intros m; simpl; [reflexivity|].
  rewrite IH. destruct (last_match k kl); [reflexivity|].
  rewrite lookup_key_dict_set. by destruct (key_eqb k' k).
Qed.

Lemma last_match_elem (kl : list (merge_key * record)) (k : merge_key)
    (v : record) :
  last_match k kl = Some v ->
  exists k', (k', v) ∈ kl /\ key_eqb k' k = true.
Proof.
  induction kl as [|[k' v'] kl IH]; simpl; [discriminate|].
  destruct (last_match k kl) as [y|].
  - intros [= ->]. destruct (IH eq_refl) as (k'' & Hin & Hk).
    exists k''. split; [by right | exact Hk].
  - destruct (key_eqb k' k) eqn:E; [|discriminate].
    intros [= <-]. exists k'. split; [by left | exact E].
Qed.

Lemma last_match_some (kl : list (merge_key * record)) (k k' : merge_key)
    (v : record) :
  (k', v) ∈ kl -> key_eqb k' k = true -> exists y, last_match k kl = Some y.
Proof.
  induction kl as [|[k0 v0] kl IH]; intros Hin Hk.
  - by apply elem_of_nil in Hin.
  - simpl. destruct (last_match k kl) as [y|] eqn:E; [eauto|].
    apply elem_of_cons in Hin as [[= <- <-] | Hin].
    + rewrite Hk. eauto.
    + destruct (IH Hin Hk) as [y Hy]. discriminate.
Qed.

(** The values come from the dictionary or from the inserted items. *)
Lemma set_all_elem (m kl : list (merge_key * record)) (k : merge_key)
    (v : record) :
  (k, v) ∈ set_all m kl ->
  (exists k', (k', v) ∈ m) \/ (exists k', (k', v) ∈ kl).
Proof.
  revert m. induction kl as [|[k0 v0] kl IH]; intros m Hin; simpl in Hin.
  - left; eauto.
  - destruct (IH _ Hin) as [[k' Hk'] | [k' Hk']].
    + assert (Hds : forall m0, (k', v) ∈ dict_set m0 k0 v0 ->
                (exists k'', (k'', v) ∈ m0) \/ v = v0).
      { induction m0 as [|[k1 v1] m0 IHm]; simpl.
        - intros H. apply list_elem_of_singleton in H. injection H as _ ->.
          by right.
        - destruct (key_eqb k1 k0).
          + intros H. apply elem_of_cons in H as [[= _ ->] | H]; [by right|].
            left. exists k'. by right.
          + intros H. apply elem_of_cons in H as [[= -> ->] | H].
            * left. exists k1. by left.
            * destruct (IHm H) as [[k'' Hk''] | ->]; [|by right].
              left. exists k''. by right. }
      destruct (Hds m Hk') as [? | ->]; [by left|].
      right. exists k0. by left.
    + right. exists k'. by right.
Qed.


Lemma keys_ok_dict_set (m : list (merge_key * record)) (k : merge_key)
    (v : record) :
  keys_ok m -> make_key v = Ok k -> keys_ok (dict_set m k v).
Proof.
  intros Hm Hk. induction m as [|[k1 v1] m IH]; simpl.
  - intros k0 v0 H. apply list_elem_of_singleton in H. injection H as -> ->.
    exists k. split; [exact Hk | apply key_eqb_refl].
  - assert (Hm' : keys_ok m) by (intros k0 v0 H; apply Hm; by right).
    destruct (key_eqb k1 k) eqn:E; intros k0 v0 H.
    + apply elem_of_cons in H as [[= -> ->] | H].
      * exists k. split; [exact Hk | exact E].
      * apply Hm. by right.
    + apply elem_of_cons in H as [[= -> ->] | H].
      * apply Hm. by left.
      * by apply (IH Hm').
Qed.

Lemma keys_ok_set_all (m kl : list (merge_key * record)) :
  keys_ok m -> (forall k v, (k, v) ∈ kl -> make_key v = Ok k) ->
  keys_ok (set_all m kl).
Proof.
  revert m. induction kl as [|[k v] kl IH]; intros m Hm Hkl; simpl; [exact Hm|].
  apply IH.
  - apply keys_ok_dict_set; [exact Hm | apply Hkl; by left].
  - intros k0 v0 H. apply Hkl. by right.
Qed.


Lemma dict_set_present (m : list (merge_key * record)) (k : merge_key)
    (v : record) :
  distinct_keys m -> present k m = true ->
  dict_set m k v
  = map (fun p => (fst p, if key_eqb (fst p) k then v else snd p)) m.
Proof.
  induction m as [|[k' v'] m IH]; simpl; [discriminate|].
  intros [Hk' Hd] Hp. destruct (key_eqb k' k) eqn:E; simpl.
  - f_equal. rewrite (present_congr m k' k E) in Hk'.
    clear IH Hp Hd. induction m as [|[k1 v1] m IH]; simpl; [reflexivity|].
    unfold present in Hk'. simpl in Hk'.
    apply orb_false_iff in Hk' as [H1 H2]. rewrite H1. f_equal. by apply IH.
  - f_equal. apply IH; [exact Hd|]. exact Hp.
Qed.

Lemma present_false_elem (m : list (merge_key * record)) (k k' : merge_key)
    (v : record) :
  present k m = false -> (k', v) ∈ m -> key_eqb k' k = false.
Proof.
  intros Hp Hin. destruct (key_eqb k' k) eqn:E; [|reflexivity].
  by rewrite (present_elem m k k' v Hin E) in Hp.
Qed.

(** The shape of the dictionary after inserting [kl]: the entries that
    were there keep their place and take the last value inserted under
    their key; the new keys follow, each with its last value. *)
Lemma set_all_structure (kl P : list (merge_key * record)) :
  distinct_keys P ->
  exists N,
    set_all P kl
    = map (fun p => (fst p, default (snd p) (last_match (fst p) kl))) P ++ N
    /\ forall k v, (k, v) ∈ N ->
         present k P = false /\ last_match k kl = Some v.
Proof.
  revert P. induction kl as [|[k v] kl IH]; intros P Hd.
  - exists []. simpl. rewrite app_nil_r. split.
    + induction P as [|[k v] P IHP]; simpl; [reflexivity|].
      f_equal. apply IHP. by destruct Hd.
    + intros k v Hin. by apply elem_of_nil in Hin.
  - simpl. destruct (present k P) eqn:Ep.
    + destruct (IH (dict_set P k v) (distinct_keys_dict_set P k v Hd))
        as (N & HN & Hprop).
      exists N. split.
      * rewrite HN. f_equal. rewrite (dict_set_present P k v Hd Ep).
        rewrite map_map. apply map_ext. intros [k0 v0]. simpl.
        destruct (last_match k0 kl); simpl; [reflexivity|].
        rewrite (key_eqb_sym k k0). by destruct (key_eqb k0 k).
      * intros k0 v0 Hin. destruct (Hprop k0 v0 Hin) as [H1 H2].
        rewrite present_dict_set in H1. apply orb_false_iff in H1 as [_ H1].
        split; [exact H1|]. by rewrite H2.
    + assert (Hd' : distinct_keys (P ++ [(k, v)])).
      { rewrite <- (dict_set_absent P k v Ep).
        by apply distinct_keys_dict_set. }
      destruct (IH (P ++ [(k, v)]) Hd') as (N & HN & Hprop).
      exists ((k, default v (last_match k kl)) :: N). split.
      * rewrite (dict_set_absent P k v Ep), HN, map_app, <- app_assoc.
        simpl. f_equal. apply map_ext_in. intros [k0 v0] Hin. simpl.
        apply list_elem_of_In in Hin.
        destruct (last_match k0 kl); simpl; [reflexivity|].
        rewrite (key_eqb_sym k k0).
        by rewrite (present_false_elem P k k0 v0 Ep Hin).
      * intros k0 v0 Hin. apply elem_of_cons in Hin as [[= -> ->] | Hin].
        -- split; [exact Ep|]. rewrite key_eqb_refl.
           by destruct (last_match k kl).
        -- destruct (Hprop k0 v0 Hin) as [H1 H2].
           unfold present in H1. rewrite existsb_app in H1.
           apply orb_false_iff in H1 as [H1 _].
           split; [exact H1|]. by rewrite H2.
Qed.

Lemma set_all_distinct (kl m : list (merge_key * record)) :
  distinct_keys (m ++ kl) -> set_all m kl = m ++ kl.
Proof.
  revert m. induction kl as [|[k v] kl IH]; intros m Hd; simpl.
  - by rewrite app_nil_r.
  - destruct (distinct_keys_app _ _ Hd) as (_ & _ & Hcross).
    assert (Ep : present k m = false).
    { unfold present. apply not_true_is_false. intros H.
      apply existsb_exists in H as ([k0 v0] & Hin & Hk).
      apply list_elem_of_In in Hin. simpl in Hk.
      specialize (Hcross k0 v0 Hin). unfold present in Hcross. simpl in Hcross.
      apply orb_false_iff in Hcross as [Hc _].
      rewrite key_eqb_sym in Hc. congruence. }
    rewrite (dict_set_absent m k v Ep), IH; rewrite <- app_assoc; done.
Qed.

Lemma distinct_keys_sublist (m1 m2 : list (merge_key * record)) :
  sublist m1 m2 -> distinct_keys m2 -> distinct_keys m1.
Proof.
  induction 1 as [|[k v] l1 l2 Hs IH|[k v] l1 l2 Hs IH]; simpl; [auto|..].
  - intros [Hk Hd]. split; [|by apply IH].
    apply not_true_is_false. intros Hp.
    apply existsb_exists in Hp as ([k0 v0] & Hin & Hk0).
    apply list_elem_of_In in Hin.
    assert (Hin2 : (k0, v0) ∈ l2) by (eapply elem_of_sublist; eauto).
    by rewrite (present_elem l2 k k0 v0 Hin2 Hk0) in Hk.
  - intros [_ Hd]. by apply IH.
Qed.

Lemma keyed_sublist (l1 l2 : list record) (k2 : list (merge_key * record)) :
  sublist l1 l2 -> keyed l2 = Ok k2 ->
  exists k1, keyed l1 = Ok k1 /\ sublist k1 k2.
Proof.
  intros Hs. revert k2.
  induction Hs as [|x l1 l2 Hs IH|x l1 l2 Hs IH]; intros k2 H; simpl in H.
  - injection H as <-. exists []. split; [reflexivity | constructor].
  - destruct (make_key x) as [k|e] eqn:Ek; [|discriminate]. simpl in H.
    destruct (keyed l2) as [rest|e]; [|discriminate]. simpl in H.
    injection H as <-. destruct (IH rest eq_refl) as (k1 & Hk1 & Hsub).
    exists ((k, x) :: k1). simpl. rewrite Ek, Hk1. simpl.
    split; [reflexivity | by constructor].
  - destruct (make_key x) as [k|e] eqn:Ek; [|discriminate]. simpl in H.
    destruct (keyed l2) as [rest|e]; [|discriminate]. simpl in H.
    injection H as <-. destruct (IH rest eq_refl) as (k1 & Hk1 & Hsub).
    exists k1. split; [exact Hk1 | by constructor].
Qed.

(** Recomputing the keys of the values of a dictionary gives a dictionary
    with the same values and keys equal to the old ones. *)
Lemma keyed_values (m : list (merge_key * record)) :
  keys_ok m -> distinct_keys m ->
  exists m', keyed (map snd m) = Ok m' /\ distinct_keys m'
    /\ forall k, present k m' = present k m.
Proof.
  induction m as [|[k v] m IH]; intros Hok Hd.
  - exists []. simpl. auto.
  - simpl in Hd. destruct Hd as [Hk Hd].
    destruct IH as (m' & Hm' & Hd' & Hp');
      [intros k0 v0 H; apply Hok; by right | exact Hd |].
    destruct (Hok k v) as (k' & Hk' & Hkk'); [by left|].
    exists ((k', v) :: m'). simpl. rewrite Hk', Hm'. simpl.
    split; [reflexivity|]. split.
    + split; [|exact Hd']. rewrite Hp'.
      rewrite <- (present_congr m k k' Hkk'). exact Hk.
    + intros k0. unfold present. simpl.
      rewrite (key_eqb_congr_l k k' k0 Hkk'). f_equal. apply Hp'.
Qed.

End MergeKeys.

Section CrossRunMerge.
Import Py Extractor.

Lemma last_match_keyed (items : list record) (kl : list (merge_key * record))
    (k : merge_key) :
  keyed items = Ok kl -> last_match k kl = last_with_key k items.
Proof.
  revert kl. induction items as [|x items IH]; intros kl H; simpl in H.
  - by injection H as <-.
  - destruct (make_key x) as [kx|e] eqn:Ek; [|discriminate]. simpl in H.
    destruct (keyed items) as [rest|e]; [|discriminate]. simpl in H.
    injection H as <-. simpl. by rewrite (IH rest eq_refl), Ek.
Qed.

Lemma keyed_elem_inv (items : list record) (kl : list (merge_key * record))
    (x : record) (kx : merge_key) :
  keyed items = Ok kl -> x ∈ items -> make_key x = Ok kx -> (kx, x) ∈ kl.
Proof.
  revert kl. induction items as [|y items IH]; intros kl H Hin Hk.
  - by apply elem_of_nil in Hin.
  - simpl in H. destruct (make_key y) as [ky|e] eqn:Ek; [|discriminate].
    simpl in H. destruct (keyed items) as [rest|e]; [|discriminate].
    simpl in H. injection H as <-.
    apply elem_of_cons in Hin as [-> | Hin].
    + rewrite Hk in Ek. injection Ek as ->. by left.
    + right. by apply IH.
Qed.

Lemma last_with_key_app (k : merge_key) (a b : list record) :
  last_with_key k (a ++ b)
  = match last_with_key k b with
    | Some y => Some y
    | None => last_with_key k a
    end.
Proof.
  induction a as [|x a IH]; simpl.
  - by destruct (last_with_key k b).
  - rewrite IH. by destruct (last_with_key k b).
Qed.

Lemma last_with_key_elem (k : merge_key) (items : list record) (y : record) :
  last_with_key k items = Some y -> y ∈ items.
Proof.
  induction items as [|x items IH]; simpl; [discriminate|].
  destruct (last_with_key k items) as [z|].
  - intros [= ->]. right. by apply IH.
  - destruct (make_key x) as [kx|e]; [|discriminate].
    destruct (key_eqb kx k); [|discriminate]. intros [= <-]. by left.
Qed.

Lemma last_with_key_some (k kx : merge_key) (items : list record) (x : record) :
  x ∈ items -> make_key x = Ok kx -> key_eqb kx k = true ->
  exists y, last_with_key k items = Some y.
Proof.
  induction items as [|z items IH]; intros Hin Hk Heq.
  - by apply elem_of_nil in Hin.
  - simpl. destruct (last_with_key k items) as [y|] eqn:E; [eauto|].
    apply elem_of_cons in Hin as [<- | Hin].
    + rewrite Hk, Heq. eauto.
    + destruct (IH Hin Hk Heq) as [y Hy]. discriminate.
Qed.

Lemma last_with_key_congr (k1 k2 : merge_key) (items : list record) :
  key_eqb k1 k2 = true -> last_with_key k1 items = last_with_key k2 items.
Proof.
  intros H. induction items as [|x items IH]; simpl; [reflexivity|].
  rewrite IH. destruct (last_with_key k2 items); [reflexivity|].
  destruct (make_key x) as [kx|e]; [|reflexivity].
  by rewrite (key_eqb_congr_r k1 k2 kx H).
Qed.

Lemma distinct_keys_lookup (m : list (merge_key * record)) (i j : nat)
    (k1 k2 : merge_key) (y1 y2 : record) :
  distinct_keys m -> m !! i = Some (k1, y1) -> m !! j = Some (k2, y2) ->
  i <> j -> key_eqb k1 k2 = false.
Proof.
  revert i j. induction m as [|[k v] m IH]; intros i j Hd Hi Hj Hij.
  - discriminate.
  - simpl in Hd. destruct Hd as [Hk Hd]. destruct i as [|i], j as [|j].
    + done.
    + simpl in Hi, Hj. injection Hi as -> ->.
      apply list_elem_of_lookup_2 in Hj.
      rewrite key_eqb_sym. by apply (present_false_elem m k1 k2 y2 Hk Hj).
    + simpl in Hi, Hj. injection Hj as -> ->.
      apply list_elem_of_lookup_2 in Hi.
      by apply (present_false_elem m k2 k1 y1 Hk Hi).
    + simpl in Hi, Hj. apply (IH i j Hd Hi Hj). congruence.
Qed.

Lemma keys_ok_nil : keys_ok [].
Proof. intros k v H. by apply elem_of_nil in H. Qed.

(** The merge, through the keyed items of the two lists. *)
Lemma merge_across_runs_keyed (existing new_items : list record)
    (kl : list (merge_key * record)) :
  keyed (existing ++ new_items) = Ok kl ->
  merge_across_runs existing new_items = Ok (map snd (set_all [] kl)).
Proof.
  intros H. unfold merge_across_runs. rewrite keyed_app in H.
  rewrite !insert_all_keyed.
  destruct (keyed existing) as [kE|e]; [|discriminate]. simpl in *.
  rewrite insert_all_keyed.
  destruct (keyed new_items) as [kN|e]; [|discriminate]. simpl in *.
  injection H as <-. by rewrite set_all_app.
Qed.

(** C3, as the code has it.  The merge is a union by the exact key
    (indicator, date or year, value, unit, source), the value compared as
    it is, without rounding.  When every key can be computed the merge
    returns a table in which each key of the two lists keeps its latest
    record and nothing else, no two records share a key, and a saved
    record whose key a new record has is replaced by the latest new record
    with that key. *)
Theorem C3_merge_keeps_the_latest_record_of_each_exact_key
    (existing new_items : list record) :
  (forall r, r ∈ existing ++ new_items -> exists k, make_key r = Ok k) ->
  exists merged,
    merge_across_runs existing new_items = Ok merged
    /\ (forall x kx, x ∈ existing ++ new_items -> make_key x = Ok kx ->
          exists y, y ∈ merged
            /\ last_with_key kx (existing ++ new_items) = Some y)
    /\ (forall y, y ∈ merged ->
          exists ky, make_key y = Ok ky
            /\ last_with_key ky (existing ++ new_items) = Some y)
    /\ (forall i j y1 y2 k1 k2,
          merged !! i = Some y1 -> merged !! j = Some y2 -> i <> j ->
          make_key y1 = Ok k1 -> make_key y2 = Ok k2 ->
          key_eqb k1 k2 = false)
    /\ (forall old new k_old k_new,
          old ∈ existing -> new ∈ new_items ->
          make_key old = Ok k_old -> make_key new = Ok k_new ->
          key_eqb k_old k_new = true ->
          exists y, y ∈ merged /\ y ∈ new_items
            /\ last_with_key k_new new_items = Some y
            /\ (old ∈ merged -> old = y)).
Proof.
  intros Hkeys. destruct (keyed_total _ Hkeys) as [kl Hkl].
  set (items := existing ++ new_items) in *.
  set (m := set_all [] kl).
  assert (Hd : distinct_keys m) by (by apply distinct_keys_set_all).
  assert (Hok : keys_ok m).
  { apply keys_ok_set_all; [apply keys_ok_nil|].
    apply (keyed_elem items kl Hkl). }
  assert (Hlook : forall k, lookup_key m k = last_with_key k items).
  { intros k. unfold m. rewrite lookup_key_set_all, (last_match_keyed _ _ _ Hkl).
    by destruct (last_with_key k items). }
  assert (H1 : forall x kx, x ∈ items -> make_key x = Ok kx ->
            exists y, y ∈ map snd m /\ last_with_key kx items = Some y).
  { intros x kx Hin Hk.
    destruct (last_with_key_some kx kx items x Hin Hk (key_eqb_refl kx))
      as [y Hy].
    exists y. split; [|exact Hy]. rewrite <- Hlook in Hy.
    apply lookup_key_elem in Hy as (k' & Hin' & _).
    apply list_elem_of_fmap. by exists (k', y). }
  assert (H2 : forall y, y ∈ map snd m ->
            exists ky, make_key y = Ok ky /\ last_with_key ky items = Some y).
  { intros y Hy. apply list_elem_of_fmap in Hy as ([k y'] & -> & Hin).
    simpl. destruct (Hok k y' Hin) as (ky & Hky & Hkk).
    exists ky. split; [exact Hky|].
    rewrite <- Hlook, <- (lookup_key_congr m k ky Hkk).
    by apply elem_lookup_key. }
  exists (map snd m). split; [by apply merge_across_runs_keyed|].
  split; [exact H1|]. split; [exact H2|]. split.
  - intros i j y1 y2 k1 k2 Hi Hj Hij Hk1 Hk2.
    rewrite list_lookup_fmap in Hi, Hj.
    destruct (m !! i) as [[k1' y1']|] eqn:Ei; [|discriminate].
    destruct (m !! j) as [[k2' y2']|] eqn:Ej; [|discriminate].
    simpl in Hi, Hj. injection Hi as ->. injection Hj as ->.
    destruct (Hok k1' y1) as (k1'' & Hk1'' & Hkk1);
      [by eapply list_elem_of_lookup_2|].
    destruct (Hok k2' y2) as (k2'' & Hk2'' & Hkk2);
      [by eapply list_elem_of_lookup_2|].
    rewrite Hk1 in Hk1''. injection Hk1'' as <-.
    rewrite Hk2 in Hk2''. injection Hk2'' as <-.
    rewrite <- (key_eqb_congr_l k1' k1 k2 Hkk1).
    rewrite <- (key_eqb_congr_r k2' k2 k1' Hkk2).
    by apply (distinct_keys_lookup m i j k1' k2' y1 y2).
  - intros old new k_old k_new Hold Hnew Hko Hkn Heq.
    destruct (last_with_key_some k_new k_new new_items new Hnew Hkn
                (key_eqb_refl _)) as [y Hy].
    assert (Hall : last_with_key k_new items = Some y).
    { unfold items. by rewrite last_with_key_app, Hy. }
    exists y. split.
    + destruct (H1 new k_new) as (y' & Hy' & Hl); [|exact Hkn|].
      * apply elem_of_app. by right.
      * rewrite Hall in Hl. by injection Hl as ->.
    + split; [by eapply last_with_key_elem|]. split; [exact Hy|].
      intros Hom. destruct (H2 old Hom) as (ko & Hko' & Hlo).
      rewrite Hko in Hko'. injection Hko' as <-.
      rewrite (last_with_key_congr k_old k_new items Heq), Hall in Hlo.
      by injection Hlo.
Qed.

(** Two records, one saved and one new. *)
Lemma merge_two_records (old new : record) (k_old k_new : merge_key) :
  make_key old = Ok k_old -> make_key new = Ok k_new ->
  merge_across_runs [old] [new]
  = Ok (if key_eqb k_old k_new then [new] else [old; new]).
Proof.
  intros Ho Hn. unfold merge_across_runs. simpl. rewrite Ho. simpl.
  rewrite Hn. simpl. by destruct (key_eqb k_old k_new).
Qed.

End CrossRunMerge.

(** Membership in a list of string literals. *)
Ltac not_in_literals :=
  repeat (apply not_elem_of_cons; split; [discriminate|]);
  apply not_elem_of_nil.

Ltac in_literals_cases H tac :=
  repeat (apply elem_of_cons in H as [->|H]; [tac|]);
  by apply elem_of_nil in H.

Section AliasKeys.
Import Py Extractor.

Lemma alias_canonical_insert (rec : record) (k : string) (v : pyval) :
  alias_canonical rec = rec -> k <> "Canonical Name" ->
  alias_canonical (<[k := v]> rec) = <[k := v]> rec.
Proof.
  unfold alias_canonical. intros H Hk.
  rewrite (lookup_insert_ne rec k "Canonical Name" v Hk).
  destruct (rec !! "Canonical Name") as [c|]; [|reflexivity].
  destruct (decide (k = "CanonicalIndicator")) as [->|Hne].
  - by rewrite lookup_insert_eq.
  - rewrite (lookup_insert_ne rec k "CanonicalIndicator" v Hne).
    destruct (rec !! "CanonicalIndicator") as [ci|] eqn:E; [reflexivity|].
    exfalso. apply (f_equal (fun m => m !! "CanonicalIndicator")) in H.
    by rewrite lookup_insert_eq, E in H.
Qed.

Lemma alias_canonical_idempotent (rec : record) :
  alias_canonical (alias_canonical rec) = alias_canonical rec.
Proof.
  unfold alias_canonical.
  destruct (rec !! "Canonical Name") as [c|] eqn:Ec; [|by rewrite Ec].
  destruct (rec !! "CanonicalIndicator") as [ci|] eqn:Ei; [by rewrite Ec, Ei|].
  rewrite lookup_insert_ne by done. by rewrite Ec, lookup_insert_eq.
Qed.

Lemma first_str_insert (rec : record) (k : string) (v : pyval)
    (keys : list string) :
  k ∉ keys -> first_str (<[k := v]> rec) keys = first_str rec keys.
Proof.
  induction keys as [|k0 keys IH]; intros Hk; simpl; [reflexivity|].
  apply not_elem_of_cons in Hk as [Hne Hk].
  rewrite (lookup_insert_ne rec k k0 v Hne), (IH Hk). reflexivity.
Qed.

Lemma alias_indicator_insert (rec : record) (k : string) (v : pyval) :
  alias_indicator rec = rec ->
  k ∉ ["Indicator Name"; "indicator"; "name"] ->
  alias_indicator (<[k := v]> rec) = <[k := v]> rec.
Proof.
  unfold alias_indicator. intros H Hk. rewrite (first_str_insert rec k v _ Hk).
  destruct (decide (k = "Indicator")) as [->|Hne].
  - by rewrite lookup_insert_eq.
  - rewrite (lookup_insert_ne rec k "Indicator" v Hne).
    destruct (rec !! "Indicator") as [i|] eqn:E; [reflexivity|].
    destruct (first_str rec _) as [w|]; [|reflexivity].
    exfalso. apply (f_equal (fun m => m !! "Indicator")) in H.
    by rewrite lookup_insert_eq, E in H.
Qed.

Lemma alias_indicator_idempotent (rec : record) :
  alias_indicator (alias_indicator rec) = alias_indicator rec.
Proof.
  unfold alias_indicator.
  destruct (rec !! "Indicator") as [i|] eqn:Ei; [by rewrite Ei|].
  destruct (first_str rec _) as [w|] eqn:Ef; [|by rewrite Ei, Ef].
  by rewrite lookup_insert_eq.
Qed.

Lemma alias_source_url_insert (rec : record) (k : string) (v : pyval) :
  alias_source_url rec = rec -> k <> "URL" ->
  alias_source_url (<[k := v]> rec) = <[k := v]> rec.
Proof.
  unfold alias_source_url. intros H Hk.
  rewrite (lookup_insert_ne rec k "URL" v Hk).
  destruct (decide (k = "SourceURL")) as [->|Hne].
  - by rewrite lookup_insert_eq.
  - rewrite (lookup_insert_ne rec k "SourceURL" v Hne).
    destruct (rec !! "SourceURL") as [u|] eqn:E; [reflexivity|].
    destruct (rec !! "URL") as [[| | | |w]|]; try reflexivity.
    exfalso. apply (f_equal (fun m => m !! "SourceURL")) in H.
    by rewrite lookup_insert_eq, E in H.
Qed.

Lemma alias_source_url_idempotent (rec : record) :
  alias_source_url (alias_source_url rec) = alias_source_url rec.
Proof.
  unfold alias_source_url.
  destruct (rec !! "SourceURL") as [u|] eqn:Eu; [by rewrite Eu|].
  destruct (rec !! "URL") as [[| | | |w]|] eqn:Ew; try (by rewrite Eu, Ew).
  by rewrite lookup_insert_eq.
Qed.

(** Each statement only adds a field that was missing. *)
Lemma alias_canonical_extends (rec : record) : rec ⊆ alias_canonical rec.
Proof.
  unfold alias_canonical.
  destruct (rec !! "Canonical Name"); [|done].
  destruct (rec !! "CanonicalIndicator") eqn:E; [done|].
  by apply insert_subseteq.
Qed.

Lemma alias_indicator_extends (rec : record) : rec ⊆ alias_indicator rec.
Proof.
  unfold alias_indicator.
  destruct (rec !! "Indicator") eqn:E; [done|].
  destruct (first_str rec _); [|done]. by apply insert_subseteq.
Qed.

Lemma alias_source_url_extends (rec : record) : rec ⊆ alias_source_url rec.
Proof.
  unfold alias_source_url.
  destruct (rec !! "SourceURL") eqn:E; [done|].
  destruct (rec !! "URL") as [[| | | |w]|]; try done.
  by apply insert_subseteq.
Qed.

Lemma alias_indicator_keeps (rec : record) (f : record -> record) :
  (forall r k v, f r = r -> k = "Indicator" -> f (<[k := v]> r) = <[k := v]> r) ->
  f rec = rec -> f (alias_indicator rec) = alias_indicator rec.
Proof.
  intros Hf H. unfold alias_indicator.
  destruct (rec !! "Indicator"); [exact H|].
  destruct (first_str rec _); [|exact H]. by apply Hf.
Qed.

Lemma alias_source_url_keeps (rec : record) (f : record -> record) :
  (forall r k v, f r = r -> k = "SourceURL" -> f (<[k := v]> r) = <[k := v]> r) ->
  f rec = rec -> f (alias_source_url rec) = alias_source_url rec.
Proof.
  intros Hf H. unfold alias_source_url.
  destruct (rec !! "SourceURL"); [exact H|].
  destruct (rec !! "URL") as [[| | | |w]|]; try exact H. by apply Hf.
Qed.

(** A record is in alias-normal form when [_alias_keys] leaves it as it
    is; that is the case exactly when each of the three statements does. *)
Lemma alias_fixed_steps (rec : record) :
  _alias_keys rec = rec <->
  alias_canonical rec = rec /\ alias_indicator rec = rec
  /\ alias_source_url rec = rec.
Proof.
  unfold _alias_keys. split.
  - intros H.
    pose proof (alias_canonical_extends rec) as H1.
    pose proof (alias_indicator_extends (alias_canonical rec)) as H2.
    pose proof (alias_source_url_extends
                  (alias_indicator (alias_canonical rec))) as H3.
    rewrite H in H3.
    assert (E1 : alias_canonical rec = rec).
    { apply (anti_symm (⊆)); [|exact H1]. by trans (alias_indicator (alias_canonical rec)). }
    rewrite E1 in H2, H3, H.
    assert (E2 : alias_indicator rec = rec).
    { by apply (anti_symm (⊆)). }
    rewrite E2 in H. auto.
  - intros (H1 & H2 & H3). by rewrite H1, H2, H3.
Qed.

Lemma _alias_keys_idempotent (rec : record) :
  _alias_keys (_alias_keys rec) = _alias_keys rec.
Proof.
  apply alias_fixed_steps. unfold _alias_keys.
  split; [|split].
  - apply alias_source_url_keeps.
    { intros r k v Hr ->. by apply alias_canonical_insert. }
    apply alias_indicator_keeps.
    { intros r k v Hr ->. by apply alias_canonical_insert. }
    apply alias_canonical_idempotent.
  - apply alias_source_url_keeps.
    { intros r k v Hr ->. apply alias_indicator_insert; [exact Hr|].
      not_in_literals. }
    apply alias_indicator_idempotent.
  - apply alias_source_url_idempotent.
Qed.

(** The fields that [_normalize_record] assigns after [_alias_keys]. *)
Lemma _alias_keys_fixed_insert (rec : record) (k : string) (v : pyval) :
  _alias_keys rec = rec ->
  k ∈ ["SourceURL"; "CanonicalIndicator"; "Value"; "Unit"; "Year";
       "page_content"] ->
  _alias_keys (<[k := v]> rec) = <[k := v]> rec.
Proof.
  intros H Hk. apply alias_fixed_steps in H as (H1 & H2 & H3).
  apply alias_fixed_steps. split; [|split].
  - apply alias_canonical_insert; [exact H1|].
    in_literals_cases Hk ltac:(discriminate).
  - apply alias_indicator_insert; [exact H2|].
    in_literals_cases Hk ltac:(not_in_literals).
  - apply alias_source_url_insert; [exact H3|].
    in_literals_cases Hk ltac:(discriminate).
Qed.

End AliasKeys.

Section Idempotence.
Import Py Utils Extractor.
Variable text_ratio : string -> string -> Q.

Lemma dedup_loop_sublist (seen entries out : list record) :
  dedup_loop text_ratio seen entries = Ok out ->
  exists kept, out = seen ++ kept /\ sublist kept entries.
Proof.
  revert seen. induction entries as [|x entries IH]; intros seen H.
  - simpl in H. injection H as <-. exists []. rewrite app_nil_r.
    split; [reflexivity | constructor].
  - simpl in H.
    destruct (find_duplicate text_ratio seen x) as [d|e]; [|discriminate].
    simpl in H. destruct (IH _ H) as (kept & -> & Hsub). destruct d.
    + exists kept. split; [reflexivity | by constructor].
    + exists (x :: kept). split; [by rewrite <- app_assoc | by constructor].
Qed.

Lemma remove_duplicates_idempotent (entries out : list record) :
  remove_duplicates text_ratio entries = Ok out ->
  remove_duplicates text_ratio out = Ok out.
Proof.
  unfold remove_duplicates. intros H.
  destruct (dedup_loop_extends text_ratio _ _ _ H) as (kept & -> & _ & Hk).
  exact Hk.
Qed.

Lemma merge_across_runs_inv (existing new_items merged : list record) :
  merge_across_runs existing new_items = Ok merged ->
  exists kE kN,
    keyed existing = Ok kE /\ keyed new_items = Ok kN
    /\ merged = map snd (set_all (set_all [] kE) kN).
Proof.
  unfold merge_across_runs. rewrite insert_all_keyed.
  destruct (keyed existing) as [kE|e]; [|discriminate]. simpl.
  rewrite insert_all_keyed.
  destruct (keyed new_items) as [kN|e]; [|discriminate]. simpl.
  intros [= <-]. by exists kE, kN.
Qed.

Lemma _alias_list_fixed (l : list record) :
  (forall r, r ∈ l -> _alias_keys r = r) -> _alias_list l = l.
Proof.
  unfold _alias_list. induction l as [|x l IH]; intros H; simpl; [reflexivity|].
  rewrite (H x) by (by left). f_equal. apply IH. intros r Hr. apply H. by right.
Qed.

(** Merging the same new records into the table they produced, and
    de-duplicating, gives that table again. *)
Lemma merge_and_dedup_idempotent (saved this_run table : list record) :
  (forall r, r ∈ this_run -> _alias_keys r = r) ->
  merge_and_dedup text_ratio saved this_run = Ok table ->
  merge_and_dedup text_ratio table this_run = Ok table.
Proof.
  intros Hfix H. unfold merge_and_dedup in H.
  destruct (merge_across_runs (_alias_list saved) this_run) as [M1|e] eqn:EM;
    [|discriminate].
  simpl in H.
  destruct (remove_duplicates text_ratio M1) as [U1|e] eqn:EU; [|discriminate].
  simpl in H. injection H as <-.
  destruct (merge_across_runs_inv _ _ _ EM) as (kE & kR & HkE & HkR & ->).
  set (mE := set_all [] kE) in *. set (m1 := set_all mE kR) in *.
  assert (Hd1 : distinct_keys m1).
  { apply distinct_keys_set_all. by apply distinct_keys_set_all. }
  assert (Hok1 : keys_ok m1).
  { apply keys_ok_set_all; [apply keys_ok_set_all; [apply keys_ok_nil|]|].
    - apply (keyed_elem _ _ HkE).
    - apply (keyed_elem _ _ HkR). }
  (* every record of the first merge is in alias-normal form *)
  assert (HfixM : forall r, r ∈ map snd m1 -> _alias_keys r = r).
  { intros r Hr. apply list_elem_of_fmap in Hr as ([k r'] & -> & Hin). simpl.
    destruct (set_all_elem _ _ _ _ Hin) as [[k' Hk'] | [k' Hk']].
    - destruct (set_all_elem _ _ _ _ Hk') as [[k'' Hk''] | [k'' Hk'']].
      + by apply elem_of_nil in Hk''.
      + assert (Hr : r' ∈ _alias_list saved).
        { rewrite <- (proj1 (keyed_elem _ _ HkE)).
          apply list_elem_of_fmap. by exists (k'', r'). }
        unfold _alias_list in Hr.
        apply list_elem_of_fmap in Hr as (r0 & -> & _).
        apply _alias_keys_idempotent.
    - apply Hfix. rewrite <- (proj1 (keyed_elem _ _ HkR)).
      apply list_elem_of_fmap. by exists (k', r'). }
  destruct (dedup_loop_sublist _ _ _ EU) as (kept & HU1 & Hsub).
  simpl in HU1. subst kept.
  assert (HT : _alias_list U1 = U1).
  { apply _alias_list_fixed. intros r Hr. apply HfixM.
    by eapply elem_of_sublist. }
  rewrite HT. unfold merge_and_dedup. rewrite HT.
  (* the keys of the table, recomputed *)
  destruct (keyed_values m1 Hok1 Hd1) as (m1' & Hm1' & Hd1' & _).
  destruct (keyed_sublist _ _ _ Hsub Hm1') as (kT & HkT & HsubT).
  assert (HdT : distinct_keys kT) by (by eapply distinct_keys_sublist).
  assert (Hmerge : merge_across_runs U1 this_run
                   = Ok (map snd (set_all kT kR))).
  { unfold merge_across_runs. rewrite insert_all_keyed, HkT. simpl.
    rewrite insert_all_keyed, HkR. simpl.
    rewrite (set_all_distinct kT []); [reflexivity | exact HdT]. }
  rewrite Hmerge. simpl.
  destruct (set_all_structure kR kT HdT) as (N & HN & HNprop).
  assert (Hlook : forall k, lookup_key m1 k
            = match last_match k kR with
              | Some v => Some v
              | None => lookup_key mE k
              end).
  { intros k. unfold m1. apply lookup_key_set_all. }
  assert (Hkept : map snd
            (map (fun p => (fst p, default (snd p) (last_match (fst p) kR))) kT)
          = U1).
  { rewrite map_map. transitivity (map snd kT);
      [|exact (proj1 (keyed_elem _ _ HkT))].
    apply map_ext_in. intros [k t] Hin. simpl.
    apply list_elem_of_In in Hin.
    destruct (last_match k kR) as [y|] eqn:Ey; [|reflexivity]. simpl.
    assert (Ht : t ∈ map snd m1).
    { eapply elem_of_sublist; [|exact Hsub].
      rewrite <- (proj1 (keyed_elem _ _ HkT)).
      apply list_elem_of_fmap. by exists (k, t). }
    apply list_elem_of_fmap in Ht as ([k1 t'] & Et & Hin1). simpl in Et.
    subst t'. destruct (Hok1 k1 t Hin1) as (k' & Hk' & Hkk').
    rewrite (proj2 (keyed_elem _ _ HkT) k t Hin) in Hk'. injection Hk' as <-.
    pose proof (elem_lookup_key m1 k1 t Hd1 Hin1) as Hl.
    rewrite (lookup_key_congr m1 k1 k Hkk'), Hlook, Ey in Hl.
    by injection Hl. }
  rewrite HN, map_app, Hkept.
  unfold remove_duplicates. rewrite dedup_loop_app.
  unfold remove_duplicates in EU.
  pose proof (remove_duplicates_idempotent _ _ EU) as Hidem.
  unfold remove_duplicates in Hidem. rewrite Hidem. simpl.
  rewrite dedup_loop_all_duplicates; [simpl; by rewrite HT|].
  intros d Hd. apply list_elem_of_fmap in Hd as ([k d'] & -> & Hin). simpl.
  destruct (HNprop k d' Hin) as [Hnp Hlm].
  assert (Hd1m : d' ∈ map snd m1).
  { pose proof (Hlook k) as Hl. rewrite Hlm in Hl.
    apply lookup_key_elem in Hl as (k' & Hin' & _).
    apply list_elem_of_fmap. by exists (k', d'). }
  destruct (dedup_loop_dropped text_ratio _ _ _ EU d' Hd1m) as [HinU | Hdup];
    [|exact Hdup].
  exfalso.
  rewrite <- (proj1 (keyed_elem _ _ HkT)) in HinU.
  apply list_elem_of_fmap in HinU as ([kd d''] & Ed & HinT). simpl in Ed.
  subst d''.
  apply last_match_elem in Hlm as (k'' & HinR & Hk'').
  pose proof (proj2 (keyed_elem _ _ HkR) k'' d' HinR) as Hmk.
  rewrite (proj2 (keyed_elem _ _ HkT) kd d' HinT) in Hmk. injection Hmk as ->.
  by rewrite (present_elem kT k k'' d' HinT Hk'') in Hnp.
Qed.

End Idempotence.

Section Idem2.
Import Py Utils Extractor.
Variable text_ratio : string -> string -> Q.

(** C1.  Merging the records of a run into the persisted table and
    de-duplicating, then doing the same again with the same records on the
    table that was written, returns that table unchanged: the same
    records with the same fields, in the same order.  The records of a run
    are in the form [_normalize_record] leaves them in, which
    [_alias_keys] does not change. *)
Theorem C1_merging_the_same_records_again_changes_nothing
    (saved this_run table : list record) :
  (forall r, r ∈ this_run -> _alias_keys r = r) ->
  merge_and_dedup text_ratio saved this_run = Ok table ->
  merge_and_dedup text_ratio table this_run = Ok table.
Proof. apply merge_and_dedup_idempotent. Qed.

Lemma filter_valid_sublist (normalized filtered : list record) :
  filter_valid normalized = Ok filtered -> sublist filtered normalized.
Proof.
  revert filtered. induction normalized as [|x l IH]; intros filtered H.
  - simpl in H. injection H as <-. constructor.
  - simpl in H. destruct (is_valid_entry x) as [ok|e]; [|discriminate].
    simpl in H. destruct (filter_valid l) as [rest|e]; [|discriminate].
    simpl in H. injection H as <-.
    destruct ok; constructor; by apply IH.
Qed.

Lemma persist_run_idempotent (normalized saved table : list record) :
  (forall r, r ∈ normalized -> _alias_keys r = r) ->
  persist_run text_ratio normalized saved = Ok table ->
  persist_run text_ratio normalized table = Ok table.
Proof.
  intros Hfix H. unfold persist_run in *.
  destruct (filter_valid normalized) as [filtered|e] eqn:Ef; [|discriminate].
  simpl in *.
  destruct (remove_duplicates text_ratio filtered) as [deduped|e] eqn:Ed;
    [|discriminate].
  simpl in *.
  apply (merge_and_dedup_idempotent text_ratio saved deduped table); [|exact H].
  intros r Hr. apply Hfix.
  destruct (dedup_loop_sublist text_ratio _ _ _ Ed) as (kept & Hk & Hs).
  simpl in Hk. subst kept.
  eapply elem_of_sublist; [|by apply filter_valid_sublist].
  by eapply elem_of_sublist.
Qed.
End Idem2.


Section SmallCases.
Import Py Utils Extractor.
Variable text_ratio : string -> string -> Q.

Lemma merge_two_distinct_new (a b : record) (ka kb : merge_key) :
  make_key a = Ok ka -> make_key b = Ok kb -> key_eqb ka kb = false ->
  merge_across_runs [] [a; b] = Ok [a; b].
Proof.
  intros Ha Hb Hk. unfold merge_across_runs. simpl. rewrite Ha. simpl.
  rewrite Hb. simpl. by rewrite Hk.
Qed.

Lemma remove_duplicates_pair (a b : record) :
  is_duplicate text_ratio a b = Ok false ->
  remove_duplicates text_ratio [a; b] = Ok [a; b].
Proof.
  intros H. unfold remove_duplicates. simpl. by rewrite H.
Qed.

End SmallCases.

Section Examples.
Import Py Utils Extractor Samples.

Lemma observation_alias_normal (indicator : string) (year : Z) (value : Q)
    (raw_text : string) :
  _alias_keys (observation indicator year value raw_text)
  = observation indicator year value raw_text.
Proof.
  apply alias_fixed_steps.
  assert (H1 : observation indicator year value raw_text !! "Canonical Name"
               = None) by (vm_compute; reflexivity).
  assert (H2 : observation indicator year value raw_text !! "Indicator"
               = Some (PStr indicator)) by (vm_compute; reflexivity).
  assert (H3 : observation indicator year value raw_text !! "URL" = None)
    by (vm_compute; reflexivity).
  assert (H4 : observation indicator year value raw_text !! "SourceURL" = None)
    by (vm_compute; reflexivity).
  unfold alias_canonical, alias_indicator, alias_source_url.
  rewrite H1, H2, H3, H4. auto.
Qed.

Lemma C1_witness :
  (forall r, r ∈ [obs_100; obs_150] -> _alias_keys r = r)
  /\ merge_and_dedup Difflib.ratio [] [obs_100; obs_150]
     = Ok [obs_100; obs_150]
  /\ merge_and_dedup Difflib.ratio [obs_100; obs_150] [obs_100; obs_150]
     = Ok [obs_100; obs_150].
Proof.
  assert (Hfix : forall r, r ∈ [obs_100; obs_150] -> _alias_keys r = r).
  { intros r Hr.
    repeat (apply elem_of_cons in Hr as [->|Hr];
            [apply observation_alias_normal|]).
    by apply elem_of_nil in Hr. }
  assert (H1 : merge_and_dedup Difflib.ratio [] [obs_100; obs_150]
               = Ok [obs_100; obs_150]).
  { unfold merge_and_dedup, _alias_list. cbn [map].
    rewrite (merge_two_distinct_new obs_100 obs_150
               ("inflation", PInt 2023, PFloat 1, "%", "ins.tn")
               ("inflation", PInt 2023, PFloat (3 # 2), "%", "ins.tn"));
      [|vm_compute; reflexivity..].
    cbn [mbind result_bind Py.bind].
    rewrite (remove_duplicates_pair Difflib.ratio obs_100 obs_150);
      [|vm_compute; reflexivity].
    cbn [mbind result_bind Py.bind map].
    by rewrite (Hfix obs_100 ltac:(left)), (Hfix obs_150 ltac:(right; left)). }
  split; [exact Hfix|]. split; [exact H1|].
  exact (C1_merging_the_same_records_again_changes_nothing
           Difflib.ratio [] [obs_100; obs_150] [obs_100; obs_150] Hfix H1).
Defined.
End Examples.

Section MergeExamples.
Import Py Utils Extractor Samples.

Lemma observation_key (year : Z) (value : Q) (raw_text : string) :
  make_key (observation "Inflation" year value raw_text)
  = Ok ("inflation", PInt year, PFloat value, "%", "ins.tn").
Proof. vm_compute. reflexivity. Qed.

Lemma C3_witness :
  (forall r, r ∈ [obs_100] ++ [obs_150] -> exists k, make_key r = Ok k)
  /\ exists merged, merge_across_runs [obs_100] [obs_150] = Ok merged.
Proof.
  assert (H : forall r, r ∈ [obs_100] ++ [obs_150] ->
                exists k, make_key r = Ok k).
  { intros r Hr. simpl in Hr.
    repeat (apply elem_of_cons in Hr as [->|Hr];
            [eexists; apply observation_key|]).
    by apply elem_of_nil in Hr. }
  split; [exact H|].
  destruct (C3_merge_keeps_the_latest_record_of_each_exact_key
              [obs_100] [obs_150] H) as (merged & Hm & _).
  exists merged. exact Hm.
Defined.

(** C3 as stated fails for every rounding that identifies two different
    values: two records that differ in the value only have different keys
    in the code, and both are kept. *)
Lemma C3_counterexample :
  ~ exists rnd : Q -> Q,
      (exists v w : Q, ~ (v == w)%Q /\ (rnd v == rnd w)%Q)
      /\ forall old new k_old k_new,
           make_key old = Ok k_old -> make_key new = Ok k_new ->
           spec_key_eqb rnd k_old k_new = true ->
           merge_across_runs [old] [new] = Ok [new].
Proof.
  intros (rnd & (v & w & Hne & Hr) & H).
  pose proof (observation_key 2023 v "Inflation stood at") as Ho.
  pose proof (observation_key 2023 w "Inflation stood at") as Hn.
  specialize (H _ _ _ _ Ho Hn).
  rewrite (merge_two_records _ _ _ _ Ho Hn) in H.
  assert (Hk : key_eqb ("inflation", PInt 2023, PFloat v, "%", "ins.tn")
                       ("inflation", PInt 2023, PFloat w, "%", "ins.tn")
               = false).
  { cbn. unfold py_eq. cbn. destruct (Qeq_bool v w) eqn:E; [|reflexivity].
    apply Qeq_bool_iff in E. contradiction. }
  rewrite Hk in H.
  assert (Hs : spec_key_eqb rnd
                 ("inflation", PInt 2023, PFloat v, "%", "ins.tn")
                 ("inflation", PInt 2023, PFloat w, "%", "ins.tn") = true).
  { cbn. apply Qeq_bool_iff in Hr. by rewrite Hr. }
  specialize (H Hs).
  apply (f_equal (fun r => match r with
                           | Ok l => length l
                           | Raise _ => 0%nat
                           end)) in H.
  cbn [length] in H. discriminate H.
Qed.

End MergeExamples.

Section ValueExtraction.
Import Re IndicatorMatcher.

(** The branch of line 268: a year-like value without unit and without
    temporal preposition is not a value. *)
Lemma extract_value_year_like (text : string) (val : Q) :
  first_numeric_token (prepare text) = Some (val, None) ->
  (1900 <= val)%Q -> (val <= 2099)%Q ->
  has_temporal_preposition (prepare text) = false ->
  extract_value text = (None, None).
Proof.
  intros Htok Hlo Hhi Htemp. unfold extract_value.
  rewrite Htok, Htemp.
  apply Qle_bool_iff in Hlo, Hhi. rewrite Hlo, Hhi. reflexivity.
Qed.

Lemma matches_value_nondigit (c : ascii) (p : option ascii) (r : list ascii)
    (cs : list (nat * string)) :
  PyStr.is_digit c = false ->
  matches VALUE_PATTERN (State p (c :: r) cs) = [].
Proof.
  intros H. unfold VALUE_PATTERN, NUMBER, RepRange, Plus, digit. cbn.
  rewrite H. reflexivity.
Qed.

Lemma search_skips_nondigits (pre tok : list ascii) (p : option ascii) :
  forallb (fun c => negb (PyStr.is_digit c)) pre = true ->
  exists p', search_from VALUE_PATTERN p (pre ++ tok)
             = search_from VALUE_PATTERN p' tok.
Proof.
  revert p. induction pre as [|c pre IH]; intros p H.
  - exists p. reflexivity.
  - simpl in H. apply andb_true_iff in H as [Hc Hpre].
    apply negb_true_iff in Hc.
    destruct (IH (Some c) Hpre) as [p' Hp']. exists p'.
    simpl. unfold match_at. rewrite (matches_value_nondigit c p _ [] Hc).
    exact Hp'.
Qed.

Lemma list_ascii_of_string_app (a b : string) :
  list_ascii_of_string (a +:+ b)
  = list_ascii_of_string a ++ list_ascii_of_string b.
Proof. induction a as [|c a IH]; simpl; [reflexivity | by rewrite IH]. Qed.

Lemma year_token (y : Z) (p : option ascii) :
  1900 <= y <= 2099 ->
  search_from VALUE_PATTERN p (list_ascii_of_string (pretty y))
    ≫= token_of_match
  = Some (inject_Z y, None).
Proof.
  intros Hy.
  assert (Hn : exists n : nat, (n < 200)%nat /\ y = 1900 + Z.of_nat n).
  { exists (Z.to_nat (y - 1900)). lia. }
  destruct Hn as (n & Hn & ->). clear Hy.
  do 200 (destruct n as [|n]; [vm_compute; reflexivity|]).
  lia.
Qed.

Lemma prepare_app (a b : string) : prepare (a +:+ b) = prepare a +:+ prepare b.
Proof.
  unfold prepare, PyStr.lower.
  induction a as [|c a IH]; simpl; [reflexivity | by rewrite IH].
Qed.

Lemma prepare_char_digit (c : ascii) :
  PyStr.is_digit (nbsp_to_space (PyStr.lower_char c)) = PyStr.is_digit c.
Proof. destruct c as [[] [] [] [] [] [] [] []]; reflexivity. Qed.

Lemma prepare_keeps_nondigits (pre : string) :
  PyStr.all_chars (fun c => negb (PyStr.is_digit c)) pre = true ->
  forallb (fun c => negb (PyStr.is_digit c))
          (list_ascii_of_string (prepare pre)) = true.
Proof.
  unfold prepare, PyStr.lower.
  induction pre as [|c pre IH]; simpl; [reflexivity|].
  intros H. apply andb_true_iff in H as [Hc Hpre].
  by rewrite prepare_char_digit, Hc, (IH Hpre).
Qed.

Lemma prepare_year (y : Z) :
  1900 <= y <= 2099 -> prepare (pretty y) = pretty y.
Proof.
  intros Hy.
  assert (Hn : exists n : nat, (n < 200)%nat /\ y = 1900 + Z.of_nat n).
  { exists (Z.to_nat (y - 1900)). lia. }
  destruct Hn as (n & Hn & ->). clear Hy.
  do 200 (destruct n as [|n]; [vm_compute; reflexivity|]).
  lia.
Qed.

(** A year written at the end of a text that has no digit before it is
    the first numeric token, with no unit. *)
Lemma bare_year_is_first_token (pre : string) (y : Z) :
  PyStr.all_chars (fun c => negb (PyStr.is_digit c)) pre = true ->
  1900 <= y <= 2099 ->
  first_numeric_token (prepare (pre +:+ pretty y)) = Some (inject_Z y, None).
Proof.
  intros Hpre Hy. unfold first_numeric_token, search.
  rewrite prepare_app, (prepare_year y Hy), list_ascii_of_string_app.
  destruct (search_skips_nondigits _ (list_ascii_of_string (pretty y)) None
              (prepare_keeps_nondigits pre Hpre)) as [p' ->].
  by apply year_token.
Qed.

(** C2.  [extract_value] returns (8.5, "%") for "Inflation stood at 8,5 %",
    (1.2e9, "USD") for "GDP reached 1.2 billion USD" and (None, None) for
    the bare "2023"; for every text whose first numeric token has a value
    between 1900 and 2099, carries no unit, and which holds no temporal
    preposition, it returns (None, None); such are the texts that end in a
    year from 1900 to 2099 with no digit before it. *)
Theorem C2_extract_value_examples_and_bare_years :
  extract_value "Inflation stood at 8,5 %" = (Some (17 # 2)%Q, Some "%")
  /\ extract_value "GDP reached 1.2 billion USD"
     = (Some 1200000000%Q, Some "USD")
  /\ extract_value "2023" = (None, None)
  /\ (forall (text : string) (val : Q),
        first_numeric_token (prepare text) = Some (val, None) ->
        (1900 <= val)%Q -> (val <= 2099)%Q ->
        has_temporal_preposition (prepare text) = false ->
        extract_value text = (None, None))
  /\ (forall (pre : string) (y : Z),
        PyStr.all_chars (fun c => negb (PyStr.is_digit c)) pre = true ->
        1900 <= y <= 2099 ->
        has_temporal_preposition (prepare (pre +:+ pretty y)) = false ->
        extract_value (pre +:+ pretty y) = (None, None)).
Proof.
  split; [vm_compute; reflexivity|].
  split; [vm_compute; reflexivity|].
  split; [vm_compute; reflexivity|].
  split; [exact extract_value_year_like|].
  intros pre y Hpre Hy Htemp.
  apply (extract_value_year_like _ (inject_Z y));
    [by apply bare_year_is_first_token | | | exact Htemp].
  - unfold Qle. simpl. lia.
  - unfold Qle. simpl. lia.
Qed.

Lemma C2_witness :
  PyStr.all_chars (fun c => negb (PyStr.is_digit c)) "The bulletin of " = true
  /\ has_temporal_preposition (prepare ("The bulletin of " +:+ pretty 2023))
     = false
  /\ extract_value ("The bulletin of " +:+ pretty 2023) = (None, None)
  /\ first_numeric_token (prepare "Budget 2024 shows") = Some (2024%Q, None)
  /\ extract_value "Budget 2024 shows" = (None, None).
Proof.
  split; [vm_compute; reflexivity|].
  split; [vm_compute; reflexivity|].
  split.
  - apply (proj2 (proj2 (proj2 (proj2
             C2_extract_value_examples_and_bare_years)))
             "The bulletin of " 2023).
    + vm_compute; reflexivity.
    + lia.
    + vm_compute; reflexivity.
  - split; [vm_compute; reflexivity|].
    apply (proj1 (proj2 (proj2 (proj2
             C2_extract_value_examples_and_bare_years)))
             "Budget 2024 shows" 2024%Q).
    + vm_compute; reflexivity.
    + vm_compute; discriminate.
    + vm_compute; discriminate.
    + vm_compute; reflexivity.
Defined.

End ValueExtraction.

(** ** The score of a candidate URL *)
Section UrlScore.
Import Py UrlPick.

Variable urlparse : string -> result UrlLib.parsed.

Lemma endswith_last (d p q : string) (a b : ascii) :
  PyStr.rev p = String a q ->
  PyStr.endswith d p = true ->
  exists r, PyStr.rev d = String a r.
Proof.
  unfold PyStr.endswith. intros -> H.
  destruct (PyStr.rev d) as [|c r]; [discriminate|].
  cbn in H. apply andb_prop in H as [H _].
  apply Ascii.eqb_eq in H. subst c. by exists r.
Qed.

Lemma official_last_char (u : string) :
  _is_official urlparse u = true ->
  exists r, PyStr.rev (_domain_of urlparse u) = String "n" r.
Proof.
  unfold _is_official. intros H. apply orb_prop in H as [H|H].
  - by apply (endswith_last _ "ins.tn" "t.sni" "n" "n").
  - by apply (endswith_last _ "bct.gov.tn" "t.vog.tcb" "n" "n").
Qed.

Lemma official_is_trusted (u : string) :
  _is_official urlparse u = true -> _is_trusted urlparse u = true.
Proof.
  unfold _is_official, _is_trusted. intros H. cbn [existsb TRUSTED_DOMAINS].
  apply orb_prop in H as [-> | ->]; [reflexivity|].
  by rewrite orb_true_r.
Qed.

Lemma official_is_no_aggregator (u : string) :
  _is_official urlparse u = true -> _is_aggregator urlparse u = false.
Proof.
  intros H. destruct (official_last_char u H) as [r Hr].
  unfold _is_aggregator, PyStr.endswith. rewrite Hr. reflexivity.
Qed.

Lemma ins_domain_is_trusted (u : string) :
  String.eqb (_domain_of urlparse u) "ins.tn" = true ->
  _is_trusted urlparse u = true.
Proof.
  intros H. apply String.eqb_eq in H. unfold _is_trusted. by rewrite H.
Qed.

Lemma overlap_fold (c : string -> bool) (l : list string) (s : Q) :
  (fold_left (fun s w => if c w then s + (3 # 100) else s) l s
   == s + fold_left (fun s w => if c w then s + (3 # 100) else s) l 0)%Q.
Proof.
  revert s. induction l as [|w l IH]; intros s; cbn [fold_left].
  - ring.
  - rewrite (IH (if c w then s + (3 # 100) else s)%Q).
    rewrite (IH (if c w then 0 + (3 # 100) else 0)%Q).
    destruct (c w); ring.
Qed.

Ltac pull_let :=
  match goal with
  | |- Qeq (let x := ?a in @?B x) ?R =>
      change (let x := a in Qeq (B x) R); intro; cbv beta
  end.

Ltac name_step :=
  match goal with
  | s := (if ?c then (?t + ?x)%Q else ?t) : Q |- _ =>
      assert (s == t + (if c then x else 0))%Q
        by (unfold s; destruct c; ring);
      clearbody s
  | s := (if ?c then (?t - ?x)%Q else ?t) : Q |- _ =>
      assert (s == t - (if c then x else 0))%Q
        by (unfold s; destruct c; ring);
      clearbody s
  end.

(** The score is the sum of its parts. *)
Lemma _score_parts (url snippet question : string) (allow_discovery : bool) :
  (_score urlparse url snippet question allow_discovery
   == official_boost urlparse allow_discovery (PyStr.lower url)
      + trust_boost urlparse (PyStr.lower url)
      + text_score url snippet question
      - aggregator_penalty urlparse allow_discovery (PyStr.lower url)
      + ica_bonus urlparse question (PyStr.lower url))%Q.
Proof.
  cbv beta delta [_score].
  do 3 (pull_let; match goal with x := _ : string |- _ => subst x end).
  repeat pull_let.
  repeat name_step.
  match goal with
  | y := match year_in_path _ with Some _ => _ | None => ?t end : Q |- _ =>
      assert (y == t + year_adjustment (PyStr.lower url))%Q
        by (unfold y, year_adjustment;
            destruct (year_in_path (PyStr.lower url)) as [yr|]; [|ring];
            destruct (Z.leb 2023 yr); [ring|];
            destruct (Z.leb yr 2018); ring);
      clearbody y
  end.
  match goal with
  | o := fold_left _ _ ?t : Q |- _ =>
      assert (o == t + overlap_bonus (PyStr.lower question)
                         (PyStr.lower snippet) (PyStr.lower url))%Q
        by (unfold o, overlap_bonus;
            apply (overlap_fold
                     (fun w => PyStr.contains w (PyStr.lower snippet)
                               || PyStr.contains w (PyStr.lower url))));
      clearbody o
  end.
  match goal with z := 0%Q : Q |- _ => subst z end.
  unfold official_boost, trust_boost, aggregator_penalty, ica_bonus.
  cbv beta delta [text_score] zeta.
  lra.
Qed.

(** C9, as amended.  With discovery off, a candidate whose host ends with
    ins.tn or bct.gov.tn scores at least 5 (so at least 4) more than a
    candidate on a host that is not trusted, for every snippet and
    question, provided the texts of the second URL earn no more than those
    of the first: the path hint, the recency and year marks, the overlap
    with the question, the file type and the dead-path penalty are all read
    from the whole URL, host included. *)
Theorem C9_official_candidate_outscores_untrusted_one
    (url1 url2 snippet question : string) :
  _is_official urlparse (PyStr.lower url1) = true ->
  _is_trusted urlparse (PyStr.lower url2) = false ->
  (text_score url2 snippet question <= text_score url1 snippet question)%Q ->
  (_score urlparse url2 snippet question false + 5
   <= _score urlparse url1 snippet question false)%Q.
Proof.
  intros Hoff Hnot Htext.
  rewrite (_score_parts url1), (_score_parts url2).
  unfold official_boost, trust_boost, aggregator_penalty, ica_bonus.
  rewrite Hoff, (official_is_trusted _ Hoff).
  rewrite (official_is_no_aggregator _ Hoff).
  rewrite Hnot.
  destruct (_is_official urlparse (PyStr.lower url2)) eqn:Hoff2.
  { apply official_is_trusted in Hoff2. congruence. }
  destruct (String.eqb (_domain_of urlparse (PyStr.lower url2)) "ins.tn")
    eqn:Hins.
  { apply ins_domain_is_trusted in Hins. congruence. }
  rewrite !andb_false_r. cbn [negb andb].
  destruct (_is_aggregator urlparse (PyStr.lower url2));
    destruct (_looks_like_ica question && _ && _); lra.
Qed.

End UrlScore.

Section UrlScoreExamples.
Import Py UrlLib UrlPick.

Lemma C9_witness :
  _is_official urlparse (PyStr.lower "https://ins.tn/x") = true
  /\ _is_trusted urlparse (PyStr.lower "https://example.com/x") = false
  /\ (text_score "https://example.com/x" "3 % in 2024" "inflation"
      <= text_score "https://ins.tn/x" "3 % in 2024" "inflation")%Q
  /\ (_score urlparse "https://example.com/x" "3 % in 2024" "inflation" false
      + 5
      <= _score urlparse "https://ins.tn/x" "3 % in 2024" "inflation" false)%Q.
Proof.
  assert (H1 : _is_official urlparse (PyStr.lower "https://ins.tn/x") = true)
    by (vm_compute; reflexivity).
  assert (H2 : _is_trusted urlparse (PyStr.lower "https://example.com/x")
               = false)
    by (vm_compute; reflexivity).
  assert (H3 : (text_score "https://example.com/x" "3 % in 2024" "inflation"
                <= text_score "https://ins.tn/x" "3 % in 2024" "inflation")%Q)
    by (apply Qle_bool_iff; vm_compute; reflexivity).
  split; [exact H1|]. split; [exact H2|]. split; [exact H3|].
  exact (C9_official_candidate_outscores_untrusted_one urlparse
           "https://ins.tn/x" "https://example.com/x" "3 % in 2024"
           "inflation" H1 H2 H3).
Defined.

(** C9 as stated fails: with the same path, snippet and question, the
    candidate on ins.tn scores 5 and the one on the untrusted host
    stat.example.com scores 2, the hint "stat" being found in its host. *)
Lemma C9_counterexample :
  ~ (forall host1 host2 path snippet question : string,
       _is_official urlparse ("https://" +:+ host1 +:+ path) = true ->
       _is_trusted urlparse ("https://" +:+ host2 +:+ path) = false ->
       (_score urlparse ("https://" +:+ host2 +:+ path) snippet question false
        + 4
        <= _score urlparse ("https://" +:+ host1 +:+ path) snippet question
             false)%Q).
Proof.
  intros H.
  assert (H1 : _is_official urlparse ("https://" +:+ "ins.tn" +:+ "/x") = true)
    by (vm_compute; reflexivity).
  assert (H2 : _is_trusted urlparse ("https://" +:+ "stat.example.com" +:+ "/x")
               = false)
    by (vm_compute; reflexivity).
  specialize (H "ins.tn" "stat.example.com" "/x" "" "" H1 H2).
  apply Qle_bool_iff in H. vm_compute in H. discriminate H.
Qed.


End UrlScoreExamples.

(** ** The choice of the URLs *)
Section UrlSelection.
Import Py UrlPick Samples.

Variable urlparse : string -> result UrlLib.parsed.
Variable serper_organic : string -> Z -> option (list (string * string)).
Variable ddg_links : string -> option (list string).
Variable _fast_head_ok : string -> bool.

Ltac pull_list_let :=
  match goal with
  | |- (let x := ?a in @?B x) <> [] =>
      change (let x := a in B x <> []); intro; cbv beta
  end.

Lemma _heuristic_queries_nonempty (question : string) (allow_broad : bool) :
  _heuristic_queries question allow_broad <> [].
Proof.
  cbv beta delta [_heuristic_queries].
  repeat pull_list_let.
  match goal with
  | b := match ?b0 with [] => [question] | _ :: _ => _ end |- _ =>
      assert (Hb : exists kb rest, b = kb :: rest)
        by (unfold b; destruct b0; eauto);
      clearbody b
  end.
  destruct Hb as (kb & rest & ->).
  cbn [map concat]. destruct allow_broad; discriminate.
Qed.

Lemma uniq_from_first (x : string) (l : list string) :
  uniq_from ∅ (x :: l) = x :: uniq_from ({[ x ]} ∪ ∅) l.
Proof.
  cbn [uniq_from]. destruct (decide (x ∈ (∅ : gset string))) as [Hin|_].
  - by apply not_elem_of_empty in Hin.
  - reflexivity.
Qed.

(** There is always a query to ask. *)
Lemma _expanded_queries_cons (question : string) (allow_discovery : bool) :
  exists q qs, _expanded_queries question allow_discovery = q :: qs.
Proof.
  unfold _expanded_queries.
  pose proof (_heuristic_queries_nonempty (PyStr.strip question)
                (allow_discovery
                 && negb (_looks_like_ica (PyStr.strip question)))) as Hh.
  destruct (_heuristic_queries _ _) as [|q qs]; [done|]. clear Hh.
  match goal with
  | |- context [concat (map ?f ?base)] =>
      assert (Hb : exists b bs, base = b :: bs)
  end.
  { destruct (_looks_like_ica (PyStr.strip question)); [|eauto].
    cbv beta delta [INS_ONLY_QUERIES] zeta. cbn [app]. eauto. }
  destruct Hb as (b & bs & ->).
  rewrite <- app_comm_cons, uniq_from_first.
  unfold slice_to.
  cbn [Z.leb Z.compare Z.to_nat Pos.to_nat Pos.iter_op Init.Nat.add take].
  eauto.
Qed.

Lemma consider_row_raises allow_discovery retail_lock st u sn e :
  _normalize_url urlparse u = Raise e ->
  consider_row urlparse allow_discovery retail_lock st (u, sn) = Raise e.
Proof. intros H. unfold consider_row. destruct st. by rewrite H. Qed.

Lemma _normalize_url_raises (u : string) (e : exn) :
  urlparse u = Raise e -> _normalize_url urlparse u = Raise e.
Proof. intros H. unfold _normalize_url. by rewrite H. Qed.

(** The exception of the parser on the first link of the first answer
    leaves the search. *)
Lemma _search_candidates_raises question allow_discovery k :
  urlparse "http://[" = Raise ValueError ->
  _search_candidates urlparse bracket_answer ddg_links question
    allow_discovery k
  = Raise ValueError.
Proof.
  intros Hparse. unfold _search_candidates.
  destruct (_expanded_queries_cons question allow_discovery) as (q & qs & ->).
  cbn [for_each].
  assert (Hrows : _serper_search bracket_answer q k = [("http://[", "")])
    by reflexivity.
  rewrite Hrows. cbn [for_each].
  rewrite (consider_row_raises _ _ _ "http://[" "" ValueError)
    by by apply _normalize_url_raises.
  reflexivity.
Qed.

Lemma pick_verified_urls_raises question top_k allow_discovery write_links
    min_score bank :
  urlparse "http://[" = Raise ValueError ->
  pick_verified_urls urlparse bracket_answer ddg_links _fast_head_ok question
    top_k allow_discovery write_links min_score bank
  = Raise ValueError.
Proof.
  intros Hparse. unfold pick_verified_urls.
  by rewrite _search_candidates_raises.
Qed.

(** The sibling [_domain_of] reads the same link without raising. *)
Lemma _domain_of_unparsable (u : string) (e : exn) :
  urlparse u = Raise e -> PyStr.startswith u "http" = true ->
  _domain_of urlparse u = "".
Proof. intros H Hs. unfold _domain_of. by rewrite Hs, H. Qed.

Lemma slice_to_length {A : Type} (n : Z) (l : list A) :
  (0 <= n)%Z -> (Z.of_nat (length (slice_to n l)) <= n)%Z.
Proof.
  intros Hn. unfold slice_to.
  destruct (Z.leb_spec 0 n); [|lia]. rewrite length_take. lia.
Qed.

Lemma slice_to_nonempty {A : Type} (n : Z) (x : A) (l : list A) :
  (1 <= n)%Z -> slice_to n (x :: l) <> [].
Proof.
  intros Hn. unfold slice_to.
  destruct (Z.leb_spec 0 n); [|lia].
  destruct (Z.to_nat n) eqn:E; [lia|]. discriminate.
Qed.

Lemma seeds_cons (ica_only : bool) : exists x l, seeds ica_only = x :: l.
Proof. destruct ica_only; cbn; eauto. Qed.

(** X21.  When the picker returns, with [top_k] at least 1, it returns
    at least one URL and at most [top_k]. *)
Lemma pick_verified_urls_shape question top_k allow_discovery write_links
    min_score bank urls bank' :
  (1 <= top_k)%Z ->
  pick_verified_urls urlparse serper_organic ddg_links _fast_head_ok question
    top_k allow_discovery write_links min_score bank = Ok (urls, bank') ->
  urls <> [] /\ (Z.of_nat (length urls) <= top_k)%Z.
Proof.
  intros Hk. unfold pick_verified_urls.
  destruct (_search_candidates _ _ _ _ _ _) as [cands|e]; [|discriminate].
  cbn [mbind result_bind Py.bind].
  destruct (seeds_cons (_looks_like_ica question)) as (x & l & Hs).
  destruct cands as [|c cands].
  - intros [= <- <-]. rewrite Hs. split.
    + by apply slice_to_nonempty.
    + apply slice_to_length. lia.
  - cbv zeta.
    match goal with
    | |- context [match ?v with [] => slice_to top_k _ | _ :: _ => _ end] =>
        assert (Hv : exists y ys,
                  match v with
                  | [] => slice_to top_k (seeds (_looks_like_ica question))
                  | _ :: _ => v
                  end = y :: ys)
    end.
    { match goal with |- context [match ?v with [] => _ | _ :: _ => _ end] =>
        destruct v as [|y ys] end.
      - rewrite Hs. destruct (slice_to top_k (x :: l)) eqn:E; [|eauto].
        by apply slice_to_nonempty in E.
      - eauto. }
    destruct Hv as (y & ys & ->).
    intros [= <- <-]. split.
    + by apply slice_to_nonempty.
    + apply slice_to_length. lia.
Qed.

(** Without a candidate the official seeds are returned, and the link
    bank is left as it is. *)
Lemma pick_verified_urls_without_candidates question top_k allow_discovery
    write_links min_score bank :
  _search_candidates urlparse serper_organic ddg_links question allow_discovery
    (Z.max 10 (top_k * 4)) = Ok [] ->
  pick_verified_urls urlparse serper_organic ddg_links _fast_head_ok question
    top_k allow_discovery write_links min_score bank
  = Ok (slice_to top_k (seeds (_looks_like_ica question)), bank).
Proof. intros H. unfold pick_verified_urls. by rewrite H. Qed.

End UrlSelection.

Section UrlSelectionExamples.
Import Py UrlPick Samples.

Lemma urlparse_bracket : UrlLib.urlparse "http://[" = Raise ValueError.
Proof. reflexivity. Qed.

(** C6.  The picker can raise: for every question, every [top_k] and
    every setting of the flags, when the search service answers with the
    link "http://[" the [ValueError] of [urlparse] in [_normalize_url]
    leaves [pick_verified_urls], whatever the fallback search and the
    probe do. *)
Theorem C6_unparsable_link_makes_the_picker_raise
    (ddg_links : string -> option (list string))
    (_fast_head_ok : string -> bool)
    (question : string) (top_k : Z) (allow_discovery write_links : bool)
    (min_score : Q) (bank : list string) :
  pick_verified_urls UrlLib.urlparse bracket_answer ddg_links _fast_head_ok
    question top_k allow_discovery write_links min_score bank
  = Raise ValueError.
Proof.
  apply pick_verified_urls_raises. exact urlparse_bracket.
Qed.

End UrlSelectionExamples.

(** ** Part III. Further properties of the code *)

(** *** De-duplication of records ([remove_duplicates]) *)
Section DeduplicationLaws.
Import Py Utils.
Variable text_ratio : string -> string -> Q.

Lemma find_duplicate_false (seen : list record) (y : record) :
  find_duplicate text_ratio seen y = Ok false ->
  forall x, x ∈ seen -> is_duplicate text_ratio x y = Ok false.
Proof.
  induction seen as [|z seen IH]; intros H x Hx.
  - by apply elem_of_nil in Hx.
  - simpl in H.
    destruct (is_duplicate text_ratio z y) as [[|]|e] eqn:Ez;
      simpl in H; try discriminate.
    apply elem_of_cons in Hx as [-> | Hx]; [exact Ez | by apply IH].
Qed.

Lemma find_duplicate_true (seen : list record) (y : record) :
  find_duplicate text_ratio seen y = Ok true ->
  exists x, x ∈ seen /\ is_duplicate text_ratio x y = Ok true.
Proof.
  induction seen as [|z seen IH]; intros H; simpl in H; [discriminate|].
  destruct (is_duplicate text_ratio z y) as [[|]|e] eqn:Ez;
    simpl in H; try discriminate.
  - exists z. split; [by left | exact Ez].
  - destruct (IH H) as (x & Hx & Hd). exists x. split; [by right | exact Hd].
Qed.

Lemma fresh_in_order_snoc (seen : list record) (e : record) :
  fresh_in_order text_ratio seen ->
  find_duplicate text_ratio seen e = Ok false ->
  fresh_in_order text_ratio (seen ++ [e]).
Proof.
  intros Hs He l1 y l2 E.
  destruct l2 as [|z l2 _] using rev_ind.
  - apply app_inj_tail in E as [-> ->]. exact He.
  - rewrite app_comm_cons, app_assoc in E.
    apply app_inj_tail in E as [E _]. by apply (Hs l1 y l2).
Qed.

Lemma dedup_loop_fresh (seen entries out : list record) :
  fresh_in_order text_ratio seen ->
  dedup_loop text_ratio seen entries = Ok out ->
  fresh_in_order text_ratio out.
Proof.
  revert seen. induction entries as [|x entries IH]; intros seen Hs H.
  - simpl in H. by injection H as <-.
  - simpl in H.
    destruct (find_duplicate text_ratio seen x) as [d|e] eqn:Ed;
      [|discriminate].
    simpl in H. destruct d.
    + by apply (IH seen).
    + apply (IH (seen ++ [x])); [by apply fresh_in_order_snoc | exact H].
Qed.

(** X1.  [remove_duplicates] returns records of its input, in the order
    of the input: it invents and reorders nothing. *)
Theorem remove_duplicates_returns_a_sublist (entries out : list record) :
  remove_duplicates text_ratio entries = Ok out -> sublist out entries.
Proof.
  unfold remove_duplicates. intros H.
  destruct (dedup_loop_sublist text_ratio [] entries out H)
    as (kept & -> & Hsub).
  exact Hsub.
Qed.

(** X2.  A list that [remove_duplicates] returned is left as it is by a
    second pass. *)
Theorem remove_duplicates_twice_is_once (entries out : list record) :
  remove_duplicates text_ratio entries = Ok out ->
  remove_duplicates text_ratio out = Ok out.
Proof.
  unfold remove_duplicates. intros H.
  destruct (dedup_loop_extends text_ratio [] entries out H)
    as (kept & -> & _ & Hk).
  exact Hk.
Qed.

(** X3.  In the list that [remove_duplicates] returns no record is
    near-identical to a record kept before it. *)
Theorem remove_duplicates_keeps_no_duplicate_pair
    (entries out l1 l2 l3 : list record) (x y : record) :
  remove_duplicates text_ratio entries = Ok out ->
  out = l1 ++ x :: l2 ++ y :: l3 ->
  is_duplicate text_ratio x y = Ok false.
Proof.
  unfold remove_duplicates. intros H E.
  assert (Hf : fresh_in_order text_ratio out).
  { apply (dedup_loop_fresh [] entries); [|exact H].
    intros k1 k k2 Ek. by destruct k1. }
  apply (find_duplicate_false (l1 ++ x :: l2) y).
  - apply (Hf (l1 ++ x :: l2) y l3). rewrite E.
    by rewrite <- app_assoc, <- app_comm_cons.
  - apply elem_of_app. right. by left.
Qed.

(** X4.  A record of the input that [remove_duplicates] does not return
    is near-identical to one it returns. *)
Theorem remove_duplicates_drops_duplicates_only
    (entries out : list record) (x : record) :
  remove_duplicates text_ratio entries = Ok out ->
  x ∈ entries ->
  x ∈ out
  \/ exists k, k ∈ out /\ is_duplicate text_ratio k x = Ok true.
Proof.
  unfold remove_duplicates. intros H Hx.
  destruct (dedup_loop_dropped text_ratio [] entries out H x Hx) as [Hin|Hd].
  - by left.
  - right. by apply find_duplicate_true.
Qed.

End DeduplicationLaws.

Section DeduplicationLawsExamples.
Import Py Utils Samples.

Lemma sample_remove_duplicates :
  remove_duplicates Difflib.ratio [obs_100; obs_125; obs_150]
  = Ok [obs_100; obs_150].
Proof. apply remove_duplicates_chain; vm_compute; reflexivity. Qed.

Lemma remove_duplicates_returns_a_sublist_witness :
  remove_duplicates Difflib.ratio [obs_100; obs_125; obs_150]
  = Ok [obs_100; obs_150]
  /\ sublist [obs_100; obs_150] [obs_100; obs_125; obs_150].
Proof.
  split; [exact sample_remove_duplicates|].
  exact (remove_duplicates_returns_a_sublist Difflib.ratio
           [obs_100; obs_125; obs_150] [obs_100; obs_150]
           sample_remove_duplicates).
Defined.

Lemma remove_duplicates_twice_is_once_witness :
  remove_duplicates Difflib.ratio [obs_100; obs_125; obs_150]
  = Ok [obs_100; obs_150]
  /\ remove_duplicates Difflib.ratio [obs_100; obs_150]
     = Ok [obs_100; obs_150].
Proof.
  split; [exact sample_remove_duplicates|].
  exact (remove_duplicates_twice_is_once Difflib.ratio
           [obs_100; obs_125; obs_150] [obs_100; obs_150]
           sample_remove_duplicates).
Defined.

Lemma remove_duplicates_keeps_no_duplicate_pair_witness :
  remove_duplicates Difflib.ratio [obs_100; obs_125; obs_150]
  = Ok [obs_100; obs_150]
  /\ is_duplicate Difflib.ratio obs_100 obs_150 = Ok false.
Proof.
  split; [exact sample_remove_duplicates|].
  exact (remove_duplicates_keeps_no_duplicate_pair Difflib.ratio
           [obs_100; obs_125; obs_150] [obs_100; obs_150] [] [] []
           obs_100 obs_150 sample_remove_duplicates eq_refl).
Defined.

Lemma remove_duplicates_drops_duplicates_only_witness :
  remove_duplicates Difflib.ratio [obs_100; obs_125; obs_150]
  = Ok [obs_100; obs_150]
  /\ (obs_125 ∈ [obs_100; obs_150]
      \/ exists k, k ∈ [obs_100; obs_150]
                   /\ is_duplicate Difflib.ratio k obs_125 = Ok true).
Proof.
  split; [exact sample_remove_duplicates|].
  apply (remove_duplicates_drops_duplicates_only Difflib.ratio
           [obs_100; obs_125; obs_150] [obs_100; obs_150] obs_125
           sample_remove_duplicates).
  right. left.
Defined.

End DeduplicationLawsExamples.

(** *** Validation and scoring of one record *)
Section EntryChecks.
Import Py Utils.

(** X5.  The confidence score lies between 0 and 100, and a matched
    indicator never lowers it and adds at most 30. *)
Theorem score_confidence_range_and_match_bonus
    (year : option Z) (value : option Q) (unit : option string) :
  0 <= score_confidence false year value unit
  /\ score_confidence false year value unit
     <= score_confidence true year value unit
  /\ score_confidence true year value unit
     <= score_confidence false year value unit + 30
  /\ score_confidence true year value unit <= 100.
Proof.
  unfold score_confidence.
  destruct (year_plausible year), (value_is_year value year), unit as [u|],
    value as [v|]; cbn [unit_truthy unit_recognized negb andb];
    repeat match goal with
           | |- context [if ?c then _ else _] => destruct c
           end; lia.
Qed.

(** X6.  [is_valid_entry] answers, without raising, on every record that
    has the four keys it reads, a year that is a number or [None] and a
    text that is a string. *)
Theorem is_valid_entry_returns (ind : record) :
  readable ind -> exists b, is_valid_entry ind = Ok b.
Proof.
  intros ((v & Hv) & (y & Hy & Hnum) & (i & Hi) & (raw & Hraw)).
  unfold is_valid_entry, getitem. rewrite Hv, Hy, Hi, Hraw. cbn.
  destruct (is_none v || py_eq v (PFloat 0)); [eauto|].
  destruct Hnum as [-> | (q & Hq)]; cbn; [eauto|].
  destruct (is_none y); cbn; [eauto|]. rewrite Hq. cbn.
  destruct (Qle_bool 1970 q && Qle_bool q 2050); cbn; [|eauto].
  destruct (truthy i); cbn; [|eauto].
  destruct (_ || _); eauto.
Qed.

(** X7.  A record that [is_valid_entry] accepts has a value that is not
    [None], not zero and not equal to its year, a year between 1970 and
    2050, a non-empty indicator and a text without the two block-page
    phrases. *)
Theorem is_valid_entry_accepts (ind : record) :
  is_valid_entry ind = Ok true ->
  exists v y i raw,
    ind !! "Value" = Some v /\ ind !! "Year" = Some y
    /\ ind !! "Indicator" = Some i /\ ind !! "RawText" = Some (PStr raw)
    /\ v <> PNone /\ py_eq v (PFloat 0) = false /\ py_eq v y = false
    /\ (exists q, num_of y = Some q /\ (1970 <= q)%Q /\ (q <= 2050)%Q)
    /\ truthy i = true
    /\ PyStr.contains "access denied" (PyStr.lower raw) = false
    /\ PyStr.contains "cookies required" (PyStr.lower raw) = false.
Proof.
  unfold is_valid_entry, getitem.
  destruct (ind !! "Value") as [v|]; [|discriminate]. cbn.
  destruct (is_none v || py_eq v (PFloat 0)) eqn:Ev; [discriminate|].
  apply orb_false_elim in Ev as [Hn Hz].
  destruct (ind !! "Year") as [y|]; [|discriminate]. cbn.
  destruct (is_none y) eqn:Hyn; cbn; [discriminate|].
  destruct (num_of y) as [q|] eqn:Hq; [|discriminate]. cbn.
  destruct (Qle_bool 1970 q && Qle_bool q 2050) eqn:Hspan; cbn;
    [|discriminate].
  apply andb_prop in Hspan as [Hlo Hhi].
  destruct (ind !! "Indicator") as [i|]; [|discriminate]. cbn.
  destruct (truthy i) eqn:Hi; cbn; [|discriminate].
  destruct (ind !! "RawText") as [raw|]; [|discriminate]. cbn.
  destruct raw as [| | | |raw]; try discriminate. cbn.
  destruct (PyStr.contains "access denied" (PyStr.lower raw)) eqn:H1;
    [discriminate|].
  destruct (PyStr.contains "cookies required" (PyStr.lower raw)) eqn:H2;
    [discriminate|].
  cbn. intros [= Hne]. apply negb_true_iff in Hne.
  exists v, y, i, raw. repeat split; try assumption; try reflexivity.
  - intros ->. discriminate.
  - exists q. split; [exact Hq|]. split; by apply Qle_bool_iff.
Qed.

End EntryChecks.

Section DeduplicationReturns.
Import Py Utils.
Variable text_ratio : string -> string -> Q.

Lemma is_duplicate_returns (a b : record) :
  comparable a -> comparable b ->
  exists d, is_duplicate text_ratio a b = Ok d.
Proof.
  intros ((i1 & Hi1) & (y1 & Hy1) & (v1 & q1 & Hv1 & Hq1) & (t1 & Ht1))
         ((i2 & Hi2) & (y2 & Hy2) & (v2 & q2 & Hv2 & Hq2) & (t2 & Ht2)).
  unfold is_duplicate, getitem.
  rewrite Hi1, Hi2, Hy1, Hy2, Hv1, Hv2, Ht1, Ht2. cbn.
  destruct (negb _); [eauto|]. destruct (negb _); [eauto|].
  rewrite Hq1, Hq2. destruct (negb _); eauto.
Qed.

Lemma find_duplicate_returns (seen : list record) (e : record) :
  Forall comparable seen -> comparable e ->
  exists d, find_duplicate text_ratio seen e = Ok d.
Proof.
  intros Hs He. induction Hs as [|x seen Hx _ IH]; cbn; [eauto|].
  destruct (is_duplicate_returns x e Hx He) as [d ->]. cbn.
  destruct d; eauto.
Qed.

Lemma dedup_loop_returns (seen entries : list record) :
  Forall comparable seen -> Forall comparable entries ->
  exists out, dedup_loop text_ratio seen entries = Ok out.
Proof.
  intros Hs He. revert seen Hs.
  induction He as [|x entries Hx _ IH]; intros seen Hs; cbn; [eauto|].
  destruct (find_duplicate_returns seen x Hs Hx) as [d ->]. cbn.
  apply IH. destruct d; [exact Hs|].
  apply Forall_app. split; [exact Hs | by constructor].
Qed.

(** X8.  [remove_duplicates] returns, without raising, on every list of
    records that have a string indicator, a year, a numeric value and a
    string text. *)
Theorem remove_duplicates_returns (entries : list record) :
  Forall comparable entries ->
  exists out, remove_duplicates text_ratio entries = Ok out.
Proof. intros H. apply dedup_loop_returns; [constructor | exact H]. Qed.

End DeduplicationReturns.

Section EntryChecksExamples.
Import Py Utils Samples.

Lemma obs_100_readable : readable obs_100.
Proof.
  repeat split.
  - eexists. vm_compute. reflexivity.
  - eexists. split; [vm_compute; reflexivity|]. right. eexists. reflexivity.
  - eexists. vm_compute. reflexivity.
  - eexists. vm_compute. reflexivity.
Qed.

Lemma observation_comparable (i : string) (y : Z) (v : Q) (t : string) :
  comparable (observation i y v t).
Proof.
  unfold observation. repeat split.
  - exists i. by simplify_map_eq.
  - exists (PInt y). by simplify_map_eq.
  - exists (PFloat v), v. split; [by simplify_map_eq | reflexivity].
  - exists t. by simplify_map_eq.
Qed.

Lemma is_valid_entry_returns_witness :
  readable obs_100 /\ exists b, is_valid_entry obs_100 = Ok b.
Proof.
  split; [exact obs_100_readable|].
  exact (is_valid_entry_returns obs_100 obs_100_readable).
Defined.

Lemma obs_100_valid : is_valid_entry obs_100 = Ok true.
Proof. vm_compute. reflexivity. Qed.

Lemma is_valid_entry_accepts_witness :
  is_valid_entry obs_100 = Ok true
  /\ exists v y i raw,
    obs_100 !! "Value" = Some v /\ obs_100 !! "Year" = Some y
    /\ obs_100 !! "Indicator" = Some i /\ obs_100 !! "RawText" = Some (PStr raw)
    /\ v <> PNone /\ py_eq v (PFloat 0) = false /\ py_eq v y = false
    /\ (exists q, num_of y = Some q /\ (1970 <= q)%Q /\ (q <= 2050)%Q)
    /\ truthy i = true
    /\ PyStr.contains "access denied" (PyStr.lower raw) = false
    /\ PyStr.contains "cookies required" (PyStr.lower raw) = false.
Proof.
  split; [exact obs_100_valid|].
  exact (is_valid_entry_accepts obs_100 obs_100_valid).
Defined.

Lemma remove_duplicates_returns_witness :
  Forall comparable [obs_100; obs_125; obs_150]
  /\ exists out,
       remove_duplicates Difflib.ratio [obs_100; obs_125; obs_150] = Ok out.
Proof.
  assert (H : Forall comparable [obs_100; obs_125; obs_150])
    by (repeat constructor; apply observation_comparable).
  split; [exact H|].
  exact (remove_duplicates_returns Difflib.ratio _ H).
Defined.

End EntryChecksExamples.

(** *** The incremental indexer ([upsert_latest]) *)
Section IncrementalIndexerLaws.
Import Py UpsertEmbeddings.
Variable sha1_hexdigest : string -> string.
Variable float_str : Q -> string.

Lemma collect_new_when_all_seen (seen seen' : gset string)
    (rows : list record) (new : list (string * (string * record))) :
  collect_new sha1_hexdigest float_str seen rows = Ok new ->
  seen ⊆ seen' ->
  (forall k, k ∈ map fst new -> k ∈ seen') ->
  collect_new sha1_hexdigest float_str seen' rows = Ok [].
Proof.
  intros H Hsub. revert new H.
  induction rows as [|r rows IH]; intros new H Hnew; [reflexivity|].
  simpl in H |- *.
  destruct (_stable_key sha1_hexdigest float_str r) as [key|e];
    [|discriminate].
  simpl in H |- *.
  destruct (decide (key ∈ seen)) as [Hin|Hout].
  { rewrite decide_True by set_solver. by apply (IH new). }
  destruct (decide (key ∈ seen')) as [_|Hout']; [|].
  - destruct (negb _); [by apply (IH new)|].
    destruct (_ && _); [by apply (IH new)|].
    destruct (_row_to_text_meta _ _) as [pair|e]; [|discriminate].
    simpl in H.
    destruct (collect_new sha1_hexdigest float_str seen rows) as [rest|e];
      [|discriminate].
    simpl in H. injection H as <-.
    apply (IH rest); [reflexivity|].
    intros k Hk. apply Hnew. simpl. by right.
  - destruct (negb _); [by apply (IH new)|].
    destruct (_ && _); [by apply (IH new)|].
    destruct (_row_to_text_meta _ _) as [pair|e]; [|discriminate].
    simpl in H.
    destruct (collect_new sha1_hexdigest float_str seen rows) as [rest|e];
      [|discriminate].
    simpl in H. injection H as <-.
    exfalso. apply Hout'. apply Hnew. simpl. by left.
Qed.

(** What a run adds: a prefix of the rows collected as new. *)
Lemma upsert_latest_added (rows : list record) (max_new : option Z)
    (st st' : store) (n : Z) :
  upsert_latest sha1_hexdigest float_str rows max_new st = Ok (n, st') ->
  exists new added : list (string * (string * record)),
    collect_new sha1_hexdigest float_str (seen st) rows = Ok new
    /\ added `prefix_of` new
    /\ (max_new = None -> added = new)
    /\ (forall cap, max_new = Some cap -> 0 < cap ->
          (length added <= Z.to_nat cap)%nat)
    /\ index st' = index st ++ map snd added
    /\ n = Z.of_nat (length added)
    /\ seen st' = seen st ∪ list_to_set (map fst added).
Proof.
  unfold upsert_latest. intros H.
  assert (Hnil : (0, st) = (n, st') ->
    index st' = index st ++ map snd ([] : list (string * (string * record)))
    /\ n = Z.of_nat (length ([] : list (string * (string * record))))
    /\ seen st' = seen st
           ∪ list_to_set (map fst ([] : list (string * (string * record))))).
  { intros [= <- <-]. simpl. split; [by rewrite app_nil_r|].
    split; [reflexivity|]. by rewrite (right_id_L ∅ (∪)). }
  destruct rows as [|r rows].
  { exists [], []. split; [reflexivity|]. split; [done|]. split; [done|].
    split; [simpl; lia|]. apply Hnil. congruence. }
  destruct (collect_new sha1_hexdigest float_str (seen st) (r :: rows))
    as [new|e] eqn:Enew; [|discriminate].
  simpl in H. destruct new as [|p new].
  { exists [], []. split; [reflexivity|]. split; [done|]. split; [done|].
    split; [simpl; lia|]. apply Hnil. congruence. }
  set (cut := match max_new with
              | Some m => if Z.ltb 0 m then take (Z.to_nat m) (p :: new)
                          else p :: new
              | None => p :: new
              end) in H.
  injection H as <- <-. exists (p :: new), cut.
  split; [reflexivity|]. split; [|split; [|split]].
  - subst cut. destruct max_new as [m|]; [|done].
    destruct (Z.ltb 0 m); [apply prefix_take | done].
  - intros ->. reflexivity.
  - intros cap -> Hcap. subst cut.
    destruct (Z.ltb_spec 0 cap); [|lia]. rewrite length_take. lia.
  - simpl. repeat split; reflexivity.
Qed.

(** X9.  A run only appends: the documents of the index before the run
    are kept, in order; the count returned is the number of documents
    appended; each of them bears the stable key of a row of the table
    that was not seen before the run, and is seen after it. *)
Theorem upsert_latest_only_appends (rows : list record) (max_new : option Z)
    (st st' : store) (n : Z) :
  upsert_latest sha1_hexdigest float_str rows max_new st = Ok (n, st') ->
  exists added : list (string * (string * record)),
    index st' = index st ++ map snd added
    /\ n = Z.of_nat (length added)
    /\ (seen st ⊆ seen st')
    /\ forall k, k ∈ map fst added ->
         (k ∉ seen st) /\ k ∈ seen st'
         /\ exists r, r ∈ rows
                      /\ _stable_key sha1_hexdigest float_str r = Ok k.
Proof.
  intros H.
  destruct (upsert_latest_added _ _ _ _ _ H)
    as (new & added & Hnew & Hpre & _ & _ & Hi & Hn & Hs).
  exists added. split; [exact Hi|]. split; [exact Hn|].
  split; [rewrite Hs; apply union_subseteq_l|].
  intros k Hk.
  assert (Hk' : k ∈ map fst new).
  { destruct Hpre as [tail ->]. rewrite map_app. apply elem_of_app. by left. }
  destruct (collect_new_fresh sha1_hexdigest float_str _ _ _ Hnew k Hk')
    as [Hfresh Hrow].
  split; [exact Hfresh|]. split; [|exact Hrow].
  rewrite Hs. apply elem_of_union. right. by apply elem_of_list_to_set.
Qed.

(** X10.  After a run without a cap, a second run over the same table
    adds nothing and leaves the store as it is. *)
Theorem upsert_latest_again_adds_nothing (rows : list record)
    (max_new : option Z) (st st' : store) (n : Z) :
  upsert_latest sha1_hexdigest float_str rows None st = Ok (n, st') ->
  upsert_latest sha1_hexdigest float_str rows max_new st' = Ok (0, st').
Proof.
  intros H.
  destruct (upsert_latest_added _ _ _ _ _ H)
    as (new & added & Hnew & _ & Hall & _ & _ & _ & Hs).
  rewrite (Hall eq_refl) in Hs.
  assert (Hnone : collect_new sha1_hexdigest float_str (seen st') rows
                  = Ok []).
  { apply (collect_new_when_all_seen (seen st) (seen st') rows new Hnew).
    - rewrite Hs. apply union_subseteq_l.
    - intros k Hk. rewrite Hs. apply elem_of_union. right.
      by apply elem_of_list_to_set. }
  unfold upsert_latest. destruct rows as [|r rows]; [reflexivity|].
  by rewrite Hnone.
Qed.

(** X11.  A positive cap bounds the number of documents a run adds. *)
Theorem upsert_latest_respects_the_cap (rows : list record) (cap : Z)
    (st st' : store) (n : Z) :
  0 < cap ->
  upsert_latest sha1_hexdigest float_str rows (Some cap) st = Ok (n, st') ->
  n <= cap /\ Z.of_nat (length (index st')) <= Z.of_nat (length (index st)) + cap.
Proof.
  intros Hcap H.
  destruct (upsert_latest_added _ _ _ _ _ H)
    as (new & added & _ & _ & _ & Hlen & Hi & Hn & _).
  specialize (Hlen cap eq_refl Hcap).
  rewrite Hi, length_app, length_map. lia.
Qed.

Lemma _row_to_text_meta_fields (row : record) (text : string)
    (meta : record) :
  _row_to_text_meta float_str row = Ok (text, meta) ->
  get meta "indicator"
  = por (por (get row "CanonicalIndicator") (get row "Indicator")) (PStr "")
  /\ get meta "value" = get row "Value"
  /\ get meta "year" = get row "Year"
  /\ get meta "DateISO" = get row "DateISO".
Proof.
  unfold _row_to_text_meta.
  destruct (_pick_source_and_url float_str row) as [source_display url].
  match goal with
  | |- (?e ≫= _) = _ -> _ => destruct e as [parts|e']; [|discriminate]
  end.
  cbn [mbind result_bind Py.bind]. intros [= _ <-].
  unfold get. by simplify_map_eq.
Qed.

Lemma collect_new_guarded (seen : gset string) (rows : list record)
    (new : list (string * (string * record))) :
  collect_new sha1_hexdigest float_str seen rows = Ok new ->
  forall k text meta, (k, (text, meta)) ∈ new ->
    truthy (get meta "indicator") = true
    /\ (is_none (get meta "value") && is_none (get meta "year")
        && is_none (get meta "DateISO")) = false.
Proof.
  revert new. induction rows as [|r rows IH]; intros new H k text meta Hin.
  - simpl in H. injection H as <-. by apply elem_of_nil in Hin.
  - simpl in H.
    destruct (_stable_key sha1_hexdigest float_str r) as [key|e];
      [|discriminate].
    simpl in H.
    destruct (decide (key ∈ seen)); [by apply (IH new H k text meta)|].
    destruct (truthy (por (get r "CanonicalIndicator") (get r "Indicator")))
      eqn:Hind; cbn [negb] in H; [|by apply (IH new H k text meta)].
    destruct (is_none (get r "Value") && is_none (get r "Year")
              && is_none (get r "DateISO")) eqn:Hsome;
      [by apply (IH new H k text meta)|].
    destruct (_row_to_text_meta float_str r) as [[t m]|e] eqn:Emeta;
      [|discriminate].
    simpl in H.
    destruct (collect_new sha1_hexdigest float_str seen rows) as [rest|e];
      [|discriminate].
    simpl in H. injection H as <-.
    apply elem_of_cons in Hin as [Heq | Hin]; [|by apply (IH rest eq_refl k text meta)].
    injection Heq as -> -> ->.
    destruct (_row_to_text_meta_fields r t m Emeta) as (Hi & Hv & Hy & Hd).
    rewrite Hi, Hv, Hy, Hd. split; [|exact Hsome].
    unfold por at 1. by rewrite Hind.
Qed.

(** X12.  Every document a run appends names an indicator and carries a
    value, a year or a date: rows without them are never indexed. *)
Theorem upsert_latest_indexes_complete_rows_only (rows : list record)
    (max_new : option Z) (st st' : store) (n : Z) :
  upsert_latest sha1_hexdigest float_str rows max_new st = Ok (n, st') ->
  exists docs, index st' = index st ++ docs
    /\ forall text meta, (text, meta) ∈ docs ->
         truthy (get meta "indicator") = true
         /\ (is_none (get meta "value") && is_none (get meta "year")
             && is_none (get meta "DateISO")) = false.
Proof.
  intros H.
  destruct (upsert_latest_added _ _ _ _ _ H)
    as (new & added & Hnew & Hpre & _ & _ & Hi & _ & _).
  exists (map snd added). split; [exact Hi|].
  intros text meta Hin.
  apply list_elem_of_fmap in Hin as ([k [t m]] & Heq & Hin).
  simpl in Heq. injection Heq as -> ->.
  apply (collect_new_guarded _ _ _ Hnew k t m).
  destruct Hpre as [tail ->]. apply elem_of_app. by left.
Qed.

End IncrementalIndexerLaws.


Section IncrementalIndexerExamples.
Import Py UpsertEmbeddings Samples.

Lemma sample_first_run :
  exists n st',
    upsert_latest sample_digest sample_float_str [obs_100; obs_150] None
      (Store ∅ []) = Ok (n, st').
Proof. eexists _, _. vm_compute. reflexivity. Qed.

Lemma upsert_latest_only_appends_witness :
  exists n st',
    upsert_latest sample_digest sample_float_str [obs_100; obs_150] None
      (Store ∅ []) = Ok (n, st')
    /\ exists added : list (string * (string * record)),
         index st' = [] ++ map snd added
         /\ n = Z.of_nat (length added)
         /\ (∅ ⊆ seen st')
         /\ forall k, k ∈ map fst added ->
              (k ∉ (∅ : gset string)) /\ k ∈ seen st'
              /\ exists r, r ∈ [obs_100; obs_150]
                   /\ _stable_key sample_digest sample_float_str r = Ok k.
Proof.
  destruct sample_first_run as (n & st' & H). exists n, st'.
  split; [exact H|].
  exact (upsert_latest_only_appends sample_digest sample_float_str
           _ _ _ _ _ H).
Defined.

Lemma upsert_latest_again_adds_nothing_witness :
  exists n st',
    upsert_latest sample_digest sample_float_str [obs_100; obs_150] None
      (Store ∅ []) = Ok (n, st')
    /\ upsert_latest sample_digest sample_float_str [obs_100; obs_150]
         (Some 5) st' = Ok (0, st').
Proof.
  destruct sample_first_run as (n & st' & H). exists n, st'.
  split; [exact H|].
  exact (upsert_latest_again_adds_nothing sample_digest sample_float_str
           _ (Some 5) _ _ _ H).
Defined.

Lemma sample_capped_run :
  exists n st',
    upsert_latest sample_digest sample_float_str [obs_100; obs_150] (Some 1)
      (Store ∅ []) = Ok (n, st').
Proof. eexists _, _. vm_compute. reflexivity. Qed.

Lemma upsert_latest_respects_the_cap_witness :
  exists n st',
    0 < 1
    /\ upsert_latest sample_digest sample_float_str [obs_100; obs_150]
         (Some 1) (Store ∅ []) = Ok (n, st')
    /\ n <= 1
    /\ Z.of_nat (length (index st')) <= Z.of_nat 0 + 1.
Proof.
  destruct sample_capped_run as (n & st' & H). exists n, st'.
  split; [lia|]. split; [exact H|].
  exact (upsert_latest_respects_the_cap sample_digest sample_float_str
           _ 1 _ _ _ ltac:(lia) H).
Defined.

Lemma upsert_latest_indexes_complete_rows_only_witness :
  exists n st',
    upsert_latest sample_digest sample_float_str [obs_100; obs_150] None
      (Store ∅ []) = Ok (n, st')
    /\ exists docs, index st' = [] ++ docs
         /\ forall text meta, (text, meta) ∈ docs ->
              truthy (get meta "indicator") = true
              /\ (is_none (get meta "value") && is_none (get meta "year")
                  && is_none (get meta "DateISO")) = false.
Proof.
  destruct sample_first_run as (n & st' & H). exists n, st'.
  split; [exact H|].
  exact (upsert_latest_indexes_complete_rows_only sample_digest
           sample_float_str _ _ _ _ _ H).
Defined.



End IncrementalIndexerExamples.

(** *** Slices, loops and the expansion of a question into queries *)
Section QueryExpansion.
Import Py UrlPick.

Lemma slice_to_is_take {A : Type} (n : Z) (l : list A) :
  exists m, slice_to n l = take m l.
Proof. unfold slice_to. destruct (0 <=? n)%Z; eauto. Qed.

Lemma slice_to_elem {A : Type} (n : Z) (l : list A) (x : A) :
  x ∈ slice_to n l -> x ∈ l.
Proof.
  destruct (slice_to_is_take n l) as [m ->]. intros H.
  apply list_elem_of_lookup in H as [i Hi].
  apply lookup_take_Some in Hi as [Hi _].
  apply list_elem_of_lookup. by exists i.
Qed.

Lemma slice_to_NoDup {A : Type} (n : Z) (l : list A) :
  NoDup l -> NoDup (slice_to n l).
Proof.
  destruct (slice_to_is_take n l) as [m ->]. intros H.
  rewrite <- (take_drop m l) in H. by apply NoDup_app in H as [H _].
Qed.

Lemma seeds_NoDup (ica_only : bool) : NoDup (seeds ica_only).
Proof.
  destruct ica_only; apply NoDup_ListNoDup; repeat constructor;
    cbn; intros H; repeat (destruct H as [H|H]; [discriminate H|]); exact H.
Qed.

Lemma insert_desc_perm (x : Q * string) (l : list (Q * string)) :
  insert_desc x l ≡ₚ x :: l.
Proof.
  induction l as [|y l IH]; cbn; [done|].
  destruct (pair_ltb y x); [done|]. rewrite IH. apply Permutation_swap.
Qed.

Lemma sorted_desc_perm (l : list (Q * string)) : sorted_desc l ≡ₚ l.
Proof.
  unfold sorted_desc.
  assert (H : forall acc, fold_left (fun acc x => insert_desc x acc) l acc
                          ≡ₚ l ++ acc).
  { induction l as [|x l IH]; intros acc; cbn; [done|].
    rewrite IH, insert_desc_perm. by rewrite Permutation_middle. }
  rewrite H. by rewrite app_nil_r.
Qed.

Lemma for_each_invariant {A B : Type} (I : A -> Prop)
    (body : A -> B -> result A) (l : list B) (a a' : A) :
  I a ->
  (forall a x a', x ∈ l -> I a -> body a x = Ok a' -> I a') ->
  for_each body l a = Ok a' -> I a'.
Proof.
  revert a. induction l as [|x l IH]; intros a Ha Hstep H.
  - cbn in H. by injection H as <-.
  - cbn in H. destruct (body a x) as [a1|e] eqn:E; [|discriminate].
    cbn in H. apply (IH a1); [| |exact H].
    + apply (Hstep a x a1); [by left | exact Ha | exact E].
    + intros b y b' Hy. apply Hstep. by right.
Qed.

Lemma for_each_returns {A B : Type} (body : A -> B -> result A)
    (l : list B) (a : A) :
  (forall a x, x ∈ l -> exists a', body a x = Ok a') ->
  exists a', for_each body l a = Ok a'.
Proof.
  revert a. induction l as [|x l IH]; intros a H; cbn; [eauto|].
  destruct (H a x) as [a1 ->]; [by left|]. cbn.
  apply IH. intros b y Hy. apply H. by right.
Qed.

Lemma uniq_from_spec (seen : gset string) (l : list string) :
  NoDup (uniq_from seen l)
  /\ forall x, x ∈ uniq_from seen l <-> x ∈ l /\ x ∉ seen.
Proof.
  revert seen. induction l as [|y l IH]; intros seen; cbn [uniq_from].
  - split; [constructor|]. intros x. split.
    + intros H. by apply elem_of_nil in H.
    + intros [H _]. by apply elem_of_nil in H.
  - destruct (decide (y ∈ seen)) as [Hin|Hout].
    + destruct (IH seen) as [Hn He]. split; [exact Hn|].
      intros x. rewrite He, elem_of_cons. split; [tauto|].
      intros [[-> | Hx] Hs]; [contradiction | by split].
    + destruct (IH ({[ y ]} ∪ seen)) as [Hn He]. split.
      * constructor; [|exact Hn]. rewrite He.
        intros [_ Hy]. apply Hy. apply elem_of_union. left.
        by apply elem_of_singleton.
      * intros x. rewrite !elem_of_cons, He, elem_of_union, elem_of_singleton.
        split.
        -- intros [-> | [Hx Hs]]; [by split; [left|] |].
           split; [by right | tauto].
        -- intros [[-> | Hx] Hs]; [by left|].
           destruct (decide (x = y)) as [-> | Hne]; [by left|].
           right. split; [exact Hx | tauto].
Qed.

(** X19.  [_expanded_queries] gives between 1 and 14 queries, all
    different, for every question. *)
Theorem _expanded_queries_are_few_and_distinct (question : string)
    (allow_discovery : bool) :
  (1 <= length (_expanded_queries question allow_discovery) <= 14)%nat
  /\ NoDup (_expanded_queries question allow_discovery).
Proof.
  split.
  - destruct (_expanded_queries_cons question allow_discovery)
      as (q & qs & Hq).
    split; [rewrite Hq; cbn; lia|].
    unfold _expanded_queries, slice_to. cbn [Z.leb Z.compare].
    rewrite length_take. lia.
  - unfold _expanded_queries. apply slice_to_NoDup, uniq_from_spec.
Qed.

End QueryExpansion.

(** *** The picker of URLs ([pick_verified_urls]) *)
Section UrlSelectionLaws.
Import Py UrlPick.

Variable urlparse : string -> result UrlLib.parsed.
Variable serper_organic : string -> Z -> option (list (string * string)).
Variable ddg_links : string -> option (list string).

Section Passes.
Variables (top_k : Z) (allow_discovery ica_only : bool).

Lemma strict_pass_elem (min_score : Q) (scored : list (Q * string))
    (picks : list string) (u : string) :
  u ∈ strict_pass urlparse top_k allow_discovery ica_only min_score scored
        picks ->
  u ∈ picks
  \/ (_official_allowed urlparse u allow_discovery ica_only = true
      /\ u ∈ map snd scored).
Proof.
  revert picks. induction scored as [|[s v] scored IH]; intros picks H.
  - by left.
  - cbn [strict_pass] in H.
    assert (Hstep : forall p,
              (forall w, w ∈ p -> w ∈ picks
                 \/ (_official_allowed urlparse w allow_discovery ica_only
                     = true /\ w ∈ map snd ((s, v) :: scored))) ->
              u ∈ strict_pass urlparse top_k allow_discovery ica_only
                    min_score scored p ->
              u ∈ picks
              \/ (_official_allowed urlparse u allow_discovery ica_only
                  = true /\ u ∈ map snd ((s, v) :: scored))).
    { intros p Hp Hu. destruct (IH p Hu) as [Hin | [Ha Hin]].
      - by apply Hp.
      - right. split; [exact Ha|]. cbn. by right. }
    destruct (qlt s min_score).
    { apply (Hstep picks); [by left | exact H]. }
    destruct (_official_allowed urlparse v allow_discovery ica_only) eqn:Hv;
      cbn [negb] in H.
    2:{ apply (Hstep picks); [by left | exact H]. }
    assert (Hp : forall w, w ∈ picks ++ [v] -> w ∈ picks
                 \/ (_official_allowed urlparse w allow_discovery ica_only
                     = true /\ w ∈ map snd ((s, v) :: scored))).
    { intros w Hw. apply elem_of_app in Hw as [Hw | Hw]; [by left|].
      apply list_elem_of_singleton in Hw as ->. right.
      split; [exact Hv|]. cbn. by left. }
    destruct (full top_k (picks ++ [v])); [by apply Hp|].
    by apply (Hstep (picks ++ [v])).
Qed.

Lemma relaxed_pass_elem (relaxed : Q) (scored : list (Q * string))
    (picks : list string) (u : string) :
  u ∈ relaxed_pass urlparse top_k allow_discovery ica_only relaxed scored
        picks ->
  u ∈ picks
  \/ (_official_allowed urlparse u allow_discovery ica_only = true
      /\ u ∈ map snd scored).
Proof.
  revert picks. induction scored as [|[s v] scored IH]; intros picks H.
  - by left.
  - cbn [relaxed_pass] in H.
    assert (Hstep : forall p,
              (forall w, w ∈ p -> w ∈ picks
                 \/ (_official_allowed urlparse w allow_discovery ica_only
                     = true /\ w ∈ map snd ((s, v) :: scored))) ->
              u ∈ relaxed_pass urlparse top_k allow_discovery ica_only
                    relaxed scored p ->
              u ∈ picks
              \/ (_official_allowed urlparse u allow_discovery ica_only
                  = true /\ u ∈ map snd ((s, v) :: scored))).
    { intros p Hp Hu. destruct (IH p Hu) as [Hin | [Ha Hin]].
      - by apply Hp.
      - right. split; [exact Ha|]. cbn. by right. }
    destruct (full top_k picks); [by left|].
    destruct (qlt s relaxed).
    { apply (Hstep picks); [by left | exact H]. }
    destruct (_official_allowed urlparse v allow_discovery ica_only) eqn:Hv;
      cbn [negb] in H.
    2:{ apply (Hstep picks); [by left | exact H]. }
    destruct (existsb (String.eqb v) picks).
    { apply (Hstep picks); [by left | exact H]. }
    apply (Hstep (picks ++ [v])); [|exact H].
    intros w Hw. apply elem_of_app in Hw as [Hw | Hw]; [by left|].
    apply list_elem_of_singleton in Hw as ->. right.
    split; [exact Hv|]. cbn. by left.
Qed.

Lemma unique_picks_spec (picks : list string) (seen : gset string)
    (uniq : list string) :
  NoDup uniq -> (forall u, u ∈ seen <-> u ∈ uniq) ->
  NoDup (unique_picks top_k picks seen uniq)
  /\ forall u, u ∈ unique_picks top_k picks seen uniq ->
       u ∈ uniq \/ u ∈ picks.
Proof.
  revert seen uniq. induction picks as [|v picks IH]; intros seen uniq Hn Hs.
  - cbn. split; [exact Hn | by left].
  - cbn [unique_picks].
    destruct (decide (v ∈ seen)) as [Hin|Hout].
    + destruct (full top_k uniq); [split; [exact Hn | by left]|].
      destruct (IH seen uniq Hn Hs) as [Hn' He]. split; [exact Hn'|].
      intros u Hu. destruct (He u Hu); [by left | right; by right].
    + assert (Hn2 : NoDup (uniq ++ [v])).
      { apply NoDup_app. split; [exact Hn|]. split.
        - intros w Hw Hv. apply list_elem_of_singleton in Hv as ->.
          apply Hout. by apply Hs.
        - apply NoDup_singleton. }
      assert (He2 : forall u, u ∈ uniq ++ [v] -> u ∈ uniq \/ u ∈ v :: picks).
      { intros u Hu. apply elem_of_app in Hu as [Hu|Hu]; [by left|].
        apply list_elem_of_singleton in Hu as ->. right. by left. }
      destruct (full top_k (uniq ++ [v])); [by split|].
      destruct (IH ({[ v ]} ∪ seen) (uniq ++ [v]) Hn2) as [Hn' He].
      { intros u. rewrite elem_of_union, elem_of_singleton, elem_of_app,
          list_elem_of_singleton, Hs. tauto. }
      split; [exact Hn'|]. intros u Hu.
      destruct (He u Hu) as [Hu'|Hu']; [by apply He2 | right; by right].
Qed.

End Passes.

Lemma consider_row_kept_ok (allow_discovery retail_lock : bool)
    (st st' : gset string * list (string * string))
    (row : string * string) :
  kept_ok urlparse allow_discovery retail_lock st ->
  consider_row urlparse allow_discovery retail_lock st row = Ok st' ->
  kept_ok urlparse allow_discovery retail_lock st'.
Proof.
  intros Hst. unfold consider_row. destruct st as [seen out].
  destruct row as [u s].
  destruct (_normalize_url urlparse u) as [nu|e]; [|discriminate].
  cbn [mbind result_bind Py.bind].
  destruct (_is_probably_dead (PyStr.lower nu)) eqn:Hdead;
    [by intros [= <-]|].
  destruct (negb allow_discovery && _is_aggregator urlparse (PyStr.lower nu))
    eqn:Hagg; [by intros [= <-]|].
  destruct (retail_lock && negb (String.eqb (_domain_of urlparse nu) "ins.tn"))
    eqn:Hdom; [by intros [= <-]|].
  destruct (retail_lock && (_has_any nu NEGATIVE_KWS || _has_any s NEGATIVE_KWS))
    eqn:Hneg; [by intros [= <-]|].
  destruct (decide (nu ∈ seen)) as [Hin|Hout]; [by intros [= <-]|].
  intros [= <-]. destruct Hst as (Hnd & Hseen & Hall).
  unfold kept_ok. cbn [fst snd] in *. split; [|split].
  - rewrite List.map_app. apply NoDup_app. split; [exact Hnd|]. split.
    + intros w Hw Hv. cbn in Hv. apply list_elem_of_singleton in Hv as ->.
      apply Hout. by apply Hseen.
    + apply NoDup_singleton.
  - intros w. rewrite elem_of_union, elem_of_singleton, List.map_app, elem_of_app.
    cbn. rewrite list_elem_of_singleton, Hseen. tauto.
  - intros w sn Hw. apply elem_of_app in Hw as [Hw | Hw]; [by apply Hall|].
    apply list_elem_of_singleton in Hw. injection Hw as -> ->.
    split; [exact Hdead|]. split.
    + intros ->. exact Hagg.
    + intros ->. cbn [andb] in Hdom, Hneg.
      apply negb_false_iff, String.eqb_eq in Hdom.
      apply orb_false_elim in Hneg as [Hn1 Hn2]. by repeat split.
Qed.

(** X16.  The candidates of the search are distinct normalized URLs; none
    has a dead-path fragment; with discovery off none is on an aggregator
    domain; for a retail (ICA) question all are on ins.tn and neither URL
    nor snippet has a negative keyword. *)
Theorem _search_candidates_are_filtered (question : string)
    (allow_discovery : bool) (k : Z) (cands : list (string * string)) :
  _search_candidates urlparse serper_organic ddg_links question
    allow_discovery k = Ok cands ->
  NoDup (map fst cands)
  /\ forall u sn, (u, sn) ∈ cands ->
       _is_probably_dead (PyStr.lower u) = false
       /\ (allow_discovery = false ->
           _is_aggregator urlparse (PyStr.lower u) = false)
       /\ (_looks_like_ica question = true ->
           _domain_of urlparse u = "ins.tn"
           /\ _has_any u NEGATIVE_KWS = false
           /\ _has_any sn NEGATIVE_KWS = false).
Proof.
  unfold _search_candidates.
  destruct (for_each _ _ _) as [st|e] eqn:E; [|discriminate].
  cbn [mbind result_bind Py.bind]. intros [= <-].
  assert (H : kept_ok urlparse allow_discovery (_looks_like_ica question) st).
  { refine (for_each_invariant
              (kept_ok urlparse allow_discovery (_looks_like_ica question))
              _ _ _ _ _ _ E).
    - split; [constructor|]. split.
      + intros u. cbn. split; intros H; [by apply elem_of_empty in H
                                        | by apply elem_of_nil in H].
      + intros u sn H. by apply elem_of_nil in H.
    - intros a q a' _ Ha Hq.
      refine (for_each_invariant
                (kept_ok urlparse allow_discovery (_looks_like_ica question))
                _ _ _ _ Ha _ Hq).
      intros b row b' _. apply consider_row_kept_ok. }
  destruct H as (Hnd & _ & Hall). by split.
Qed.

(** X18.  Every URL whose host ends with ins.tn or bct.gov.tn is a
    trusted one and not one of an aggregator, whatever the parser. *)
Theorem official_urls_are_trusted_and_no_aggregators (u : string) :
  _is_official urlparse u = true ->
  _is_trusted urlparse u = true /\ _is_aggregator urlparse u = false.
Proof.
  intros H. split;
    [by apply official_is_trusted | by apply official_is_no_aggregator].
Qed.

Variable _fast_head_ok : string -> bool.

(** What [pick_verified_urls] returns: distinct URLs, each of them a seed
    or a candidate of the search that the gate lets through. *)
Lemma pick_verified_urls_result (question : string) (top_k : Z)
    (allow_discovery write_links : bool) (min_score : Q)
    (bank urls bank' : list string) :
  pick_verified_urls urlparse serper_organic ddg_links _fast_head_ok question
    top_k allow_discovery write_links min_score bank = Ok (urls, bank') ->
  NoDup urls
  /\ forall u, u ∈ urls ->
       u ∈ seeds (_looks_like_ica question)
       \/ (_official_allowed urlparse u allow_discovery
             (_looks_like_ica question) = true
           /\ exists cands,
                _search_candidates urlparse serper_organic ddg_links question
                  allow_discovery (Z.max 10 (top_k * 4)) = Ok cands
                /\ u ∈ map fst cands).
Proof.
  unfold pick_verified_urls.
  destruct (_search_candidates _ _ _ _ _ _) as [cands|e] eqn:Ec;
    [|discriminate].
  cbn [mbind result_bind Py.bind].
  set (ica := _looks_like_ica question).
  destruct cands as [|c cands'].
  { intros [= <- <-]. split; [apply slice_to_NoDup, seeds_NoDup|].
    intros u Hu. left. by apply slice_to_elem in Hu. }
  set (cands := c :: cands') in *.
  cbv zeta.
  set (scored := sorted_desc _).
  set (picks1 := strict_pass _ _ _ _ _ scored []).
  set (picks2 := if _ && _ then _ else picks1).
  set (uniq := unique_picks top_k picks2 ∅ []).
  set (validated1 := filter _ uniq).
  set (validated2 := match validated1, uniq with
                     | [], _ :: _ => slice_to 1 uniq
                     | _, _ => validated1
                     end).
  set (validated3 := match validated2 with
                     | [] => slice_to top_k (seeds ica)
                     | _ :: _ => validated2
                     end).
  intros [= <- _].
  pose (good := fun u : string =>
          _official_allowed urlparse u allow_discovery ica = true
          /\ u ∈ map fst cands).
  assert (Hscored : forall u, u ∈ map snd scored -> u ∈ map fst cands).
  { intros u Hu. subst scored. rewrite sorted_desc_perm in Hu.
    rewrite map_map in Hu. exact Hu. }
  assert (H1 : forall u, u ∈ picks1 -> good u).
  { intros u Hu. apply strict_pass_elem in Hu as [Hu | [Ha Hu]].
    - by apply elem_of_nil in Hu.
    - split; [exact Ha | by apply Hscored]. }
  assert (H2 : forall u, u ∈ picks2 -> good u).
  { intros u Hu. subst picks2. destruct (_ && _); [|by apply H1].
    apply relaxed_pass_elem in Hu as [Hu | [Ha Hu]]; [by apply H1|].
    split; [exact Ha | by apply Hscored]. }
  destruct (unique_picks_spec top_k picks2 ∅ []) as [Hnd Hel].
  { constructor. }
  { intros u. split; intros H; [by apply elem_of_empty in H
                                | by apply elem_of_nil in H]. }
  fold uniq in Hnd, Hel.
  assert (H3 : forall u, u ∈ uniq -> good u).
  { intros u Hu. destruct (Hel u Hu) as [Hu'|Hu'];
      [by apply elem_of_nil in Hu' | by apply H2]. }
  assert (Hv1 : NoDup validated1 /\ forall u, u ∈ validated1 -> good u).
  { subst validated1. split; [by apply NoDup_filter|].
    intros u Hu. apply list_elem_of_filter in Hu as [_ Hu]. by apply H3. }
  assert (Hv2 : NoDup validated2 /\ forall u, u ∈ validated2 -> good u).
  { subst validated2. destruct validated1 as [|v vs]; [|exact Hv1].
    destruct uniq as [|w ws] eqn:Eu; [exact Hv1|].
    split; [by apply slice_to_NoDup|].
    intros u Hu. apply H3. by apply slice_to_elem in Hu. }
  assert (Hv3 : NoDup validated3
                /\ forall u, u ∈ validated3 -> u ∈ seeds ica \/ good u).
  { subst validated3. destruct validated2 as [|v vs].
    - split; [apply slice_to_NoDup, seeds_NoDup|].
      intros u Hu. left. by apply slice_to_elem in Hu.
    - split; [apply Hv2|]. intros u Hu. right. by apply Hv2. }
  destruct Hv3 as [Hn3 He3]. split; [by apply slice_to_NoDup|].
  intros u Hu. apply slice_to_elem in Hu.
  destruct (He3 u Hu) as [Hs | [Ha Hc]]; [by left|].
  right. split; [exact Ha|]. exists cands. by split.
Qed.

(** X14.  [pick_verified_urls] never returns the same URL twice. *)
Theorem pick_verified_urls_returns_distinct_urls (question : string)
    (top_k : Z) (allow_discovery write_links : bool) (min_score : Q)
    (bank urls bank' : list string) :
  pick_verified_urls urlparse serper_organic ddg_links _fast_head_ok question
    top_k allow_discovery write_links min_score bank = Ok (urls, bank') ->
  NoDup urls.
Proof. intros H. by apply pick_verified_urls_result in H as [H _]. Qed.

Lemma _official_allowed_strict (u : string) (ica_only : bool) :
  _official_allowed urlparse u false ica_only = true ->
  _is_official urlparse u = true.
Proof.
  unfold _official_allowed, _is_official. cbn [andb].
  destruct ica_only; [|done]. intros ->. reflexivity.
Qed.

(** X15.  With discovery off the picker is official-only: every URL it
    returns is one of the fixed official seeds or has a host ending with
    ins.tn or bct.gov.tn; for a retail (ICA) question the host ends with
    ins.tn. *)
Theorem pick_verified_urls_is_official_only_without_discovery
    (question : string) (top_k : Z) (write_links : bool) (min_score : Q)
    (bank urls bank' : list string) (u : string) :
  pick_verified_urls urlparse serper_organic ddg_links _fast_head_ok question
    top_k false write_links min_score bank = Ok (urls, bank') ->
  u ∈ urls ->
  u ∈ seeds (_looks_like_ica question)
  \/ (_is_official urlparse u = true
      /\ (_looks_like_ica question = true ->
          PyStr.endswith (_domain_of urlparse u) "ins.tn" = true)).
Proof.
  intros H Hu. apply pick_verified_urls_result in H as [_ H].
  destruct (H u Hu) as [Hs | [Ha _]]; [by left|]. right.
  split; [by apply (_official_allowed_strict u (_looks_like_ica question))|].
  intros Hica. rewrite Hica in Ha. exact Ha.
Qed.


Lemma consider_row_returns (allow_discovery retail_lock : bool)
    (st : gset string * list (string * string)) (u sn : string) :
  (exists p, urlparse u = Ok p) ->
  exists st', consider_row urlparse allow_discovery retail_lock st (u, sn)
              = Ok st'.
Proof.
  intros [p Hp]. unfold consider_row, _normalize_url. destruct st as [seen out].
  rewrite Hp. cbn [mbind result_bind Py.bind].
  repeat match goal with
         | |- context [if ?c then _ else _] => destruct c
         end; eauto.
Qed.

Lemma _serper_search_elem (q : string) (k : Z) (u sn : string) :
  (u, sn) ∈ _serper_search serper_organic q k ->
  exists items u0 sn0,
    serper_organic q k = Some items /\ (u0, sn0) ∈ items
    /\ u = PyStr.strip u0.
Proof.
  unfold _serper_search. destruct (serper_organic q k) as [items|];
    [|intros H; by apply elem_of_nil in H].
  intros H. apply list_elem_of_filter in H as [_ H].
  apply list_elem_of_fmap in H as ([u0 sn0] & Heq & Hin).
  cbn in Heq. injection Heq as -> ->. by exists items, u0, sn0.
Qed.

Lemma _ddg_fallback_elem (q : string) (k : Z) (u sn : string) :
  (u, sn) ∈ _ddg_fallback ddg_links q k ->
  exists links, ddg_links q = Some links /\ u ∈ links.
Proof.
  unfold _ddg_fallback. destruct (ddg_links q) as [links|];
    [|intros H; by apply elem_of_nil in H].
  intros H. apply list_elem_of_fmap in H as (href & Heq & Hin).
  injection Heq as -> _. apply list_elem_of_filter in Hin as [_ Hin].
  apply slice_to_elem in Hin. by exists links.
Qed.

(** X17.  [pick_verified_urls] returns, without raising, whenever the
    parser accepts every link of every answer of the two search
    services. *)
Theorem pick_verified_urls_returns_when_links_parse (question : string)
    (top_k : Z) (allow_discovery write_links : bool) (min_score : Q)
    (bank : list string) :
  (forall q k items u sn,
     serper_organic q k = Some items -> (u, sn) ∈ items ->
     exists p, urlparse (PyStr.strip u) = Ok p) ->
  (forall q links u,
     ddg_links q = Some links -> u ∈ links -> exists p, urlparse u = Ok p) ->
  exists urls bank',
    pick_verified_urls urlparse serper_organic ddg_links _fast_head_ok
      question top_k allow_discovery write_links min_score bank
    = Ok (urls, bank').
Proof.
  intros Hserper Hddg.
  assert (Hc : exists cands,
             _search_candidates urlparse serper_organic ddg_links question
               allow_discovery (Z.max 10 (top_k * 4)) = Ok cands).
  { unfold _search_candidates.
    match goal with
    | |- exists _, (for_each ?body ?l ?a ≫= _) = _ =>
        destruct (for_each_returns body l a) as [st Hst]
    end.
    - intros st q _. apply for_each_returns. intros st1 [u sn] Hrow.
      apply consider_row_returns.
      destruct (_serper_search serper_organic q (Z.max 10 (top_k * 4)))
        as [|r rows] eqn:Es.
      + apply _ddg_fallback_elem in Hrow as (links & Hl & Hu).
        by apply (Hddg q links).
      + rewrite <- Es in Hrow.
        apply _serper_search_elem in Hrow as (items & u0 & sn0 & Hi & Hu & ->).
        by apply (Hserper q (Z.max 10 (top_k * 4)) items u0 sn0).
    - rewrite Hst. cbn. eauto. }
  destruct Hc as [cands Hc]. unfold pick_verified_urls. rewrite Hc.
  cbn [mbind result_bind Py.bind]. destruct cands; eauto.
Qed.

End UrlSelectionLaws.

(** *** The bank of links ([_append_link_bank]) *)
Section LinkBank.
Import Py UrlPick.

Lemma existsb_eqb_elem (u : string) (l : list string) :
  existsb (String.eqb u) l = true <-> u ∈ l.
Proof.
  induction l as [|x l IH]; cbn.
  - split; [discriminate | intros H; by apply elem_of_nil in H].
  - rewrite orb_true_iff, IH, elem_of_cons, String.eqb_eq. tauto.
Qed.

Lemma _append_link_bank_added (urls existing : list string) :
  exists added,
    _append_link_bank urls existing = existing ++ added
    /\ NoDup added
    /\ forall u, u ∈ added -> u ∈ urls /\ u ∉ existing.
Proof.
  unfold _append_link_bank. revert existing.
  induction urls as [|x urls IH]; intros existing; cbn [fold_left].
  - exists []. rewrite app_nil_r. split; [done|]. split; [constructor|].
    intros u H. by apply elem_of_nil in H.
  - destruct (existsb (String.eqb x) existing) eqn:Ex.
    + destruct (IH existing) as (added & -> & Hn & Ha).
      exists added. split; [done|]. split; [exact Hn|].
      intros u Hu. destruct (Ha u Hu). split; [by right | done].
    + destruct (IH (existing ++ [x])) as (added & -> & Hn & Ha).
      exists (x :: added). rewrite <- app_assoc. split; [done|]. split.
      * constructor; [|exact Hn]. intros Hx. destruct (Ha x Hx) as [_ Hne].
        apply Hne. apply elem_of_app. right. by left.
      * intros u Hu. apply elem_of_cons in Hu as [-> | Hu].
        -- split; [by left|]. intros Hin. apply existsb_eqb_elem in Hin.
           congruence.
        -- destruct (Ha u Hu) as [H1 H2]. split; [by right|].
           intros Hin. apply H2. apply elem_of_app. by left.
Qed.

Lemma _append_link_bank_holds_all (urls existing : list string) (u : string) :
  u ∈ urls \/ u ∈ existing -> u ∈ _append_link_bank urls existing.
Proof.
  unfold _append_link_bank. revert existing.
  induction urls as [|x urls IH]; intros existing H; cbn [fold_left].
  - destruct H as [H|H]; [by apply elem_of_nil in H | exact H].
  - apply IH. destruct (existsb (String.eqb x) existing) eqn:Ex.
    + destruct H as [H|H]; [|by right].
      apply elem_of_cons in H as [-> | H]; [|by left].
      right. by apply existsb_eqb_elem.
    + destruct H as [H|H].
      * apply elem_of_cons in H as [-> | H]; [|by left].
        right. apply elem_of_app. right. by left.
      * right. apply elem_of_app. by left.
Qed.

Lemma _append_link_bank_nothing_new (urls merged : list string) :
  (forall u, u ∈ urls -> u ∈ merged) ->
  _append_link_bank urls merged = merged.
Proof.
  unfold _append_link_bank.
  induction urls as [|x urls IH]; intros H; cbn [fold_left]; [done|].
  assert (Hx : existsb (String.eqb x) merged = true).
  { apply existsb_eqb_elem. apply H. by left. }
  rewrite Hx. apply IH. intros u Hu. apply H. by right.
Qed.

(** X20.  [_append_link_bank] keeps the links of the bank, in order, and
    appends after them the URLs that are not yet there, each once; all the
    URLs given are in the bank afterwards, and giving them again changes
    nothing. *)
Theorem _append_link_bank_extends_the_bank (urls existing : list string) :
  (exists added,
     _append_link_bank urls existing = existing ++ added
     /\ NoDup added
     /\ forall u, u ∈ added -> u ∈ urls /\ u ∉ existing)
  /\ (forall u, u ∈ urls -> u ∈ _append_link_bank urls existing)
  /\ _append_link_bank urls (_append_link_bank urls existing)
     = _append_link_bank urls existing.
Proof.
  split; [apply _append_link_bank_added|]. split.
  - intros u Hu. apply _append_link_bank_holds_all. by left.
  - apply _append_link_bank_nothing_new. intros u Hu.
    apply _append_link_bank_holds_all. by left.
Qed.

End LinkBank.

Section UrlSelectionLawsExamples.
Import Py UrlLib UrlPick Samples.

Lemma sample_pick :
  pick_verified_urls urlparse sample_answer sample_fallback sample_probe
    "inflation" 3 false true (48 # 10) []
  = Ok ([ "https://ins.tn/statistiques/2024"; "https://bct.gov.tn/a.pdf" ],
        [ "https://ins.tn/statistiques/2024"; "https://bct.gov.tn/a.pdf" ]).
Proof. vm_compute. reflexivity. Qed.

Lemma pick_verified_urls_returns_distinct_urls_witness :
  pick_verified_urls urlparse sample_answer sample_fallback sample_probe
    "inflation" 3 false true (48 # 10) []
  = Ok ([ "https://ins.tn/statistiques/2024"; "https://bct.gov.tn/a.pdf" ],
        [ "https://ins.tn/statistiques/2024"; "https://bct.gov.tn/a.pdf" ])
  /\ NoDup [ "https://ins.tn/statistiques/2024"; "https://bct.gov.tn/a.pdf" ].
Proof.
  split; [exact sample_pick|].
  exact (pick_verified_urls_returns_distinct_urls urlparse sample_answer
           sample_fallback sample_probe _ _ _ _ _ _ _ _ sample_pick).
Defined.

Lemma pick_verified_urls_is_official_only_without_discovery_witness :
  pick_verified_urls urlparse sample_answer sample_fallback sample_probe
    "inflation" 3 false true (48 # 10) []
  = Ok ([ "https://ins.tn/statistiques/2024"; "https://bct.gov.tn/a.pdf" ],
        [ "https://ins.tn/statistiques/2024"; "https://bct.gov.tn/a.pdf" ])
  /\ "https://bct.gov.tn/a.pdf"
     ∈ [ "https://ins.tn/statistiques/2024"; "https://bct.gov.tn/a.pdf" ]
  /\ ("https://bct.gov.tn/a.pdf" ∈ seeds (_looks_like_ica "inflation")
      \/ (_is_official urlparse "https://bct.gov.tn/a.pdf" = true
          /\ (_looks_like_ica "inflation" = true ->
              PyStr.endswith (_domain_of urlparse "https://bct.gov.tn/a.pdf")
                "ins.tn" = true))).
Proof.
  assert (Hin : "https://bct.gov.tn/a.pdf"
     ∈ [ "https://ins.tn/statistiques/2024"; "https://bct.gov.tn/a.pdf" ])
    by (right; left).
  split; [exact sample_pick|]. split; [exact Hin|].
  exact (pick_verified_urls_is_official_only_without_discovery urlparse
           sample_answer sample_fallback sample_probe _ _ _ _ _ _ _ _
           sample_pick Hin).
Defined.

Lemma sample_candidates :
  exists cands,
    _search_candidates urlparse sample_answer sample_fallback "inflation"
      false 12 = Ok cands.
Proof. eexists. vm_compute. reflexivity. Qed.

Lemma _search_candidates_are_filtered_witness :
  exists cands,
    _search_candidates urlparse sample_answer sample_fallback "inflation"
      false 12 = Ok cands
    /\ NoDup (map fst cands)
    /\ forall u sn, (u, sn) ∈ cands ->
         _is_probably_dead (PyStr.lower u) = false
         /\ (false = false ->
             _is_aggregator urlparse (PyStr.lower u) = false)
         /\ (_looks_like_ica "inflation" = true ->
             _domain_of urlparse u = "ins.tn"
             /\ _has_any u NEGATIVE_KWS = false
             /\ _has_any sn NEGATIVE_KWS = false).
Proof.
  destruct sample_candidates as [cands H]. exists cands.
  split; [exact H|].
  exact (_search_candidates_are_filtered urlparse sample_answer
           sample_fallback _ _ _ _ H).
Defined.

Lemma sample_links_parse :
  forall q k items u sn,
    sample_answer q k = Some items -> (u, sn) ∈ items ->
    exists p, urlparse (PyStr.strip u) = Ok p.
Proof.
  intros q k items u sn [= <-] Hin.
  repeat (apply elem_of_cons in Hin as [Hin | Hin];
          [injection Hin as -> ->; eexists; vm_compute; reflexivity|]).
  by apply elem_of_nil in Hin.
Qed.

Lemma sample_fallback_parses :
  forall q links u,
    sample_fallback q = Some links -> u ∈ links ->
    exists p, urlparse u = Ok p.
Proof. intros q links u H. discriminate H. Qed.

Lemma pick_verified_urls_returns_when_links_parse_witness :
  (forall q k items u sn,
     sample_answer q k = Some items -> (u, sn) ∈ items ->
     exists p, urlparse (PyStr.strip u) = Ok p)
  /\ (forall q links u,
        sample_fallback q = Some links -> u ∈ links ->
        exists p, urlparse u = Ok p)
  /\ exists urls bank',
       pick_verified_urls urlparse sample_answer sample_fallback sample_probe
         "inflation" 3 true true (48 # 10) []
       = Ok (urls, bank').
Proof.
  split; [exact sample_links_parse|]. split; [exact sample_fallback_parses|].
  exact (pick_verified_urls_returns_when_links_parse urlparse sample_answer
           sample_fallback sample_probe "inflation" 3 true true (48 # 10) []
           sample_links_parse sample_fallback_parses).
Defined.

Lemma official_urls_are_trusted_and_no_aggregators_witness :
  _is_official urlparse "https://www.ins.tn/statistiques" = true
  /\ _is_trusted urlparse "https://www.ins.tn/statistiques" = true
  /\ _is_aggregator urlparse "https://www.ins.tn/statistiques" = false.
Proof.
  assert (H : _is_official urlparse "https://www.ins.tn/statistiques" = true)
    by (vm_compute; reflexivity).
  split; [exact H|].
  exact (official_urls_are_trusted_and_no_aggregators urlparse _ H).
Defined.

Lemma pick_verified_urls_shape_witness :
  1 <= 3
  /\ pick_verified_urls urlparse sample_answer sample_fallback sample_probe
       "inflation" 3 false true (48 # 10) []
     = Ok ([ "https://ins.tn/statistiques/2024"; "https://bct.gov.tn/a.pdf" ],
           [ "https://ins.tn/statistiques/2024"; "https://bct.gov.tn/a.pdf" ])
  /\ [ "https://ins.tn/statistiques/2024"; "https://bct.gov.tn/a.pdf" ] <> []
  /\ Z.of_nat (length [ "https://ins.tn/statistiques/2024";
                        "https://bct.gov.tn/a.pdf" ]) <= 3.
Proof.
  split; [lia|]. split; [exact sample_pick|].
  exact (pick_verified_urls_shape urlparse sample_answer sample_fallback
           sample_probe "inflation" 3 false true (48 # 10) [] _ _
           ltac:(lia) sample_pick).
Defined.

End UrlSelectionLawsExamples.

(** *** The regular-expression matcher *)
Section RegexSoundness.
Import Re.

Lemma firstn_consumed (w tail : list ascii) :
  firstn (List.length (w ++ tail) - List.length tail) (w ++ tail) = w.
Proof.
  rewrite length_app.
  replace (List.length w + List.length tail - List.length tail)%nat
    with (List.length w) by lia.
  by rewrite firstn_app, Nat.sub_diag, firstn_all, app_nil_r.
Qed.

Lemma star_loop_sound (a : re) (fuel : nat) (s s' : state) :
  (forall s1 s2, In s2 (matches a s1) -> sound_step a s1 s2) ->
  In s' (star_loop (matches a) fuel s) -> sound_step (Star a) s s'.
Proof.
  intros Ha. revert s. induction fuel as [|fuel IH]; intros s H.
  - cbn in H. destruct H as [<- | []].
    exists [], []. repeat split; try done.
    + exists []. split; [done | constructor].
    + intros i t Hin. by apply elem_of_nil in Hin.
  - cbn [star_loop] in H. apply in_app_or in H as [H | [<- | []]].
    + apply in_flat_map in H as (s1 & Hs1 & H).
      destruct (Nat.ltb _ _); [|destruct H].
      destruct (Ha s s1 Hs1) as (w1 & n1 & Hr1 & Hl1 & Hc1 & Hg1).
      destruct (IH s1 H) as (w2 & n2 & Hr2 & Hl2 & Hc2 & Hg2).
      exists (w1 ++ w2), (n2 ++ n1). split; [|split; [|split]].
      * by rewrite Hr1, Hr2, app_assoc.
      * destruct Hl2 as (ws & -> & Hws). exists (w1 :: ws).
        split; [done | by constructor].
      * by rewrite Hc2, Hc1, app_assoc.
      * intros i t Hin. apply elem_of_app in Hin as [Hin | Hin].
        -- by apply Hg2.
        -- cbn. by apply Hg1.
    + exists [], []. repeat split; try done.
      * exists []. split; [done | constructor].
      * intros i t Hin. by apply elem_of_nil in Hin.
Qed.

Lemma matches_sound (r : re) (s s' : state) :
  In s' (matches r s) -> sound_step r s s'.
Proof.
  revert s s'. induction r as [|p|a IHa b IHb|a IHa b IHb|a IHa|j a IHa|];
    intros s s' H; cbn [matches] in H.
  - destruct H as [<- | []]. exists [], []. repeat split; try done.
    intros i t Hin. by apply elem_of_nil in Hin.
  - destruct (rest s) as [|c tail] eqn:Er; [destruct H|].
    destruct (p c) eqn:Hp; [|destruct H]. destruct H as [<- | []].
    exists [c], []. cbn. repeat split; try done.
    + by exists c.
    + intros i t Hin. by apply elem_of_nil in Hin.
  - apply in_flat_map in H as (s1 & Hs1 & H).
    destruct (IHa s s1 Hs1) as (w1 & n1 & Hr1 & Hl1 & Hc1 & Hg1).
    destruct (IHb s1 s' H) as (w2 & n2 & Hr2 & Hl2 & Hc2 & Hg2).
    exists (w1 ++ w2), (n2 ++ n1). split; [|split; [|split]].
    + by rewrite Hr1, Hr2, app_assoc.
    + by exists w1, w2.
    + by rewrite Hc2, Hc1, app_assoc.
    + intros i t Hin. cbn. apply elem_of_app in Hin as [Hin | Hin];
        [right; by apply Hg2 | left; by apply Hg1].
  - apply in_app_or in H as [H | H].
    + destruct (IHa s s' H) as (w & n & Hr & Hl & Hc & Hg).
      exists w, n. repeat split; try done; [by left|].
      intros i t Hin. left. by apply Hg.
    + destruct (IHb s s' H) as (w & n & Hr & Hl & Hc & Hg).
      exists w, n. repeat split; try done; [by right|].
      intros i t Hin. right. by apply Hg.
  - by apply (star_loop_sound a (List.length (rest s))).
  - apply in_map_iff in H as (s1 & <- & Hs1).
    destruct (IHa s s1 Hs1) as (w & n & Hr & Hl & Hc & Hg).
    cbn [rest caps]. rewrite Hr, firstn_consumed.
    exists w, ((j, string_of_list_ascii w) :: n). split; [done|].
    split; [exact Hl|]. split; [by rewrite Hc|].
    intros i t Hin. cbn. apply elem_of_cons in Hin as [Heq | Hin].
    + injection Heq as -> ->. left. split; [done|].
      by rewrite list_ascii_of_string_of_list_ascii.
    + right. by apply Hg.
  - destruct (xorb _ _); [|destruct H]. destruct H as [<- | []].
    exists [], []. repeat split; try done.
    intros i t Hin. by apply elem_of_nil in Hin.
Qed.

Lemma group_in_elem (l : list (nat * string)) (i : nat) (t : string) :
  group_in l i = Some t -> (i, t) ∈ l.
Proof.
  induction l as [|[j u] l IH]; cbn; [discriminate|].
  destruct (Nat.eqb_spec i j) as [-> | Hne].
  - intros [= ->]. by left.
  - intros H. right. by apply IH.
Qed.

Lemma match_at_sound (r : re) (before : option ascii) (text : list ascii)
    (m : match_obj) :
  match_at r before text = Some m -> sound_match r m.
Proof.
  unfold match_at.
  destruct (matches r (State before text [])) as [|s' l] eqn:E;
    [discriminate|].
  intros [= <-].
  destruct (matches_sound r (State before text []) s')
    as (w & new & Hr & Hl & Hc & Hg); [rewrite E; by left|].
  cbn [rest caps] in Hr, Hc. rewrite app_nil_r in Hc. subst text.
  split; cbn [group0 group groups].
  - by rewrite firstn_consumed, list_ascii_of_string_of_list_ascii.
  - intros i t Hi. apply Hg. rewrite <- Hc. by apply group_in_elem.
Qed.

Lemma search_from_sound (r : re) (before : option ascii) (text : list ascii)
    (m : match_obj) :
  search_from r before text = Some m -> sound_match r m.
Proof.
  revert before. induction text as [|c text IH]; intros before;
    cbn [search_from].
  - destruct (match_at r before []) as [m'|] eqn:E; [|discriminate].
    intros [= <-]. by apply (match_at_sound r before []).
  - destruct (match_at r before (c :: text)) as [m'|] eqn:E.
    + intros [= <-]. by apply (match_at_sound r before (c :: text)).
    + apply IH.
Qed.

Lemma search_sound (r : re) (text : string) (m : match_obj) :
  search r text = Some m -> sound_match r m.
Proof. apply search_from_sound. Qed.

End RegexSoundness.

(** Inversion of [lang] on a concrete pattern. *)
Ltac lang_inv :=
  repeat (match goal with
    | H : Re.lang _ _ |- _ => progress cbn [Re.lang Re.Alts Re.Lit Re.LitI Re.Is Re.Opt Re.Plus Re.Rep Re.UpTo Re.digit
                      Re.space] in H
    | H : exists _, _ |- _ => destruct H
    | H : _ /\ _ |- _ => destruct H
    | H : _ \/ _ |- _ => destruct H
    | H : Ascii.eqb _ _ = true |- _ => apply Ascii.eqb_eq in H
    end; subst).

Ltac range_facts :=
  repeat match goal with
    | H : PyStr.is_digit _ = true |- _ => unfold PyStr.is_digit in H
    | H : PyStr.in_range _ _ _ = true |- _ =>
        unfold PyStr.in_range in H; apply andb_prop in H as [? ?]
    | H : Nat.leb _ _ = true |- _ => apply Nat.leb_le in H
    end.

Ltac literal_codes :=
  repeat match goal with
    | |- context [nat_of_ascii (Ascii ?a ?b ?c ?d ?e ?f ?g ?h)] =>
        let n := eval vm_compute in
                   (nat_of_ascii (Ascii a b c d e f g h)) in
        change (nat_of_ascii (Ascii a b c d e f g h)) with n
    end.

Section YearExtraction.
Import Re IndicatorMatcher.

(** X22.  The year [extract_year] finds in a text lies between 1970 and
    2039. *)
Theorem extract_year_is_between_1970_and_2039 (text : string) (y : Z) :
  extract_year text = Some y -> 1970 <= y <= 2039.
Proof.
  unfold extract_year.
  destruct (search YEAR_PATTERN text) as [m|] eqn:E; [|discriminate].
  intros [= <-]. apply search_sound in E as [H _].
  revert H. generalize (list_ascii_of_string (group0 m)). intros w H.
  unfold YEAR_PATTERN in H. cbn [Alts Lit Is digit] in H.
  lang_inv; range_facts; cbn; unfold PyStr.code in *; literal_codes; lia.
Qed.
End YearExtraction.

Section ValueUnits.
Import Py Re IndicatorMatcher.

Lemma unit_word_list_is_coarsened (l : list ascii) (val : Q) :
  lang UNIT_WORDS l ->
  PyStr.lower (PyStr.strip (string_of_list_ascii l)) <> ""
  /\ snd (normalize_unit val
            (PyStr.lower (PyStr.strip (string_of_list_ascii l))))
     ∈ ["%"; "TND"; "USD"; "EUR"].
Proof.
  intros H. unfold UNIT_WORDS in H. cbn [Alts Lit Is Opt] in H.
  lang_inv;
    (split; [intros Hne; vm_compute in Hne; discriminate Hne|]);
    vm_compute; repeat (first [ by left | right ]).
Qed.

Lemma unit_word_is_coarsened (t : string) (val : Q) :
  lang UNIT_WORDS (list_ascii_of_string t) ->
  PyStr.lower (PyStr.strip t) <> ""
  /\ snd (normalize_unit val (PyStr.lower (PyStr.strip t)))
     ∈ ["%"; "TND"; "USD"; "EUR"].
Proof.
  intros H. apply (unit_word_list_is_coarsened _ val) in H.
  by rewrite string_of_list_ascii_of_string in H.
Qed.

Lemma first_numeric_token_unit (t : string) (val : Q) (u0 : string) :
  first_numeric_token t = Some (val, Some u0) ->
  exists g, u0 = PyStr.lower (PyStr.strip g)
            /\ lang UNIT_WORDS (list_ascii_of_string g).
Proof.
  unfold first_numeric_token.
  destruct (search VALUE_PATTERN t) as [m|] eqn:E; [|discriminate].
  cbn [mbind option_bind]. unfold token_of_match.
  destruct (parse_float _); [|discriminate].
  destruct (group m 3) as [g|] eqn:Eg; cbn [default].
  - destruct (String.eqb _ _); [discriminate|]. intros [= _ <-].
    exists g. split; [reflexivity|].
    apply search_sound in E as [_ Hg]. specialize (Hg 3%nat g Eg).
    unfold VALUE_PATTERN, NUMBER, RepRange, RepMin, Plus, Opt in Hg.
    cbn [glang Rep UpTo Opt Plus Init.Nat.sub digit space] in Hg.
    repeat match type of Hg with
           | _ \/ _ => destruct Hg as [Hg | Hg]
           | _ /\ _ => destruct Hg as [Heq Hg]
           end; try (by destruct Hg); try discriminate Heq;
      try exact Hg.
    exfalso. revert Hg. unfold UNIT_WORDS.
    cbn [glang Alts Lit Is Opt]. tauto.
  - intros H. exfalso. revert H. vm_compute. discriminate.
Qed.

(** X23.  A unit returned by [extract_value] is one of the four coarse
    units. *)
Theorem extract_value_unit_is_one_of_four (text : string) (v : option Q)
    (u : string) :
  extract_value text = (v, Some u) -> u ∈ ["%"; "TND"; "USD"; "EUR"].
Proof.
  unfold extract_value.
  destruct (first_numeric_token (prepare text)) as [[val [u0|]]|] eqn:E;
    [| |discriminate].
  - cbn [andb]. rewrite !andb_false_r. cbn.
    destruct (first_numeric_token_unit _ _ _ E) as (g & -> & Hg).
    destruct (unit_word_is_coarsened g val Hg) as [_ Hin].
    destruct (normalize_unit val _) as [v' u']. intros [= _ <-]. exact Hin.
  - destruct (_ && _); discriminate.
Qed.
End ValueUnits.

Section ValueSign.
Import Py Re IndicatorMatcher.

Lemma read_digits_are_digits (l ds r : list ascii) :
  read_digits l = (ds, r) -> Forall (fun c => PyStr.is_digit c = true) ds.
Proof.
  revert ds r. induction l as [|c l IH]; intros ds r; cbn.
  - intros [= <- <-]. constructor.
  - destruct (PyStr.is_digit c) eqn:Hc.
    + destruct (read_digits l) as [ds' r']. intros [= <- <-].
      constructor; [exact Hc | by apply (IH ds' r')].
    + intros [= <- <-]. constructor.
Qed.

Lemma digits_to_Z_nonneg (ds : list ascii) :
  Forall (fun c => PyStr.is_digit c = true) ds -> 0 <= digits_to_Z ds.
Proof.
  unfold digits_to_Z.
  assert (H : forall acc, 0 <= acc ->
            Forall (fun c => PyStr.is_digit c = true) ds ->
            0 <= fold_left
                   (fun acc c => 10 * acc + (Z.of_nat (PyStr.code c) - 48))
                   ds acc).
  { induction ds as [|c ds IH]; intros acc Hacc Hds; cbn; [exact Hacc|].
    apply Forall_cons in Hds as [Hc Hds]. apply IH; [|exact Hds].
    unfold PyStr.is_digit, PyStr.in_range in Hc.
    apply andb_prop in Hc as [Hlo _]. apply Nat.leb_le in Hlo. lia. }
  apply H. lia.
Qed.

Lemma parse_float_nonneg (raw : string) (q : Q) :
  parse_float raw = Some q -> (0 <= q)%Q.
Proof.
  unfold parse_float.
  destruct (read_digits (list_ascii_of_string raw)) as [ip r1] eqn:E1.
  assert (Hip := read_digits_are_digits _ _ _ E1).
  assert (Hfp : forall fp r2,
            match r1 with
            | c :: r1' => if Ascii.eqb c "." then read_digits r1' else ([], r1)
            | [] => ([], [])
            end = (fp, r2) ->
            Forall (fun c => PyStr.is_digit c = true) fp).
  { intros fp r2. destruct r1 as [|c r1']; [intros [= <- <-]; constructor|].
    destruct (Ascii.eqb c ".").
    - apply read_digits_are_digits.
    - intros [= <- <-]. constructor. }
  destruct (match r1 with
            | c :: r1' => if Ascii.eqb c "." then read_digits r1' else ([], r1)
            | [] => ([], [])
            end) as [fp r2] eqn:E2.
  specialize (Hfp fp r2 eq_refl).
  apply digits_to_Z_nonneg in Hip, Hfp.
  assert (Hq : forall n : Z, 0 <= n ->
            (0 <= Qred (Qmake (digits_to_Z ip * 10 ^ n + digits_to_Z fp)
                              (Z.to_pos (10 ^ n))))%Q).
  { intros n Hn. rewrite Qred_correct. unfold Qle. cbn.
    assert (0 < 10 ^ n) by (apply Z.pow_pos_nonneg; lia). nia. }
  destruct r2; [|discriminate].
  destruct ip, fp; try discriminate; intros [= <-]; apply Hq; lia.
Qed.

Lemma normalize_unit_nonneg (val : Q) (unit : string) :
  (0 <= val)%Q -> (0 <= fst (normalize_unit val unit))%Q.
Proof.
  intros H. unfold normalize_unit.
  repeat match goal with
         | |- context [if ?c then _ else _] => destruct c
         end; cbn [fst]; rewrite ?Qred_correct; try exact H;
    apply Qmult_le_0_compat; try exact H; discriminate.
Qed.

(** X24.  A value returned by [extract_value] is never negative: the
    pattern reads no sign. *)
Theorem extract_value_is_never_negative (text : string) (v : Q)
    (u : option string) :
  extract_value text = (Some v, u) -> (0 <= v)%Q.
Proof.
  unfold extract_value.
  destruct (first_numeric_token (prepare text)) as [[val unit]|] eqn:E;
    [|discriminate].
  assert (Hval : (0 <= val)%Q).
  { unfold first_numeric_token in E.
    destruct (search VALUE_PATTERN (prepare text)) as [m|]; [|discriminate].
    cbn [mbind option_bind] in E. unfold token_of_match in E.
    destruct (parse_float _) as [q|] eqn:Eq; [|discriminate].
    injection E as <- _. by apply parse_float_nonneg in Eq. }
  destruct (_ && _); [discriminate|].
  destruct unit as [u0|].
  - pose proof (normalize_unit_nonneg val u0 Hval) as Hn.
    destruct (normalize_unit val u0) as [v' u']. intros [= <- _]. exact Hn.
  - by intros [= <- _].
Qed.
End ValueSign.

Section RecordYear.
Import Py Re ExtractorYear.

Lemma date_year_group (g : list ascii) :
  lang (Alts
       [ Seq (Lit "19") (Seq (Chr (PyStr.in_range 55 57)) digit);
         Seq (Lit "20") (Seq (Chr (PyStr.in_range 48 52)) digit);
         Lit "2025" ]) g ->
  1970 <= IndicatorMatcher.digits_to_Z g <= 2049.
Proof.
  intros H. cbn [Alts Lit Is digit] in H.
  lang_inv; range_facts; cbn; unfold PyStr.code in *; literal_codes; lia.
Qed.

Lemma year_of_dates_range (rec : record) (keys : list string) (y : Z) :
  year_of_dates rec keys = Some y -> 1970 <= y <= 2049.
Proof.
  induction keys as [|key keys IH]; cbn [year_of_dates]; [discriminate|].
  destruct (get rec key) as [| | | |val]; try exact IH.
  destruct (search DATE_YEAR val) as [m|] eqn:E; [|exact IH].
  destruct (group m 1) as [g|] eqn:Eg; [|exact IH].
  intros [= <-]. apply search_sound in E as [_ Hg].
  specialize (Hg 1%nat g Eg). unfold DATE_YEAR in Hg.
  cbn [glang] in Hg.
  destruct Hg as [Hg | [[[_ Hg] | Hg] | Hg]]; try (by destruct Hg).
  - by apply date_year_group.
  - exfalso. revert Hg. cbn [glang Alts Lit Is digit]. tauto.
Qed.

(** X25.  The year [_coerce_year] infers for a record without a [Year]
    comes from one of its date fields and lies between 1970 and 2049. *)
Theorem _coerce_year_infers_a_year_from_1970_to_2049 (rec : record) (y : Z) :
  get rec "Year" = PNone ->
  _coerce_year rec = Some y ->
  1970 <= y <= 2049.
Proof.
  intros Hy. unfold _coerce_year. rewrite Hy.
  destruct (year_of_dates rec _) as [y'|] eqn:E; [|discriminate].
  intros [= <-]. by apply year_of_dates_range in E.
Qed.

End RecordYear.

Section TextExtractionExamples.
Import Py Re IndicatorMatcher ExtractorYear.

Lemma extract_year_is_between_1970_and_2039_witness :
  extract_year "Inflation is projected at 4 % in 2037" = Some 2037
  /\ 1970 <= 2037 <= 2039.
Proof.
  assert (H : extract_year "Inflation is projected at 4 % in 2037"
              = Some 2037) by (vm_compute; reflexivity).
  split; [exact H|].
  exact (extract_year_is_between_1970_and_2039 _ _ H).
Defined.

Lemma extract_value_unit_is_one_of_four_witness :
  extract_value "Exports reached 3,5 milliards in 2023"
  = (Some 3500000000%Q, Some "USD")
  /\ "USD" ∈ ["%"; "TND"; "USD"; "EUR"].
Proof.
  assert (H : extract_value "Exports reached 3,5 milliards in 2023"
              = (Some 3500000000%Q, Some "USD")) by (vm_compute; reflexivity).
  split; [exact H|].
  exact (extract_value_unit_is_one_of_four _ _ _ H).
Defined.

Lemma extract_value_is_never_negative_witness :
  extract_value "The balance was -2.5 % of GDP" = (Some (5 # 2)%Q, Some "%")
  /\ (0 <= 5 # 2)%Q.
Proof.
  assert (H : extract_value "The balance was -2.5 % of GDP"
              = (Some (5 # 2)%Q, Some "%")) by (vm_compute; reflexivity).
  split; [exact H|].
  exact (extract_value_is_never_negative _ _ _ H).
Defined.

Lemma _coerce_year_infers_a_year_from_1970_to_2049_witness :
  get ({[ "DateISO" := PStr "2024-03-01" ]} : record) "Year" = PNone
  /\ _coerce_year {[ "DateISO" := PStr "2024-03-01" ]} = Some 2024
  /\ 1970 <= 2024 <= 2049.
Proof.
  assert (H1 : get ({[ "DateISO" := PStr "2024-03-01" ]} : record) "Year"
               = PNone) by (vm_compute; reflexivity).
  assert (H2 : _coerce_year {[ "DateISO" := PStr "2024-03-01" ]} = Some 2024)
    by (vm_compute; reflexivity).
  split; [exact H1|]. split; [exact H2|].
  exact (_coerce_year_infers_a_year_from_1970_to_2049 _ _ H1 H2).
Defined.

End TextExtractionExamples.

(** *** The unification of field names ([_alias_keys]) *)
Section FieldNames.
Import Py Extractor.

Lemma alias_canonical_other (rec : record) (k : string) :
  k <> "CanonicalIndicator" -> alias_canonical rec !! k = rec !! k.
Proof.
  intros Hk. unfold alias_canonical.
  destruct (rec !! "Canonical Name"); [|done].
  destruct (rec !! "CanonicalIndicator"); [done|].
  by rewrite lookup_insert_ne.
Qed.

Lemma alias_indicator_other (rec : record) (k : string) :
  k <> "Indicator" -> alias_indicator rec !! k = rec !! k.
Proof.
  intros Hk. unfold alias_indicator.
  destruct (rec !! "Indicator"); [done|].
  destruct (first_str rec _); [|done]. by rewrite lookup_insert_ne.
Qed.

Lemma alias_source_url_other (rec : record) (k : string) :
  k <> "SourceURL" -> alias_source_url rec !! k = rec !! k.
Proof.
  intros Hk. unfold alias_source_url.
  destruct (rec !! "SourceURL"); [done|].
  destruct (rec !! "URL") as [[| | | |w]|]; try done.
  by rewrite lookup_insert_ne.
Qed.

(** X26.  [_alias_keys] keeps every field of the record with its value,
    touches no key other than the three unified names, and does nothing
    to a record it has already unified. *)
Theorem _alias_keys_only_adds_the_unified_names (rec : record) :
  rec ⊆ _alias_keys rec
  /\ (forall k, k <> "CanonicalIndicator" -> k <> "Indicator" ->
                k <> "SourceURL" -> _alias_keys rec !! k = rec !! k)
  /\ _alias_keys (_alias_keys rec) = _alias_keys rec.
Proof.
  split; [|split].
  - unfold _alias_keys.
    etrans; [apply alias_canonical_extends|].
    etrans; [apply alias_indicator_extends|].
    apply alias_source_url_extends.
  - intros k H1 H2 H3. unfold _alias_keys.
    by rewrite alias_source_url_other, alias_indicator_other,
      alias_canonical_other.
  - apply _alias_keys_idempotent.
Qed.

End FieldNames.

(** *** The taxonomy and its alias map *)
Section TaxonomyLaws.
Import CanonicalIndicators TaxonomyUtils.

Lemma rebuild_keeps_the_taxonomy (fs : files) :
  taxonomy_file (snd (rebuild_canonical_map_if_possible fs))
  = taxonomy_file fs.
Proof.
  unfold rebuild_canonical_map_if_possible.
  destruct (canon_script fs); [|reflexivity].
  destruct (taxonomy_file fs) eqn:E; cbn; [reflexivity | exact E].
Qed.

Lemma attach_alias_spec (best_name raw : string) (singular items : list item)
    (changed : bool) :
  attach_alias best_name raw singular = Some (items, changed) ->
  map canonical_name items = map canonical_name singular
  /\ (changed = false -> items = singular)
  /\ exists it, it ∈ items /\ raw ∈ default [] (aliases it)
                /\ PyStr.lower (cname_of it) = PyStr.lower best_name.
Proof.
  revert items changed.
  induction singular as [|it rest IH]; intros items changed;
    cbn [attach_alias]; [discriminate|].
  destruct (String.eqb (PyStr.lower (cname_of it)) (PyStr.lower best_name))
    eqn:Ename.
  - apply String.eqb_eq in Ename.
    destruct (existsb (String.eqb raw) (default [] (aliases it))) eqn:Eal.
    + intros [= <- <-]. split; [done|]. split; [done|].
      exists it. split; [by left|]. split; [|exact Ename].
      by apply existsb_eqb_elem.
    + intros [= <- <-]. split; [done|]. split; [discriminate|].
      eexists. split; [by left|]. cbn. split; [|exact Ename].
      apply elem_of_app. right. by left.
  - destruct (attach_alias best_name raw rest) as [[rest' ch]|];
      [|discriminate].
    intros [= <- <-].
    destruct (IH rest' ch eq_refl) as (Hn & Hsame & it' & Hin & Hal & Hc).
    split; [cbn; by rewrite Hn|]. split.
    + intros Hch. by rewrite (Hsame Hch).
    + exists it'. split; [by right | by split].
Qed.

(** X27.  [ensure_indicator_and_alias] reports its writes: when it
    answers "unchanged" the files are as before; when it answers
    "changed" the taxonomy file lists the stripped alias under an item
    that bears the canonical name returned (exactly, or up to case and
    outer white space). *)
Theorem ensure_indicator_and_alias_reports_its_writes
    (fuzz : option (string -> string -> Q)) (alias c : string)
    (changed : bool) (fs fs' : files) :
  ensure_indicator_and_alias fuzz alias fs = ((c, changed), fs') ->
  (changed = false -> fs' = fs)
  /\ (changed = true ->
      exists items it,
        taxonomy_file fs' = Some items /\ it ∈ items
        /\ PyStr.strip alias ∈ default [] (aliases it)
        /\ (canonical_name it = Some c
            \/ PyStr.lower (cname_of it) = PyStr.lower c)).
Proof.
  unfold ensure_indicator_and_alias.
  set (raw := PyStr.strip alias).
  destruct (String.eqb raw ""); [intros [= <- <- <-]; by split|].
  destruct (_load_alias_map fs !! _norm raw) as [e|];
    [intros [= <- <- <-]; by split|].
  remember (_load_list_or_empty fs) as singular eqn:Hsing.
  assert (Hcreate :
    (((PyStr.title raw, true),
     snd (rebuild_canonical_map_if_possible
            (_save_singular
               (singular ++ [Item (Some (PyStr.title raw)) (Some [raw])])
               fs))) : (string * bool) * files) = ((c, changed), fs') ->
    (changed = false -> fs' = fs)
    /\ (changed = true ->
        exists items it,
          taxonomy_file fs' = Some items /\ it ∈ items
          /\ raw ∈ default [] (aliases it)
          /\ (canonical_name it = Some c
              \/ PyStr.lower (cname_of it) = PyStr.lower c))).
  { intros [= <- <- <-]. split; [discriminate|]. intros _.
    eexists _, _. rewrite rebuild_keeps_the_taxonomy. cbn.
    split; [reflexivity|]. split; [apply elem_of_app; right; by left|].
    cbn. split; [by left | by left]. }
  destruct fuzz as [ratio|]; [|exact Hcreate].
  destruct singular as [|it0 rest0] eqn:Es; [exact Hcreate|].
  rewrite <- Es in *.
  destruct (best_match ratio (_norm raw) singular)
    as [[best_name|] best_score]; [|exact Hcreate].
  destruct (negb (String.eqb best_name "") && Qle_bool 88 best_score);
    [|exact Hcreate].
  destruct (attach_alias best_name raw singular) as [[items ch]|] eqn:Ea;
    [|exact Hcreate].
  destruct (attach_alias_spec _ _ _ _ _ Ea) as (_ & _ & it & Hin & Hal & Hc).
  destruct ch.
  - intros [= <- <- <-]. split; [discriminate|]. intros _.
    exists items, it. rewrite rebuild_keeps_the_taxonomy. cbn.
    split; [reflexivity|]. split; [exact Hin|]. split; [exact Hal|].
    by right.
  - intros [= <- <- <-]. by split.
Qed.

(** X28.  [ensure_indicator_and_alias] never drops or renames an
    indicator: the canonical names of the taxonomy before the call are
    still there after it, in the same order, followed by at most one new
    name. *)
Theorem ensure_indicator_and_alias_keeps_the_indicators
    (fuzz : option (string -> string -> Q)) (alias : string)
    (r : string * bool) (fs fs' : files) :
  ensure_indicator_and_alias fuzz alias fs = (r, fs') ->
  map canonical_name (_load_list_or_empty fs')
  = map canonical_name (_load_list_or_empty fs)
  \/ map canonical_name (_load_list_or_empty fs')
     = map canonical_name (_load_list_or_empty fs)
       ++ [Some (PyStr.title (PyStr.strip alias))].
Proof.
  unfold ensure_indicator_and_alias.
  set (raw := PyStr.strip alias).
  destruct (String.eqb raw ""); [intros [= <- <-]; by left|].
  destruct (_load_alias_map fs !! _norm raw) as [e|];
    [intros [= <- <-]; by left|].
  assert (Hcreate :
    (((PyStr.title raw, true),
      snd (rebuild_canonical_map_if_possible
             (_save_singular
                (_load_list_or_empty fs
                 ++ [Item (Some (PyStr.title raw)) (Some [raw])])
                fs))) : (string * bool) * files) = (r, fs') ->
    map canonical_name (_load_list_or_empty fs')
    = map canonical_name (_load_list_or_empty fs)
    \/ map canonical_name (_load_list_or_empty fs')
       = map canonical_name (_load_list_or_empty fs)
         ++ [Some (PyStr.title raw)]).
  { intros [= <- <-]. right. unfold _load_list_or_empty at 1.
    rewrite rebuild_keeps_the_taxonomy. cbn. by rewrite List.map_app. }
  destruct fuzz as [ratio|]; [|exact Hcreate].
  destruct (_load_list_or_empty fs) as [|it0 rest0] eqn:Es;
    [exact Hcreate|].
  rewrite <- Es in *.
  destruct (best_match ratio (_norm raw) (_load_list_or_empty fs))
    as [[best_name|] best_score]; [|exact Hcreate].
  destruct (negb (String.eqb best_name "") && Qle_bool 88 best_score);
    [|exact Hcreate].
  destruct (attach_alias best_name raw (_load_list_or_empty fs))
    as [[items ch]|] eqn:Ea; [|exact Hcreate].
  destruct (attach_alias_spec _ _ _ _ _ Ea) as (Hn & _ & _).
  destruct ch.
  - intros [= <- <-]. left. unfold _load_list_or_empty at 1.
    rewrite rebuild_keeps_the_taxonomy. cbn. exact Hn.
  - intros [= <- <-]. by left.
Qed.

Lemma add_aliases_keeps (e e0 : entry) (names : list string)
    (m : gmap string entry) (k : string) :
  m !! k = Some e0 -> add_aliases e names m !! k = Some e0.
Proof.
  unfold add_aliases. revert m.
  induction names as [|a names IH]; intros m Hk; cbn [fold_left];
    [exact Hk|].
  apply IH. destruct (m !! normalize a) eqn:Ea; [exact Hk|].
  rewrite lookup_insert_ne; [exact Hk|]. intros <-. congruence.
Qed.

Lemma build_step_keeps (m : gmap string entry) (it : item) (k : string)
    (e0 : entry) :
  m !! k = Some e0 ->
  (let canonical_raw := PyStr.strip (default "" (canonical_name it)) in
   if String.eqb canonical_raw "" then m
   else
     let canonical := title_case_indicator canonical_raw in
     let e := Entry (Some canonical) (Some (assign_category canonical)) in
     add_aliases e (default [] (aliases it) ++ [canonical_raw]) m) !! k
  = Some e0.
Proof.
  intros Hk. cbv zeta. destruct (String.eqb _ ""); [exact Hk|].
  by apply add_aliases_keeps.
Qed.

Lemma fold_left_keeps {A : Type}
    (f : gmap string entry -> A -> gmap string entry) (l : list A)
    (m : gmap string entry) (k : string) (e : entry) :
  (forall m x, m !! k = Some e -> f m x !! k = Some e) ->
  m !! k = Some e -> fold_left f l m !! k = Some e.
Proof.
  intros Hf. revert m. induction l as [|x l IH]; intros m Hk; cbn [fold_left];
    [exact Hk|].
  apply IH. by apply Hf.
Qed.

(** X29.  The builder of the alias map is first-writer-wins: the entry a
    key gets from the first indicators of the list is not replaced by
    anything the later ones bring. *)
Theorem build_keeps_the_first_entry_of_a_key (first later : list item)
    (k : string) (e : entry) :
  build first !! k = Some e -> build (first ++ later) !! k = Some e.
Proof.
  unfold build. rewrite fold_left_app. intros H.
  apply fold_left_keeps; [|exact H].
  intros m it Hk. by apply (build_step_keeps m it k e).
Qed.

End TaxonomyLaws.

Section TaxonomyLawsExamples.
Import CanonicalIndicators TaxonomyUtils.

Lemma sample_new_indicator :
  ensure_indicator_and_alias None " core inflation "
    (Files (Some []) None false)
  = (("Core Inflation", true),
     Files (Some [Item (Some "Core Inflation") (Some ["core inflation"])])
           None false).
Proof. vm_compute. reflexivity. Qed.

Lemma ensure_indicator_and_alias_reports_its_writes_witness :
  ensure_indicator_and_alias None " core inflation "
    (Files (Some []) None false)
  = (("Core Inflation", true),
     Files (Some [Item (Some "Core Inflation") (Some ["core inflation"])])
           None false)
  /\ (true = false ->
      Files (Some [Item (Some "Core Inflation") (Some ["core inflation"])])
            None false
      = Files (Some []) None false)
  /\ (true = true ->
      exists items it,
        taxonomy_file
          (Files (Some [Item (Some "Core Inflation")
                             (Some ["core inflation"])]) None false)
        = Some items
        /\ it ∈ items
        /\ PyStr.strip " core inflation " ∈ default [] (aliases it)
        /\ (canonical_name it = Some "Core Inflation"
            \/ PyStr.lower (cname_of it) = PyStr.lower "Core Inflation")).
Proof.
  split; [exact sample_new_indicator|].
  exact (ensure_indicator_and_alias_reports_its_writes _ _ _ _ _ _
           sample_new_indicator).
Defined.

Lemma ensure_indicator_and_alias_keeps_the_indicators_witness :
  ensure_indicator_and_alias None " core inflation "
    (Files (Some []) None false)
  = (("Core Inflation", true),
     Files (Some [Item (Some "Core Inflation") (Some ["core inflation"])])
           None false)
  /\ (map canonical_name
        (_load_list_or_empty
           (Files (Some [Item (Some "Core Inflation")
                              (Some ["core inflation"])]) None false))
      = map canonical_name (_load_list_or_empty (Files (Some []) None false))
      \/ map canonical_name
           (_load_list_or_empty
              (Files (Some [Item (Some "Core Inflation")
                                 (Some ["core inflation"])]) None false))
         = map canonical_name
             (_load_list_or_empty (Files (Some []) None false))
           ++ [Some (PyStr.title (PyStr.strip " core inflation "))]).
Proof.
  split; [exact sample_new_indicator|].
  exact (ensure_indicator_and_alias_keeps_the_indicators _ _ _ _ _
           sample_new_indicator).
Defined.

Lemma sample_build :
  build [Item (Some "gdp growth") (Some ["pib"])] !! "pib"
  = Some (Entry (Some "Gdp Growth") (Some "National Accounts")).
Proof. vm_compute. reflexivity. Qed.

Lemma build_keeps_the_first_entry_of_a_key_witness :
  build [Item (Some "gdp growth") (Some ["pib"])] !! "pib"
  = Some (Entry (Some "Gdp Growth") (Some "National Accounts"))
  /\ build ([Item (Some "gdp growth") (Some ["pib"])]
            ++ [Item (Some "produit interieur") (Some ["pib"])]) !! "pib"
     = Some (Entry (Some "Gdp Growth") (Some "National Accounts")).
Proof.
  split; [exact sample_build|].
  exact (build_keeps_the_first_entry_of_a_key _ _ _ _ sample_build).
Defined.

End TaxonomyLawsExamples.

Section ValueNeedsDigits.
Import Py Re IndicatorMatcher.

(** X30.  In a text without a digit [extract_value] finds nothing. *)
Theorem extract_value_needs_a_digit (text : string) :
  PyStr.all_chars (fun c => negb (PyStr.is_digit c)) text = true ->
  extract_value text = (None, None).
Proof.
  intros H. apply prepare_keeps_nondigits in H.
  destruct (search_skips_nondigits _ [] None H) as [p' Hs].
  rewrite app_nil_r in Hs.
  unfold extract_value, first_numeric_token, search. rewrite Hs.
  reflexivity.
Qed.

End ValueNeedsDigits.

Section ValueNeedsDigitsExamples.
Import Py Re IndicatorMatcher.

Lemma extract_value_needs_a_digit_witness :
  PyStr.all_chars (fun c => negb (PyStr.is_digit c))
    "Inflation eased, the bank said" = true
  /\ extract_value "Inflation eased, the bank said" = (None, None).
Proof.
  assert (H : PyStr.all_chars (fun c => negb (PyStr.is_digit c))
                "Inflation eased, the bank said" = true)
    by (vm_compute; reflexivity).
  split; [exact H|].
  exact (extract_value_needs_a_digit _ H).
Defined.

End ValueNeedsDigitsExamples.
